(** * travel-image-generator: the record store, the slug and the result collector

    A shallow embedding of the server action [actions.ts] (slug, file
    extension, CSV update, download-and-update) and of the gather loop of
    [components/ImagePicker.tsx], with the properties the specification
    states about them: the three-way policy of the CSV update and its frame,
    the update applied twice, the bounds of the gather loop and what it does
    when a request fails, the validation of the form, and the shape of slugs
    and file names.

    JavaScript strings are sequences of UTF-16 code units; they are modelled
    as lists of [N].  Arrays are lists, read with [!!] and written with
    [arraySet], which extends the array when the index is past its end, as a
    JavaScript assignment does.  Exceptions are the [Throw] case of
    [Result]. *)

From Stdlib Require Import NArith String Ascii DecimalString DecimalPos.
From stdpp Require Import base list gmap strings.

Open Scope N_scope.

(** ** Strings *)

Abbreviation jsstring := (list N).

(** An ASCII literal as a JavaScript string. *)
Definition js (s : string) : jsstring :=
  map N_of_ascii (list_ascii_of_string s).

Definition LF : N := 10.
Definition CR : N := 13.
Definition comma : N := 44.
Definition hyphen : N := 45.
Definition dot : N := 46.
Definition slash : N := 47.
Definition question : N := 63.
Definition underscore : N := 95.

(** WhiteSpace and LineTerminator of ECMA-262: what [String.prototype.trim]
    strips and what [\s] matches. *)
Definition isWhiteSpace (c : N) : bool :=
  ((9 <=? c) && (c <=? 13)) || (c =? 32) || (c =? 0xA0) || (c =? 0x1680)
  || ((0x2000 <=? c) && (c <=? 0x200A)) || (c =? 0x2028) || (c =? 0x2029)
  || (c =? 0x202F) || (c =? 0x205F) || (c =? 0x3000) || (c =? 0xFEFF).

Definition isDigit (c : N) : bool := (48 <=? c) && (c <=? 57).
Definition isUpper (c : N) : bool := (65 <=? c) && (c <=? 90).
Definition isLower (c : N) : bool := (97 <=? c) && (c <=? 122).

(** [\w] without the unicode and ignoreCase flags: [A-Za-z0-9_]. *)
Definition isWord (c : N) : bool :=
  isUpper c || isLower c || isDigit c || (c =? underscore).

Definition isAscii (c : N) : bool := c <? 128.

Definition lowerAscii (c : N) : N := if isUpper c then c + 32 else c.

Fixpoint trimStart (s : jsstring) : jsstring :=
  match s with
  | c :: s' => if isWhiteSpace c then trimStart s' else s
  | [] => []
  end.

Definition trimEnd (s : jsstring) : jsstring := reverse (trimStart (reverse s)).

(** [s.trim()] *)
Definition trim (s : jsstring) : jsstring := trimEnd (trimStart s).

(** [s.split(sep)] for a one-unit separator string: never the empty array. *)
Fixpoint splitOn (sep : N) (s : jsstring) : list jsstring :=
  match s with
  | [] => [[]]
  | c :: s' =>
      if c =? sep then [] :: splitOn sep s'
      else match splitOn sep s' with
           | piece :: pieces => (c :: piece) :: pieces
           | [] => [[c]]
           end
  end.

(** [s.split(/\r?\n/)]: a line feed, with the carriage return right before it
    when there is one, separates two lines. *)
Fixpoint splitLines (s : jsstring) : list jsstring :=
  match s with
  | [] => [[]]
  | c :: s' =>
      if c =? LF then [] :: splitLines s'
      else
        let keep := match splitLines s' with
                    | piece :: pieces => (c :: piece) :: pieces
                    | [] => [[c]]
                    end in
        match s' with
        | d :: s'' => if (c =? CR) && (d =? LF) then [] :: splitLines s'' else keep
        | [] => keep
        end
  end.

(** [parts.join(sep)] *)
Fixpoint joinWith (sep : jsstring) (parts : list jsstring) : jsstring :=
  match parts with
  | [] => []
  | [p] => p
  | p :: ps => p ++ sep ++ joinWith sep ps
  end.

(** [a.indexOf(x)], [None] for -1. *)
Fixpoint indexOf (x : jsstring) (l : list jsstring) : option nat :=
  match l with
  | [] => None
  | y :: l' => if bool_decide (y = x) then Some 0%nat else S <$> indexOf x l'
  end.

(** [a[i] = x] on an array of strings.  Past the end the array grows and the
    slots in between are holes, which [join] prints as empty strings. *)
Definition arraySet (i : nat) (x : jsstring) (a : list jsstring) : list jsstring :=
  if (i <? length a)%nat then <[i := x]> a
  else a ++ replicate (i - length a)%nat [] ++ [x].

(** ** What the runtime provides

    [toLowerCase] and [normalize('NFKD')] read the Unicode tables of the
    engine and [new URL(url)] is the WHATWG parser; none of them is code of
    this repository.  They are fields of [Platform]; the only law asked of
    them is what [toLowerCase] does to ASCII. *)
Class Platform := {
  toLowerCase : jsstring -> jsstring;
  normalizeNFKD : jsstring -> jsstring;
  (** [new URL(url).pathname], [None] when the constructor throws *)
  URL_pathname : jsstring -> option jsstring;
  toLowerCase_ascii :
    forall s, forallb isAscii s = true -> toLowerCase s = map lowerAscii s
}.

(** ** Exceptions *)

Inductive Result (A : Type) : Type :=
  | Ok (a : A)
  | Throw (message : jsstring).
Arguments Ok {A} a.
Arguments Throw {A} message.

Definition bindR {A B} (r : Result A) (k : A -> Result B) : Result B :=
  match r with
  | Ok a => k a
  | Throw m => Throw m
  end.

(** The message V8 gives to the TypeError of [undefined.trim()]. *)
Definition typeErrorTrim : jsstring :=
  js "Cannot read properties of undefined (reading 'trim')".

(** ** actions.ts: the CSV update *)

Definition parseCsvLine (line : jsstring) : list jsstring := splitOn comma line.

Definition stringifyCsvLine (fields : list jsstring) : jsstring :=
  joinWith [comma] fields.

(** [while (fields.length < n) fields.push('')] *)
Definition padTo (n : nat) (fields : list jsstring) : list jsstring :=
  fields ++ replicate (n - length fields)%nat [].

(** [!raw || raw.trim() === ''] *)
Definition isBlank (raw : jsstring) : bool := bool_decide (trim raw = []).

(** [!fields[k] || fields[k].trim() === ''] *)
Definition fieldEmpty (f : option jsstring) : bool :=
  match f with
  | None => true
  | Some v => bool_decide (trim v = [])
  end.

(** The variables of the row loop: [lines], [updated], [updatedIndex]. *)
Record ScanState := {
  sc_lines : list jsstring;
  sc_updated : bool;
  sc_updatedIndex : option nat
}.

Definition noteFirstMatch (i : nat) (st : ScanState) : ScanState :=
  match sc_updatedIndex st with
  | None => {| sc_lines := sc_lines st; sc_updated := sc_updated st;
               sc_updatedIndex := Some i |}
  | Some _ => st
  end.

(** [for (let i = 1; i < lines.length; i++)]: [rest] is what is left of
    [lines] from index [i] on. *)
Fixpoint scanRows (headerLen filenameIndex : nat) (city country filename : jsstring)
    (i : nat) (rest : list jsstring) (st : ScanState) : Result ScanState :=
  match rest with
  | [] => Ok st
  | raw :: rest' =>
      if isBlank raw then
        scanRows headerLen filenameIndex city country filename (S i) rest' st
      else
        let fields := padTo headerLen (parseCsvLine raw) in
        match fields !! 0%nat, fields !! 1%nat with
        | Some f0, Some f1 =>
            if bool_decide (trim f0 = city) && bool_decide (trim f1 = country) then
              if negb (sc_updated st) && fieldEmpty (fields !! filenameIndex) then
                Ok {| sc_lines :=
                        <[i := stringifyCsvLine (arraySet filenameIndex filename fields)]>
                          (sc_lines st);
                      sc_updated := true;
                      sc_updatedIndex := Some i |}
              else
                scanRows headerLen filenameIndex city country filename (S i) rest'
                  (noteFirstMatch i st)
            else
              scanRows headerLen filenameIndex city country filename (S i) rest' st
        | _, _ => Throw typeErrorTrim
        end
  end.

(** ** actions.ts: the state of the action and the form *)

Inductive Status := idle | success | error.

Record ActionState := {
  status : Status;
  message : option jsstring;
  filename : option jsstring
}.

(** A value of a form field: a string or a file. *)
Inductive FormDataEntryValue :=
  | FormText (s : jsstring)
  | FormFile.

Abbreviation FormData := (list (jsstring * FormDataEntryValue)).

(** [formData.get(name)]: the first value of the field, [None] for null. *)
Fixpoint formGet (name : jsstring) (formData : FormData) : option FormDataEntryValue :=
  match formData with
  | [] => None
  | (k, v) :: rest => if bool_decide (k = name) then Some v else formGet name rest
  end.

(** [String(formData.get(name) || '').trim()] *)
Definition formField (name : jsstring) (formData : FormData) : jsstring :=
  trim match formGet name formData with
       | Some (FormText s) => s
       | Some FormFile => js "[object File]"
       | None => []
       end.

(** [!s] on a string *)
Definition isEmpty (s : jsstring) : bool := bool_decide (s = []).

Section RecordStore.
Context `{Platform}.

Definition normalizeHeader (header : list jsstring) : list jsstring :=
  map (fun h => toLowerCase (trim h)) header.

(** The header after "Header handling", with the index of its filename
    column. *)
Definition headerWithFilename (line0 : jsstring) : list jsstring * nat :=
  let header := parseCsvLine line0 in
  match indexOf (js "filename") (normalizeHeader header) with
  | Some k => (header, k)
  | None => (header ++ [js "filename"], length header)
  end.

(** The body of [updateCsvWithFilename] between the read and the write, on
    the array [lines]. *)
Definition updateLines (city country filename : jsstring) (lines : list jsstring)
    : Result (list jsstring) :=
  match lines with
  | [] => Throw (js "CSV file is empty")
  | line0 :: _ =>
      let '(header, filenameIndex) := headerWithFilename line0 in
      bindR (scanRows (length header) filenameIndex city country filename 1 (drop 1 lines)
               {| sc_lines := lines; sc_updated := false; sc_updatedIndex := None |})
        (fun st =>
           bindR
             (if sc_updated st then Ok (sc_lines st)
              else
                match sc_updatedIndex st with
                | Some j =>
                    match sc_lines st !! j with
                    | Some raw =>
                        let fields := padTo (length header) (parseCsvLine raw) in
                        Ok (<[j := stringifyCsvLine (arraySet filenameIndex filename fields)]>
                              (sc_lines st))
                    | None => Throw (js "Cannot read properties of undefined (reading 'split')")
                    end
                | None =>
                    let newRow := padTo (length header) [city; country; []] in
                    Ok (sc_lines st ++ [stringifyCsvLine (arraySet filenameIndex filename newRow)])
                end)
             (fun lines' => Ok (<[0%nat := stringifyCsvLine header]> lines')))
  end.

(** The new contents of the file, from the old. *)
Definition updatedCsv (city country filename original : jsstring) : Result jsstring :=
  bindR (updateLines city country filename (splitLines original))
    (fun lines' => Ok (joinWith [LF] lines')).

(** ** actions.ts: slug and file extension *)

(** The characters [/[^\w\s-]/g] leaves in place. *)
Definition slugKeeps (c : N) : bool := isWord c || isWhiteSpace c || (c =? hyphen).

(** [/[\s_]/] *)
Definition isSeparator (c : N) : bool := isWhiteSpace c || (c =? underscore).

(** [s.replace(/[\s_]+/g, '-')]: [inRun] says that the unit before was part
    of the run being replaced. *)
Fixpoint hyphenate (inRun : bool) (s : jsstring) : jsstring :=
  match s with
  | [] => []
  | c :: s' =>
      if isSeparator c then
        if inRun then hyphenate true s' else hyphen :: hyphenate true s'
      else c :: hyphenate false s'
  end.

Definition toSlug (input : jsstring) : jsstring :=
  hyphenate false (trim (List.filter slugKeeps (normalizeNFKD (toLowerCase input)))).

(** [imageIdRaw.replace(/[^a-zA-Z0-9_-]/g, '')] *)
Definition sanitizeId (imageIdRaw : jsstring) : jsstring :=
  List.filter (fun c => isWord c || (c =? hyphen)) imageIdRaw.

Definition getFileExtensionFromUrl (url : jsstring) : jsstring :=
  match URL_pathname url with
  | Some pathname =>
      let lastSegment := List.last (splitOn slash pathname) [] in
      let clean := List.hd [] (splitOn question lastSegment) in
      let parts := splitOn dot clean in
      if (1 <? length parts)%nat then toLowerCase (List.last parts [])
      else js "jpg"
  | None => js "jpg"
  end.

(** ** actions.ts: files and network

    The world of the server action: the files below the working directory,
    by path; what a GET of each URL answers ([None]: the request fails); and
    the requests and file operations made so far, latest first. *)

Record Response := {
  res_ok : bool;
  res_status : N;
  res_statusText : jsstring;
  res_body : jsstring
}.

Inductive Event :=
  | EvMkdir (path : jsstring)
  | EvFetch (url : jsstring)
  | EvReadFile (path : jsstring)
  | EvWriteFile (path : jsstring).

Record World := {
  files : gmap jsstring jsstring;
  network : jsstring -> option Response;
  writable : jsstring -> bool;
  trace : list Event
}.

Definition IO (A : Type) : Type := World -> Result A * World.

Definition ret {A} (a : A) : IO A := fun w => (Ok a, w).
Definition throw {A} (message : jsstring) : IO A := fun w => (Throw message, w).
Definition bindIO {A B} (m : IO A) (k : A -> IO B) : IO B :=
  fun w => match m w with
           | (Ok a, w') => k a w'
           | (Throw e, w') => (Throw e, w')
           end.
Definition liftR {A} (r : Result A) : IO A := fun w => (r, w).
(** [try { m } catch (err) { h(err.message) }] *)
Definition tryCatch {A} (m : IO A) (h : jsstring -> IO A) : IO A :=
  fun w => match m w with
           | (Ok a, w') => (Ok a, w')
           | (Throw e, w') => h e w'
           end.

Notation "x <- m ;; k" := (bindIO m (fun x => k))
  (at level 100, m at next level, right associativity).

Definition logEvent (e : Event) (w : World) : World :=
  {| files := files w; network := network w; writable := writable w;
     trace := e :: trace w |}.

Definition mkdir (path : jsstring) : IO unit := fun w =>
  if writable w path then (Ok tt, logEvent (EvMkdir path) w)
  else (Throw (js "EACCES: permission denied, mkdir"), logEvent (EvMkdir path) w).

Definition readFile (path : jsstring) : IO jsstring := fun w =>
  match files w !! path with
  | Some text => (Ok text, logEvent (EvReadFile path) w)
  | None => (Throw (js "ENOENT: no such file or directory, open"),
             logEvent (EvReadFile path) w)
  end.

Definition writeFile (path data : jsstring) : IO unit := fun w =>
  if writable w path then
    (Ok tt, {| files := <[path := data]> (files w); network := network w;
               writable := writable w; trace := EvWriteFile path :: trace w |})
  else (Throw (js "EACCES: permission denied, open"), logEvent (EvWriteFile path) w).

Definition fetch (url : jsstring) : IO Response := fun w =>
  match network w url with
  | Some res => (Ok res, logEvent (EvFetch url) w)
  | None => (Throw (js "fetch failed"), logEvent (EvFetch url) w)
  end.

(** Paths are written from [process.cwd()]. *)
Definition csvPath : jsstring := js "src/app/file.csv".
Definition downloadsDir : jsstring := js "public/downloads".

(** [String(n)] for a status code. *)
Definition decimal (n : N) : jsstring := js (NilEmpty.string_of_uint (N.to_uint n)).

Definition ensureDir (dirPath : jsstring) : IO unit := mkdir dirPath.

Definition downloadImageToPublic (imageUrl baseName : jsstring) : IO jsstring :=
  let ext := getFileExtensionFromUrl imageUrl in
  let filename := baseName ++ [dot] ++ ext in
  _ <- ensureDir downloadsDir ;;
  res <- fetch imageUrl ;;
  if negb (res_ok res) then
    throw (js "Failed to download image: " ++ decimal (res_status res)
             ++ js " " ++ res_statusText res)
  else
    _ <- writeFile (downloadsDir ++ [slash] ++ filename) (res_body res) ;;
    ret filename.

Definition updateCsvWithFilename (city country filename : jsstring) : IO unit :=
  original <- readFile csvPath ;;
  updated <- liftR (updatedCsv city country filename original) ;;
  writeFile csvPath updated.

(** ** actions.ts: the form action *)

Definition downloadImageAndUpdateCsv (prevState : ActionState) (formData : FormData)
    : IO ActionState :=
  tryCatch
    (let city := formField (js "city") formData in
     let country := formField (js "country") formData in
     let imageUrl := formField (js "imageUrl") formData in
     let imageIdRaw := formField (js "imageId") formData in
     if isEmpty city || isEmpty country || isEmpty imageUrl || isEmpty imageIdRaw then
       ret {| status := error; message := Some (js "Missing required fields");
              filename := None |}
     else
       let safeId := sanitizeId imageIdRaw in
       if isEmpty safeId then
         ret {| status := error; message := Some (js "Invalid image id"); filename := None |}
       else
         let baseName := toSlug city ++ [hyphen] ++ toSlug country ++ [hyphen] ++ safeId in
         filename <- downloadImageToPublic imageUrl baseName ;;
         _ <- updateCsvWithFilename city country filename ;;
         ret {| status := success; message := Some (js "Downloaded and CSV updated");
                filename := Some filename |})
    (fun message => ret {| status := error; message := Some message; filename := None |}).

End RecordStore.

(** ** components/ImagePicker.tsx: the gather loop *)

Record PixabayHit := {
  id : jsstring;
  tags : jsstring;
  previewURL : jsstring;
  webformatURL : jsstring;
  largeImageURL : jsstring;
  imageWidth : option N;
  imageHeight : option N
}.

(** What one request of a page of [/api/search] comes to. *)
Inductive PageFetch :=
  | FetchRejects                              (* fetch throws: no connection *)
  | NotOk                                     (* a response with res.ok false *)
  | JsonRejects                               (* res.json() throws *)
  | Json (hits : option (list PixabayHit)).   (* None: data.hits is no array *)

(** [Array.isArray(data?.hits) ? data.hits : []], when the page arrived. *)
Definition pageHits (r : PageFetch) : option (list PixabayHit) :=
  match r with
  | Json (Some hits) => Some hits
  | Json None => Some []
  | _ => None
  end.

(** [for (const h of hits)], with its [break]. *)
Fixpoint collectNovel (hits collected : list PixabayHit) (currentSeen : gset jsstring)
    : list PixabayHit * gset jsstring :=
  match hits with
  | [] => (collected, currentSeen)
  | h :: hits' =>
      if negb (bool_decide (id h ∈ currentSeen))
         && negb (existsb (fun c => bool_decide (id c = id h)) collected)
      then
        let collected' := collected ++ [h] in
        let seen' := currentSeen ∪ {[ id h ]} in
        if (6 <=? length collected')%nat then (collected', seen')
        else collectNovel hits' collected' seen'
      else collectNovel hits' collected currentSeen
  end.

(** The variables of [loadUnique], and the pages requested so far, latest
    first. *)
Record Gather := {
  collected : list PixabayHit;
  page : nat;
  attempts : nat;
  currentSeen : gset jsstring;
  requested : list nat
}.

(** [while (collected.length < 6 && attempts < 5)], unrolled at most [fuel]
    times: [None] when the loop is still running then.  A failed request
    leaves the loop with the pages requested so far. *)
Fixpoint gatherLoop (fuel : nat) (search : nat -> PageFetch) (g : Gather)
    : option (Result Gather * list nat) :=
  match fuel with
  | O => None
  | S fuel' =>
      if (length (collected g) <? 6)%nat && (attempts g <? 5)%nat then
        let requested' := page g :: requested g in
        match pageHits (search (page g)) with
        | None => Some (Throw (js "Search failed"), requested')
        | Some hits =>
            let '(collected', seen') := collectNovel hits (collected g) (currentSeen g) in
            let g' := {| collected := collected'; page := S (page g);
                         attempts := S (attempts g); currentSeen := seen';
                         requested := requested' |} in
            if (length hits =? 0)%nat then Some (Ok g', requested')
            else gatherLoop fuel' search g'
        end
      else Some (Ok g, requested g)
  end.

(** The state of the component that the gather reads and writes. *)
Record Picker := {
  images : list PixabayHit;
  loading : bool;
  refreshing : bool;
  pageNum : nat;
  seenIds : gset jsstring;
  isPending : bool
}.

Definition setGathered (imgs : list PixabayHit) (seen : gset jsstring) (s : Picker) : Picker :=
  {| images := imgs; loading := false; refreshing := false; pageNum := pageNum s;
     seenIds := seen; isPending := isPending s |}.

Definition setLoading (s : Picker) : Picker :=
  {| images := images s; loading := true; refreshing := refreshing s; pageNum := pageNum s;
     seenIds := seenIds s; isPending := isPending s |}.

(** The loop of [loadUnique] from the state of the component. *)
Definition gather (fuel : nat) (search : nat -> PageFetch) (s : Picker)
    : option (Result Gather * list nat) :=
  gatherLoop fuel search
    {| collected := []; page := pageNum s; attempts := 0; currentSeen := seenIds s;
       requested := [] |}.

(** One run of [loadUnique] to its end; [aborted] is the flag the cleanup of
    the effect may have set by then.  Six rounds are enough for the loop
    ([gatherLoop_terminates]). *)
Definition loadUnique (query : jsstring) (search : nat -> PageFetch) (aborted : bool)
    (s : Picker) : Picker :=
  if isEmpty query then s
  else
    let s1 := setLoading s in
    match gather 6 search s with
    | Some (Ok g, _) =>
        if aborted then s1 else setGathered (collected g) (currentSeen g) s1
    | Some (Throw _, _) =>
        if aborted then s1 else setGathered [] (seenIds s1) s1
    | None => s1
    end.

Definition handleRefresh (s : Picker) : Picker :=
  if loading s || refreshing s || isPending s then s
  else {| images := images s; loading := loading s; refreshing := true;
          pageNum := S (pageNum s); seenIds := seenIds s; isPending := isPending s |}.

(** ** The decision table of the specification

    The specification words the update as a table of three cases: a row
    with the key and no filename is found, only rows with the key and a
    filename are found, no row with the key is found.  These definitions
    follow its words; [updateLines_policy] compares them with the loop. *)

(** The fields of a row, read against a header of [headerLen] columns. *)
Definition rowFields (headerLen : nat) (raw : jsstring) : list jsstring :=
  padTo headerLen (parseCsvLine raw).

(** The row is not blank and its first two fields, trimmed, are the key. *)
Definition rowMatches (headerLen : nat) (city country raw : jsstring) : bool :=
  negb (isBlank raw) &&
  match rowFields headerLen raw !! 0%nat, rowFields headerLen raw !! 1%nat with
  | Some f0, Some f1 => bool_decide (trim f0 = city) && bool_decide (trim f1 = country)
  | _, _ => false
  end.

(** The filename field of the row is empty once trimmed. *)
Definition rowLacksFilename (headerLen filenameIndex : nat) (raw : jsstring) : bool :=
  fieldEmpty (rowFields headerLen raw !! filenameIndex).

(** The row with its filename field set. *)
Definition withFilename (headerLen filenameIndex : nat) (filename raw : jsstring) : jsstring :=
  stringifyCsvLine (<[filenameIndex := filename]> (rowFields headerLen raw)).

(** The first row that satisfies [p], with its index. *)
Fixpoint findRow (p : jsstring -> bool) (rows : list jsstring) : option (nat * jsstring) :=
  match rows with
  | [] => None
  | r :: rows' =>
      if p r then Some (0%nat, r)
      else match findRow p rows' with
           | Some (n, x) => Some (S n, x)
           | None => None
           end
  end.

Inductive RowStatus :=
  | NotFound
  | FoundEmpty (i : nat) (raw : jsstring)
  | FoundFilled (i : nat) (raw : jsstring).

Definition rowStatus (headerLen filenameIndex : nat) (city country : jsstring)
    (rows : list jsstring) : RowStatus :=
  match findRow (fun r => rowMatches headerLen city country r
                          && rowLacksFilename headerLen filenameIndex r) rows with
  | Some (i, raw) => FoundEmpty i raw
  | None =>
      match findRow (rowMatches headerLen city country) rows with
      | Some (i, raw) => FoundFilled i raw
      | None => NotFound
      end
  end.

(** The fields of the row appended for a key that no row has. *)
Definition newRowFields (headerLen filenameIndex : nat) (city country filename : jsstring)
    : list jsstring :=
  <[filenameIndex := filename]> ([city; country; []] ++ replicate (headerLen - 3)%nat []).

(** The rows after the update, by the table. *)
Definition applyPolicy (headerLen filenameIndex : nat) (city country filename : jsstring)
    (rows : list jsstring) : list jsstring :=
  match rowStatus headerLen filenameIndex city country rows with
  | FoundEmpty i raw | FoundFilled i raw =>
      <[i := withFilename headerLen filenameIndex filename raw]> rows
  | NotFound =>
      rows ++ [stringifyCsvLine (newRowFields headerLen filenameIndex city country filename)]
  end.

(** The first two columns of the header are named city and country. *)
Definition cityCountryFirst `{Platform} (line0 : jsstring) : Prop :=
  take 2 (normalizeHeader (parseCsvLine line0)) = [js "city"; js "country"].

(** A string without comma and without line break. *)
Definition plainText (s : jsstring) : Prop := (comma ∉ s) /\ (LF ∉ s) /\ (CR ∉ s).

(** A key and a filename that the format can hold: no comma and no line
    break in them, and the key trimmed, as the form action passes it. *)
Definition validTriple (city country filename : jsstring) : Prop :=
  plainText city /\ plainText country /\ plainText filename
  /\ trim city = city /\ trim country = country.

(** At most one row has the key. *)
Definition keyUnique (headerLen : nat) (city country : jsstring) (rows : list jsstring) : Prop :=
  forall i j ri rj,
    rows !! i = Some ri -> rows !! j = Some rj ->
    rowMatches headerLen city country ri = true ->
    rowMatches headerLen city country rj = true -> i = j.

(** What the loop leaves in its three variables, by the first row with the
    key and no filename and the first row with the key. *)
Definition scanOutcome (hl fi : nat) (c k f : jsstring) (i : nat) (rest : list jsstring)
    (st : ScanState) : ScanState :=
  match findRow (fun r => rowMatches hl c k r && rowLacksFilename hl fi r) rest with
  | Some (n, raw) =>
      {| sc_lines := <[(i + n)%nat := withFilename hl fi f raw]> (sc_lines st);
         sc_updated := true; sc_updatedIndex := Some (i + n)%nat |}
  | None =>
      {| sc_lines := sc_lines st; sc_updated := false;
         sc_updatedIndex :=
           match sc_updatedIndex st with
           | Some j => Some j
           | None => match findRow (rowMatches hl c k) rest with
                     | Some (n, _) => Some (i + n)%nat
                     | None => None
                     end
           end |}
  end.

(** The pages that a gather requests, latest first. *)
Definition pagesRequested (search : nat -> PageFetch) (s : Picker) : list nat :=
  match gather 6 search s with
  | Some (_, reqs) => reqs
  | None => []
  end.

(** A letter, a digit or a hyphen. *)
Definition slugUnit (c : N) : bool := isUpper c || isLower c || isDigit c || (c =? hyphen).

Section PickedName.
Context `{Platform}.

(** The name of the file of a pick, as the download target words it. *)
Definition pickedFilename (formData : FormData) : jsstring :=
  (toSlug (formField (js "city") formData) ++ [hyphen]
     ++ toSlug (formField (js "country") formData) ++ [hyphen]
     ++ sanitizeId (formField (js "imageId") formData))
  ++ [dot] ++ getFileExtensionFromUrl (formField (js "imageUrl") formData).
End PickedName.

(** ** The slug and the sanitized id, by the words of the specification

    The specification says what slugging does: it lower-cases, strips
    accents, removes the characters that are no word character, white space
    or hyphen, and collapses white space and underscores to single hyphens.
    These definitions follow its words, with the character classes written
    out; [toSlug_refines] and [sanitizeId_filter] compare them with [toSlug]
    and [sanitizeId]. *)

(** A word character: a letter of A-Z or a-z, a digit, or the underscore. *)
Definition wordCharacter (c : N) : bool :=
  ((65 <=? c) && (c <=? 90)) || ((97 <=? c) && (c <=? 122))
  || ((48 <=? c) && (c <=? 57)) || (c =? 95).

(** What slugging leaves in place: word characters, white space, hyphens. *)
Definition slugKept (c : N) : bool := wordCharacter c || isWhiteSpace c || (c =? 45).

(** What slugging collapses: white space and underscores. *)
Definition collapsed (c : N) : bool := isWhiteSpace c || (c =? 95).

(** A combining diacritical mark, U+0300 to U+036F: what the decomposition
    splits off an accented letter. *)
Definition combiningMark (c : N) : bool := (0x300 <=? c) && (c <=? 0x36F).

(** The pieces of a string between its runs of white space and underscores;
    [inRun] says that the unit before belongs to such a run. *)
Fixpoint piecesBetweenRuns (inRun : bool) (s : jsstring) : list jsstring :=
  match s with
  | [] => [[]]
  | c :: s' =>
      if collapsed c then
        if inRun then piecesBetweenRuns true s' else [] :: piecesBetweenRuns true s'
      else
        match piecesBetweenRuns false s' with
        | p :: ps => (c :: p) :: ps
        | [] => [[c]]
        end
  end.

(** The slug of a string that is lower-cased and decomposed already: what is
    kept of it, trimmed, its pieces joined by single hyphens. *)
Definition slugOfNormalized (t : jsstring) : jsstring :=
  joinWith [hyphen] (piecesBetweenRuns false (trim (List.filter slugKept t))).

(** A character of a sanitized provider id: [A-Za-z0-9_-]. *)
Definition sanitizedIdUnit (c : N) : bool := wordCharacter c || (c =? 45).

(** ** A reference platform for closed examples

    [latin1Platform] agrees with the engine on strings whose code units are
    below U+0100 and, for URLs, on absolute http and https URLs without dot
    segments or characters that the parser would escape. *)

(** Simple lower-casing of Basic Latin and Latin-1 Supplement. *)
Definition lowerLatin1 (c : N) : N :=
  if isUpper c then c + 32
  else if (0xC0 <=? c) && (c <=? 0xDE) && negb (c =? 0xD7) then c + 32
  else c.

(** Decompositions of Latin-1 Supplement: the capital letters with their
    base letter and combining mark, and the compatibility characters. *)
Definition latin1Capitals : list (N * (N * N)) :=
  [ (0xC0, (65, 0x300)); (0xC1, (65, 0x301)); (0xC2, (65, 0x302)); (0xC3, (65, 0x303));
    (0xC4, (65, 0x308)); (0xC5, (65, 0x30A)); (0xC7, (67, 0x327));
    (0xC8, (69, 0x300)); (0xC9, (69, 0x301)); (0xCA, (69, 0x302)); (0xCB, (69, 0x308));
    (0xCC, (73, 0x300)); (0xCD, (73, 0x301)); (0xCE, (73, 0x302)); (0xCF, (73, 0x308));
    (0xD1, (78, 0x303));
    (0xD2, (79, 0x300)); (0xD3, (79, 0x301)); (0xD4, (79, 0x302)); (0xD5, (79, 0x303));
    (0xD6, (79, 0x308));
    (0xD9, (85, 0x300)); (0xDA, (85, 0x301)); (0xDB, (85, 0x302)); (0xDC, (85, 0x308));
    (0xDD, (89, 0x301)) ].

Definition latin1Compatibility : list (N * jsstring) :=
  [ (0xA0, [32]); (0xA8, [32; 0x308]); (0xAA, [97]); (0xAF, [32; 0x304]);
    (0xB2, [50]); (0xB3, [51]); (0xB4, [32; 0x301]); (0xB5, [0x3BC]);
    (0xB8, [32; 0x327]); (0xB9, [49]); (0xBA, [111]);
    (0xBC, [49; 0x2044; 52]); (0xBD, [49; 0x2044; 50]); (0xBE, [51; 0x2044; 52]);
    (0xFF, [121; 0x308]) ].

Fixpoint assocN {A} (k : N) (l : list (N * A)) : option A :=
  match l with
  | [] => None
  | (k', v) :: l' => if k =? k' then Some v else assocN k l'
  end.

Definition nfkdLatin1Unit (c : N) : jsstring :=
  match assocN c latin1Compatibility with
  | Some d => d
  | None =>
      match assocN c latin1Capitals with
      | Some (b, m) => [b; m]
      | None =>
          match assocN (c - 32) latin1Capitals with
          | Some (b, m) => [b + 32; m]
          | None => [c]
          end
      end
  end.

Fixpoint startsWith (p s : jsstring) : bool :=
  match p, s with
  | [], _ => true
  | a :: p', b :: s' => (a =? b) && startsWith p' s'
  | _ :: _, [] => false
  end.

Fixpoint takeUntil (stop : N -> bool) (s : jsstring) : jsstring :=
  match s with
  | [] => []
  | c :: s' => if stop c then [] else c :: takeUntil stop s'
  end.

Fixpoint dropUntil (stop : N -> bool) (s : jsstring) : jsstring :=
  match s with
  | [] => []
  | c :: s' => if stop c then s else dropUntil stop s'
  end.

(** The path of [scheme://authority/path?query#fragment] for the schemes http
    and https; a string without such a prefix or with an empty authority is
    refused. *)
Definition httpPathname (url : jsstring) : option jsstring :=
  let afterScheme :=
    if startsWith (js "https://") url then Some (drop 8 url)
    else if startsWith (js "http://") url then Some (drop 7 url)
    else None in
  match afterScheme with
  | None => None
  | Some rest =>
      let endAuthority c := (c =? slash) || (c =? question) || (c =? 35) in
      let endPath c := (c =? question) || (c =? 35) in
      match takeUntil endAuthority rest with
      | [] => None
      | _ :: _ =>
          match takeUntil endPath (dropUntil endAuthority rest) with
          | [] => Some [slash]
          | p => Some p
          end
      end
  end.

Definition latin1Platform : Platform.
Proof.
  refine {| toLowerCase := map lowerLatin1;
            normalizeNFKD := flat_map nfkdLatin1Unit;
            URL_pathname := httpPathname |}.
  induction s as [|c s IH]; simpl; [reflexivity|].
  intros [Hc Hs]%andb_prop. rewrite (IH Hs). f_equal.
  unfold lowerLatin1, lowerAscii. destruct (isUpper c); [reflexivity|].
  unfold isAscii in Hc. apply N.ltb_lt in Hc.
  destruct (0xC0 <=? c) eqn:E; [apply N.leb_le in E; lia | reflexivity].
Defined.

(** A table written as its lines. *)
Definition tbl (ls : list string) : list jsstring := map js ls.

(** ** Data for closed examples *)

(** A result with the given id. *)
Definition hit (n : string) : PixabayHit :=
  {| id := js n; tags := []; previewURL := []; webformatURL := [];
     largeImageURL := []; imageWidth := None; imageHeight := None |}.

(** A page of eighteen results, with the ids 1 to 18. *)
Definition page18 : list PixabayHit :=
  map hit ["1"; "2"; "3"; "4"; "5"; "6"; "7"; "8"; "9"; "10"; "11"; "12"; "13"; "14";
           "15"; "16"; "17"; "18"]%string.

(** The component on page [p], with the ids [seen] shown before. *)
Definition pickerAt (p : nat) (seen : list string) : Picker :=
  {| images := []; loading := false; refreshing := false; pageNum := p;
     seenIds := list_to_set (map js seen); isPending := false |}.

(** A world with the CSV file [csv], in which every GET is answered with
    [body] and every path can be written. *)
Definition worldWith (csv body : jsstring) : World :=
  {| files := {[ csvPath := csv ]};
     network := fun _ => Some {| res_ok := true; res_status := 200;
                                 res_statusText := js "OK"; res_body := body |};
     writable := fun _ => true;
     trace := [] |}.

(** Page 1 answers, page 2 does not. *)
Definition secondPageFails (p : nat) : PageFetch :=
  match p with
  | 2%nat => NotOk
  | _ => Json (Some [hit "1"; hit "2"])
  end.

(** A form with its four fields. *)
Definition formOf (city country imageId imageUrl : jsstring) : FormData :=
  [(js "city", FormText city); (js "country", FormText country);
   (js "imageId", FormText imageId); (js "imageUrl", FormText imageUrl)].

(** * The rest of the program

    What follows embeds the code around the parts above: the checks and
    messages of the form action, the page that loads the locations
    ([page.tsx]), and what [components/ImagePicker.tsx] shows and submits. *)

(** ** actions.ts: what the form action checks and reports *)

Section FormDefs.
Context `{Platform}.

(** The four fields of the form are there. *)
Definition formComplete (formData : FormData) : Prop :=
  formField (js "city") formData <> [] /\ formField (js "country") formData <> []
  /\ formField (js "imageUrl") formData <> [] /\ formField (js "imageId") formData <> [].

(** The message of [downloadImageToPublic] for a response that is not ok. *)
Definition downloadFailure (res : Response) : jsstring :=
  js "Failed to download image: " ++ decimal (res_status res) ++ js " " ++ res_statusText res.

End FormDefs.

(** [/[a-zA-Z0-9_-]/] *)
Definition isIdUnit (c : N) : bool := isWord c || (c =? hyphen).

(** ** api/search/route.ts: the ids of the results *)

(** [String(h.id)] for the integer id of a Pixabay or Pexels result: the
    decimal digits of the number, as long as it is below 10^21. *)
Definition numericId (n : N) : jsstring := decimal n.

(** ** page.tsx: the locations handed to the picker *)

Module Page.

Record LocationRow := {
  city : jsstring;
  country : jsstring;
  type : option jsstring;        (* [None]: undefined *)
  filename : option jsstring
}.

(** [fields[idx] ? String(fields[idx]).trim() : ''], the index -1 of
    [indexOf] as [None]. *)
Definition keyField (idx : option nat) (fields : list jsstring) : jsstring :=
  match idx with
  | Some k =>
      match fields !! k with
      | Some f => if isEmpty f then [] else trim f
      | None => []
      end
  | None => []
  end.

(** [idx >= 0 ? String(fields[idx] || '').trim() : undefined] *)
Definition optionalField (idx : option nat) (fields : list jsstring) : option jsstring :=
  match idx with
  | Some k => Some (trim (default [] (fields !! k)))
  | None => None
  end.

(** One turn of the row loop: the row pushed, [None] after [continue]. *)
Definition locationOf (cityIdx countryIdx typeIdx filenameIdx : option nat) (line : jsstring)
    : option LocationRow :=
  if isBlank line then None
  else
    let fields := splitOn comma line in
    let city := keyField cityIdx fields in
    let country := keyField countryIdx fields in
    if isEmpty city || isEmpty country then None
    else Some {| city := city; country := country;
                 type := optionalField typeIdx fields;
                 filename := optionalField filenameIdx fields |}.

(** [!l.filename] *)
Definition noFilename (l : LocationRow) : bool :=
  match filename l with
  | Some f => isEmpty f
  | None => true
  end.

Section Load.
Context `{Platform}.

Notation "x <- m ;; k" := (bindIO m (fun x => k))
  (at level 100, m at next level, right associativity).

(** [loadLocations] after the read, on the array [lines]. *)
Definition loadRows (lines : list jsstring) : list LocationRow :=
  match lines with
  | [] | [_] => []
  | line0 :: rest =>
      let header := map (fun h => toLowerCase (trim h)) (splitOn comma line0) in
      omap (locationOf (indexOf (js "city") header) (indexOf (js "country") header)
              (indexOf (js "type") header) (indexOf (js "filename") header)) rest
  end.

Definition loadLocations : IO (list LocationRow) :=
  text <- readFile csvPath ;;
  ret (loadRows (splitLines text)).

(** [Home], as the list [incomplete] that it hands to [ImagePicker]. *)
Definition Home : IO (list LocationRow) :=
  locations <- loadLocations ;;
  ret (List.filter noFilename locations).

End Load.
End Page.

(** ** components/ImagePicker.tsx: the location shown *)

Definition upperAscii (c : N) : N := if isLower c then c - 32 else c.

(** [toUpperCase] reads the Unicode tables of the engine, as [toLowerCase]
    does; the only law asked of it is what it does to ASCII. *)
Class UpperCase := {
  toUpperCase : jsstring -> jsstring;
  toUpperCase_ascii :
    forall s, forallb isAscii s = true -> toUpperCase s = map upperAscii s
}.

(** [Array.from({ length: 26 }, (_, i) => String.fromCharCode(65 + i))] *)
Definition letters : list jsstring := map (fun i => [65 + N.of_nat i]) (seq 0 26).

(** [`${city} ${country}`.trim()], the empty string without a location. *)
Definition query (selectedLocation : option Page.LocationRow) : jsstring :=
  match selectedLocation with
  | Some l => trim (Page.city l ++ js " " ++ Page.country l)
  | None => []
  end.

(** What the component renders. *)
Inductive View :=
  | NoCountriesMatch
  | AllComplete
  | Picking (selectedLocation : Page.LocationRow).

(** The form that [handlePick] submits, [None] when it returns at once.  The
    id of a result is a string already, [String(img.id)] is that string. *)
Definition handlePick (selectedLocation : option Page.LocationRow) (isPending : bool)
    (img : PixabayHit) : option FormData :=
  match selectedLocation with
  | Some l =>
      if isPending then None
      else Some [ (js "city", FormText (Page.city l));
                  (js "country", FormText (Page.country l));
                  (js "imageId", FormText (id img));
                  (js "imageUrl",
                   FormText (if isEmpty (largeImageURL img) then webformatURL img
                             else largeImageURL img)) ]
  | None => None
  end.

Section Shown.
Context `{UpperCase}.

(** [for (const loc of locations)] of [availableLetters] *)
Definition availableLetters (locations : list Page.LocationRow) : gset jsstring :=
  foldl (fun set loc =>
           let c := trim (Page.country loc) in
           if isEmpty c then set else set ∪ {[ toUpperCase (take 1 c) ]})
        ∅ locations.

Definition filteredLocations (startLetter : option jsstring)
    (locations : list Page.LocationRow) : list Page.LocationRow :=
  match startLetter with
  | None => locations
  | Some s =>
      if isEmpty s then locations
      else
        let letter := toUpperCase s in
        List.filter (fun l => startsWith letter (toUpperCase (trim (Page.country l))))
          locations
  end.

Definition selectedLocation (startLetter : option jsstring) (locationIndex : nat)
    (locations : list Page.LocationRow) : option Page.LocationRow :=
  filteredLocations startLetter locations !! locationIndex.

(** The three returns of the component. *)
Definition view (startLetter : option jsstring) (locationIndex : nat)
    (locations : list Page.LocationRow) : View :=
  match selectedLocation startLetter locationIndex locations with
  | None =>
      if (0 <? length locations)%nat
         && (length (filteredLocations startLetter locations) =? 0)%nat
      then NoCountriesMatch
      else AllComplete
  | Some l => Picking l
  end.

End Shown.

(** Upper-casing of Basic Latin and Latin-1 Supplement, for closed examples. *)
Definition upperLatin1Unit (c : N) : jsstring :=
  if isLower c then [c - 32]
  else if c =? 0xDF then [83; 83]
  else if c =? 0xB5 then [0x39C]
  else if c =? 0xFF then [0x178]
  else if (0xE0 <=? c) && (c <=? 0xFE) && negb (c =? 0xF7) then [c - 32]
  else [c].

Definition latin1UpperCase : UpperCase.
Proof.
  refine {| toUpperCase := flat_map upperLatin1Unit |}.
  induction s as [|c s IH]; simpl; [reflexivity|].
  intros [Hc Hs]%andb_prop. rewrite (IH Hs).
  unfold upperLatin1Unit, upperAscii. destruct (isLower c); [reflexivity|].
  unfold isAscii in Hc. apply N.ltb_lt in Hc.
  destruct (N.eqb_spec c 0xDF); [lia|]. destruct (N.eqb_spec c 0xB5); [lia|].
  destruct (N.eqb_spec c 0xFF); [lia|].
  destruct (0xE0 <=? c) eqn:E; [apply N.leb_le in E; lia | reflexivity].
Defined.

(** A location without type, with the given filename field. *)
Definition location (city country : string) (filename : option string) : Page.LocationRow :=
  {| Page.city := js city; Page.country := js country; Page.type := None;
     Page.filename := js <$> filename |}.

(** ** More data for closed examples *)

(** A form for Rome, Italy with the id [imageId] and the URL of a JPEG. *)
Definition romeForm (imageId : string) : FormData :=
  formOf (js "Rome") (js "Italy") (js imageId) (js "https://example.com/a/rome.JPG?w=1").

(** A world with the CSV file [csv], if there is one, in which every GET is
    answered with [res] and every path can be written. *)
Definition worldAnswering (res : Response) (csv : option jsstring) : World :=
  {| files := match csv with Some text => {[ csvPath := text ]} | None => ∅ end;
     network := fun _ => Some res;
     writable := fun _ => true;
     trace := [] |}.

Definition notFound : Response :=
  {| res_ok := false; res_status := 404; res_statusText := js "Not Found"; res_body := [] |}.

Definition imageResponse : Response :=
  {| res_ok := true; res_status := 200; res_statusText := js "OK"; res_body := js "image" |}.

(** * Properties *)

(** ** Splitting and joining *)

Lemma splitOn_cons (sep : N) (s : jsstring) :
  exists p ps, splitOn sep s = p :: ps.
Proof.
  destruct s as [|c s]; simpl; [eauto|].
  destruct (c =? sep); [eauto|]. destruct (splitOn sep s); eauto.
Qed.

Lemma splitOn_length (sep : N) (s : jsstring) : (1 <= length (splitOn sep s))%nat.
Proof. destruct (splitOn_cons sep s) as (p & ps & ->). simpl. lia. Qed.

Lemma splitOn_no_sep (sep : N) (s : jsstring) :
  Forall (fun p => sep ∉ p) (splitOn sep s).
Proof.
  induction s as [|c s IH]; simpl.
  - repeat constructor. apply not_elem_of_nil.
  - destruct (N.eqb_spec c sep) as [->|Hne].
    + constructor; [apply not_elem_of_nil | exact IH].
    + destruct (splitOn sep s) as [|p ps].
      * repeat constructor. rewrite list_elem_of_singleton. congruence.
      * inversion IH; subst. constructor; [|assumption].
        rewrite not_elem_of_cons. split; [congruence | assumption].
Qed.

Lemma splitOn_nosep (sep : N) (p : jsstring) : sep ∉ p -> splitOn sep p = [p].
Proof.
  induction p as [|c p IH]; simpl; [reflexivity|].
  rewrite not_elem_of_cons. intros [Hc Hp].
  destruct (N.eqb_spec c sep); [congruence|]. rewrite (IH Hp). reflexivity.
Qed.

Lemma splitOn_app (sep : N) (p s : jsstring) :
  sep ∉ p -> splitOn sep (p ++ sep :: s) = p :: splitOn sep s.
Proof.
  induction p as [|c p IH]; simpl.
  - intros _. rewrite N.eqb_refl. reflexivity.
  - rewrite not_elem_of_cons. intros [Hc Hp].
    destruct (N.eqb_spec c sep); [congruence|]. rewrite (IH Hp). reflexivity.
Qed.

Lemma splitOn_join (sep : N) (fields : list jsstring) :
  fields <> [] -> Forall (fun f => sep ∉ f) fields ->
  splitOn sep (joinWith [sep] fields) = fields.
Proof.
  induction fields as [|f fields IH]; [congruence|]. intros _ Hall.
  inversion Hall as [|? ? Hf Hrest]; subst.
  destruct fields as [|g fields].
  - simpl. apply splitOn_nosep, Hf.
  - change (joinWith [sep] (f :: g :: fields))
      with (f ++ sep :: joinWith [sep] (g :: fields)).
    rewrite splitOn_app by exact Hf.
    rewrite IH; [reflexivity | discriminate | exact Hrest].
Qed.

Lemma join_splitOn (sep : N) (s : jsstring) : joinWith [sep] (splitOn sep s) = s.
Proof.
  induction s as [|c s IH]; simpl; [reflexivity|].
  destruct (N.eqb_spec c sep) as [->|Hne].
  - destruct (splitOn_cons sep s) as (p & ps & E). rewrite E in *.
    change (joinWith [sep] ([] :: p :: ps)) with ([] ++ [sep] ++ joinWith [sep] (p :: ps)).
    simpl. f_equal. exact IH.
  - destruct (splitOn_cons sep s) as (p & ps & E). rewrite E in *.
    destruct ps as [|q ps]; simpl in *; f_equal; exact IH.
Qed.


Lemma joinWith_not_elem (x sep : N) (fields : list jsstring) :
  x <> sep -> Forall (fun f => x ∉ f) fields -> x ∉ joinWith [sep] fields.
Proof.
  intros Hne. induction fields as [|f fields IH]; intros Hall.
  - apply not_elem_of_nil.
  - inversion Hall as [|? ? Hf Hrest]; subst. destruct fields as [|g fields]; [exact Hf|].
    change (joinWith [sep] (f :: g :: fields)) with (f ++ sep :: joinWith [sep] (g :: fields)).
    rewrite not_elem_of_app, not_elem_of_cons. auto.
Qed.

Lemma splitOn_not_elem (x sep : N) (s : jsstring) :
  x ∉ s -> Forall (fun p => x ∉ p) (splitOn sep s).
Proof.
  induction s as [|c s IH]; simpl.
  - intros _. repeat constructor. apply not_elem_of_nil.
  - rewrite not_elem_of_cons. intros [Hc Hs]. specialize (IH Hs).
    destruct (c =? sep).
    + constructor; [apply not_elem_of_nil | exact IH].
    + destruct (splitOn sep s) as [|p ps].
      * repeat constructor. rewrite list_elem_of_singleton. exact Hc.
      * inversion IH; subst. constructor; [|assumption].
        rewrite not_elem_of_cons. auto.
Qed.

Lemma splitLines_cons (s : jsstring) : exists p ps, splitLines s = p :: ps.
Proof.
  destruct s as [|c s]; simpl; [eauto|].
  destruct (c =? LF); [eauto|].
  destruct s as [|d s]; [destruct (splitLines []); eauto|].
  destruct ((c =? CR) && (d =? LF)); [eauto|].
  destruct (splitLines (d :: s)); eauto.
Qed.

Lemma splitLines_nosep (p : jsstring) : LF ∉ p -> splitLines p = [p].
Proof.
  induction p as [|c p IH]; [reflexivity|].
  rewrite not_elem_of_cons. intros [Hc Hp].
  cbn [splitLines]. destruct (N.eqb_spec c LF); [congruence|].
  rewrite (IH Hp). destruct p as [|d p]; [reflexivity|].
  apply not_elem_of_cons in Hp as [Hd _].
  destruct (N.eqb_spec d LF); [congruence|]. rewrite andb_false_r. reflexivity.
Qed.

Lemma splitLines_app (p s : jsstring) :
  LF ∉ p -> CR ∉ p -> splitLines (p ++ LF :: s) = p :: splitLines s.
Proof.
  induction p as [|c p IH].
  - intros _ _. reflexivity.
  - rewrite !not_elem_of_cons. intros [Hc Hp] [Hr Hpr].
    change ((c :: p) ++ LF :: s) with (c :: (p ++ LF :: s)).
    cbn [splitLines]. destruct (N.eqb_spec c LF); [congruence|].
    rewrite (IH Hp Hpr).
    destruct (N.eqb_spec c CR); [congruence|]. simpl.
    destruct (p ++ LF :: s); reflexivity.
Qed.

Lemma splitLines_join (lines : list jsstring) :
  lines <> [] -> Forall (fun l => (LF ∉ l) /\ (CR ∉ l)) lines ->
  splitLines (joinWith [LF] lines) = lines.
Proof.
  induction lines as [|l lines IH]; [congruence|]. intros _ Hall.
  inversion Hall as [|? ? [Hl Hr] Hrest]; subst.
  destruct lines as [|g lines].
  - simpl. apply splitLines_nosep, Hl.
  - change (joinWith [LF] (l :: g :: lines))
      with (l ++ LF :: joinWith [LF] (g :: lines)).
    rewrite splitLines_app by assumption.
    rewrite IH; [reflexivity | discriminate | exact Hrest].
Qed.

Lemma splitLines_no_LF (s : jsstring) : Forall (fun l => LF ∉ l) (splitLines s).
Proof.
  assert (H : forall n s, (length s <= n)%nat -> Forall (fun l => LF ∉ l) (splitLines s)).
  { clear s. induction n as [|n IH]; intros s Hn.
    - destruct s; [|simpl in Hn; lia]. repeat constructor. apply not_elem_of_nil.
    - destruct s as [|c s]; [repeat constructor; apply not_elem_of_nil|].
      simpl in Hn. cbn [splitLines].
      destruct (N.eqb_spec c LF) as [->|Hc].
      + constructor; [apply not_elem_of_nil | apply IH; lia].
      + assert (Hkeep : Forall (fun l => LF ∉ l)
                  match splitLines s with
                  | piece :: pieces => (c :: piece) :: pieces
                  | [] => [[c]]
                  end).
        { assert (Hs : Forall (fun l => LF ∉ l) (splitLines s)) by (apply IH; lia).
          destruct (splitLines s) as [|p ps].
          - repeat constructor. rewrite list_elem_of_singleton. congruence.
          - inversion Hs; subst. constructor; [|assumption].
            rewrite not_elem_of_cons. split; [congruence | assumption]. }
        destruct s as [|d s]; [exact Hkeep|].
        destruct ((c =? CR) && (d =? LF)); [|exact Hkeep].
        constructor; [apply not_elem_of_nil | apply IH; simpl in Hn; lia]. }
  apply (H (length s)). lia.
Qed.

(** ** Trimming *)

Lemma trimStart_nil_iff (s : jsstring) :
  trimStart s = [] <-> forallb isWhiteSpace s = true.
Proof.
  induction s as [|c s IH]; simpl; [tauto|].
  destruct (isWhiteSpace c); simpl; [exact IH|]. split; discriminate.
Qed.

Lemma trimStart_head (s : jsstring) (c : N) (t : jsstring) :
  trimStart s = c :: t -> isWhiteSpace c = false.
Proof.
  induction s as [|d s IH]; simpl; [discriminate|].
  destruct (isWhiteSpace d) eqn:E; [exact IH|]. intros [= <- _]. exact E.
Qed.

Lemma forallb_reverse (p : N -> bool) (s : jsstring) :
  forallb p (reverse s) = forallb p s.
Proof.
  induction s as [|c s IH]; [reflexivity|].
  rewrite reverse_cons, forallb_app, IH. simpl. rewrite andb_true_r. apply andb_comm.
Qed.

Lemma trim_nil_iff (s : jsstring) : trim s = [] <-> forallb isWhiteSpace s = true.
Proof.
  unfold trim, trimEnd. split.
  - intros E. apply (f_equal reverse) in E. rewrite reverse_involutive in E.
    change (reverse []) with (@nil N) in E.
    apply trimStart_nil_iff in E. rewrite forallb_reverse in E.
    destruct (trimStart s) as [|c t] eqn:Es.
    + apply trimStart_nil_iff, Es.
    + apply trimStart_head in Es. simpl in E. rewrite Es in E. discriminate.
  - intros E. apply trimStart_nil_iff in E. rewrite E. reflexivity.
Qed.

Lemma isBlank_false_elem (s : jsstring) (c : N) :
  c ∈ s -> isWhiteSpace c = false -> isBlank s = false.
Proof.
  intros Hin Hc. unfold isBlank. apply bool_decide_eq_false. intros E.
  apply trim_nil_iff in E. rewrite forallb_forall in E.
  apply list_elem_of_In in Hin. rewrite (E _ Hin) in Hc. discriminate.
Qed.

Lemma trimStart_elem (c : N) (s : jsstring) : c ∈ trimStart s -> c ∈ s.
Proof.
  induction s as [|d s IH]; simpl; [auto|].
  destruct (isWhiteSpace d); [|auto]. intros Hc. right. apply IH, Hc.
Qed.

Lemma trim_elem (c : N) (s : jsstring) : c ∈ trim s -> c ∈ s.
Proof.
  unfold trim, trimEnd. intros Hc. rewrite elem_of_reverse in Hc.
  apply trimStart_elem in Hc. rewrite elem_of_reverse in Hc. apply trimStart_elem, Hc.
Qed.

Lemma trimStart_suffix (s : jsstring) : exists pre, s = pre ++ trimStart s.
Proof.
  induction s as [|c s [pre IH]]; simpl; [exists []; reflexivity|].
  destruct (isWhiteSpace c).
  - exists (c :: pre). simpl. f_equal. exact IH.
  - exists []. reflexivity.
Qed.

Lemma trimStart_fixed (c : N) (s : jsstring) :
  isWhiteSpace c = false -> trimStart (c :: s) = c :: s.
Proof. intros Hc. simpl. rewrite Hc. reflexivity. Qed.

Lemma trimStart_idem (s : jsstring) : trimStart (trimStart s) = trimStart s.
Proof.
  destruct (trimStart s) as [|c t] eqn:E; [reflexivity|].
  apply trimStart_fixed, (trimStart_head _ _ _ E).
Qed.

Lemma trim_head (s : jsstring) (c : N) (t : jsstring) :
  trim s = c :: t -> isWhiteSpace c = false.
Proof.
  unfold trim, trimEnd. intros E.
  destruct (trimStart_suffix (reverse (trimStart s))) as [pre Hpre].
  apply (f_equal reverse) in Hpre. rewrite reverse_involutive, reverse_app, E in Hpre.
  simpl in Hpre. apply (trimStart_head _ _ _ Hpre).
Qed.

Lemma trim_last (s t : jsstring) (d : N) :
  trim s = t ++ [d] -> isWhiteSpace d = false.
Proof.
  unfold trim, trimEnd. intros E. apply (f_equal reverse) in E.
  rewrite reverse_involutive, reverse_app in E. simpl in E.
  apply (trimStart_head _ _ _ E).
Qed.

Lemma trim_fixed (c d : N) (s : jsstring) :
  isWhiteSpace c = false -> isWhiteSpace d = false ->
  trim (c :: s ++ [d]) = c :: s ++ [d].
Proof.
  intros Hc Hd. unfold trim, trimEnd. rewrite (trimStart_fixed _ _ Hc).
  change (c :: s ++ [d]) with ((c :: s) ++ [d]).
  rewrite reverse_app. change (reverse [d] ++ reverse (c :: s)) with (d :: reverse (c :: s)).
  rewrite (trimStart_fixed _ _ Hd), reverse_cons, reverse_involutive. reflexivity.
Qed.

Lemma trim_one (c : N) : isWhiteSpace c = false -> trim [c] = [c].
Proof. intros Hc. unfold trim, trimEnd. simpl. rewrite Hc. simpl. rewrite Hc. reflexivity. Qed.

Lemma ends_cases (s : jsstring) :
  s = [] \/ (exists c, s = [c]) \/ exists c t d, s = c :: t ++ [d].
Proof.
  destruct s as [|c s]; [left; reflexivity|]. right.
  destruct (decide (s = [])) as [->|Hs]; [left; eauto|]. right.
  destruct (exists_last Hs) as (t & d & ->). eauto.
Qed.

Lemma trim_idem (s : jsstring) : trim (trim s) = trim s.
Proof.
  destruct (ends_cases (trim s)) as [E | [[c E] | (c & t & d & E)]].
  - rewrite E. reflexivity.
  - rewrite E. apply trim_one, (trim_head s c []), E.
  - rewrite E. apply trim_fixed.
    + apply (trim_head s c (t ++ [d])), E.
    + apply (trim_last s (c :: t) d), E.
Qed.

(** A trimmed, non-empty string begins and ends with a unit that is no
    white space. *)
Lemma trimmed_ends (s : jsstring) :
  trim s = s -> s <> [] ->
  exists c t, s = c :: t /\ isWhiteSpace c = false
              /\ exists t' d, s = t' ++ [d] /\ isWhiteSpace d = false.
Proof.
  intros Ht Hs. destruct s as [|c t]; [congruence|].
  exists c, t. split; [reflexivity|]. split; [apply (trim_head (c :: t) c t), Ht|].
  destruct (exists_last Hs) as (t' & d & E). exists t', d. split; [exact E|].
  apply (trim_last (c :: t) t' d). rewrite Ht. exact E.
Qed.

(** ** Fields of a row *)


Lemma length_padTo (n : nat) (fields : list jsstring) :
  length (padTo n fields) = (length fields `max` n)%nat.
Proof. unfold padTo. rewrite length_app, length_replicate. lia. Qed.

Lemma padTo_ge (n : nat) (fields : list jsstring) :
  (n <= length fields)%nat -> padTo n fields = fields.
Proof.
  intros Hn. unfold padTo. replace (n - length fields)%nat with 0%nat by lia.
  apply app_nil_r.
Qed.

Lemma Forall_padTo (P : jsstring -> Prop) (n : nat) (fields : list jsstring) :
  P [] -> Forall P fields -> Forall P (padTo n fields).
Proof.
  intros Hnil Hall. unfold padTo. apply Forall_app. split; [exact Hall|].
  apply Forall_replicate. exact Hnil.
Qed.

Lemma length_rowFields (hl : nat) (raw : jsstring) : (hl <= length (rowFields hl raw))%nat.
Proof. unfold rowFields. rewrite length_padTo. lia. Qed.

Lemma rowFields_lookup (hl i : nat) (raw : jsstring) :
  (i < hl)%nat -> exists f, rowFields hl raw !! i = Some f.
Proof.
  intros Hi. apply lookup_lt_is_Some_2. pose proof (length_rowFields hl raw). lia.
Qed.

Lemma rowFields_no_comma (hl : nat) (raw : jsstring) :
  Forall (fun f => comma ∉ f) (rowFields hl raw).
Proof.
  apply Forall_padTo; [apply not_elem_of_nil | apply splitOn_no_sep].
Qed.

Lemma rowFields_not_elem (x : N) (hl : nat) (raw : jsstring) :
  x ∉ raw -> Forall (fun f => x ∉ f) (rowFields hl raw).
Proof.
  intros Hx. apply Forall_padTo; [apply not_elem_of_nil | apply splitOn_not_elem, Hx].
Qed.

Lemma arraySet_lt (i : nat) (x : jsstring) (a : list jsstring) :
  (i < length a)%nat -> arraySet i x a = <[i := x]> a.
Proof.
  intros Hi. unfold arraySet. destruct (Nat.ltb_spec i (length a)); [reflexivity | lia].
Qed.

Lemma withFilename_not_elem (x : N) (hl fi : nat) (f raw : jsstring) :
  x <> comma -> x ∉ raw -> x ∉ f -> x ∉ withFilename hl fi f raw.
Proof.
  intros Hne Hraw Hf. apply joinWith_not_elem; [exact Hne|].
  apply Forall_insert; [apply rowFields_not_elem, Hraw | exact Hf].
Qed.

Lemma stringify_two_fields_not_blank (fields : list jsstring) :
  (2 <= length fields)%nat -> isBlank (stringifyCsvLine fields) = false.
Proof.
  intros Hlen. apply (isBlank_false_elem _ comma); [|reflexivity].
  destruct fields as [|a [|b l]]; [simpl in Hlen; lia | simpl in Hlen; lia |].
  change (stringifyCsvLine (a :: b :: l)) with (a ++ comma :: stringifyCsvLine (b :: l)).
  apply elem_of_app. right. left.
Qed.

Lemma rowFields_stringify (hl : nat) (fields : list jsstring) :
  (1 <= length fields)%nat -> (hl <= length fields)%nat ->
  Forall (fun f => comma ∉ f) fields ->
  rowFields hl (stringifyCsvLine fields) = fields.
Proof.
  intros H1 Hhl Hall. unfold rowFields, parseCsvLine, stringifyCsvLine.
  rewrite splitOn_join; [apply padTo_ge, Hhl | | exact Hall].
  destruct fields; [simpl in H1; lia | discriminate].
Qed.

Lemma rowMatches_true (hl : nat) (c k raw : jsstring) :
  rowMatches hl c k raw = true <->
  isBlank raw = false /\
  exists f0 f1, rowFields hl raw !! 0%nat = Some f0 /\ rowFields hl raw !! 1%nat = Some f1
                /\ trim f0 = c /\ trim f1 = k.
Proof.
  unfold rowMatches. split.
  - intros [Hb Hm]%andb_prop. apply negb_true_iff in Hb. split; [exact Hb|].
    destruct (rowFields hl raw !! 0%nat) as [f0|]; [|discriminate].
    destruct (rowFields hl raw !! 1%nat) as [f1|]; [|discriminate].
    apply andb_prop in Hm as [H0 H1].
    apply bool_decide_eq_true in H0, H1. exists f0, f1. auto.
  - intros (Hb & f0 & f1 & E0 & E1 & H0 & H1). rewrite Hb, E0, E1.
    rewrite !bool_decide_eq_true_2 by assumption. reflexivity.
Qed.

Lemma newRowFields_spec (hl fi : nat) (c k f : jsstring) :
  (2 <= fi)%nat -> (fi < hl)%nat ->
  length (newRowFields hl fi c k f) = hl /\
  newRowFields hl fi c k f !! 0%nat = Some c /\
  newRowFields hl fi c k f !! 1%nat = Some k /\
  newRowFields hl fi c k f !! fi = Some f /\
  (forall j, (2 <= j < hl)%nat -> j <> fi -> newRowFields hl fi c k f !! j = Some []).
Proof.
  intros H2 Hlt. unfold newRowFields.
  assert (Hlen : length ([c; k; []] ++ replicate (hl - 3) ([] : jsstring)) = hl).
  { rewrite length_app, length_replicate. simpl. lia. }
  repeat split.
  - rewrite length_insert. exact Hlen.
  - rewrite list_lookup_insert_ne by lia. reflexivity.
  - rewrite list_lookup_insert_ne by lia. reflexivity.
  - apply list_lookup_insert_eq. lia.
  - intros j Hj Hne. rewrite list_lookup_insert_ne by congruence.
    destruct j as [|[|[|j]]]; [lia | lia | reflexivity |].
    change ([c; k; []] ++ replicate (hl - 3) []) with (c :: k :: [] :: replicate (hl - 3) ([] : jsstring)).
    simpl. apply lookup_replicate_2. lia.
Qed.

Lemma length_newRowFields (hl fi : nat) (c k f : jsstring) :
  length (newRowFields hl fi c k f) = (3 `max` hl)%nat.
Proof.
  unfold newRowFields. rewrite length_insert, length_app, length_replicate. simpl. lia.
Qed.

(** ** The row loop against the decision table *)

Lemma findRow_Some (p : jsstring -> bool) (rows : list jsstring) (i : nat) (raw : jsstring) :
  findRow p rows = Some (i, raw) <->
  rows !! i = Some raw /\ p raw = true /\
  (forall j r, (j < i)%nat -> rows !! j = Some r -> p r = false).
Proof.
  revert i. induction rows as [|r0 rows IH]; intros i; simpl.
  - split; [discriminate | intros [E _]; discriminate].
  - destruct (p r0) eqn:E0.
    + split.
      * intros [= <- <-]. repeat split; [exact E0|]. intros j r Hj. lia.
      * intros (Hl & Hp & Hmin). destruct i as [|i].
        -- simpl in Hl. congruence.
        -- specialize (Hmin 0%nat r0 ltac:(lia) eq_refl). congruence.
    + destruct (findRow p rows) as [[n x]|] eqn:Ef.
      * split.
        -- intros [= <- <-]. destruct (proj1 (IH n) eq_refl) as (Hl & Hp & Hmin).
           repeat split; [exact Hl | exact Hp |].
           intros [|j] r Hj; simpl; [congruence|]. apply Hmin. lia.
        -- intros (Hl & Hp & Hmin). destruct i as [|i]; simpl in Hl; [congruence|].
           assert (E : Some (n, x) = Some (i, raw)).
           { apply IH. repeat split; [exact Hl | exact Hp|].
             intros j r Hj Hr. apply (Hmin (S j) r); [lia | exact Hr]. }
           congruence.
      * split; [discriminate|]. intros (Hl & Hp & Hmin).
        destruct i as [|i]; simpl in Hl; [congruence|].
        assert (E : None = Some (i, raw)); [|discriminate].
        apply IH. repeat split; [exact Hl | exact Hp|].
        intros j r Hj Hr. apply (Hmin (S j) r); [lia | exact Hr].
Qed.

Lemma findRow_None (p : jsstring -> bool) (rows : list jsstring) :
  findRow p rows = None <-> (forall r, r ∈ rows -> p r = false).
Proof.
  induction rows as [|r0 rows IH]; simpl.
  - split; [intros _ r Hr; inversion Hr | reflexivity].
  - destruct (p r0) eqn:E0.
    + split; [discriminate|]. intros Hall. rewrite Hall in E0 by left. discriminate.
    + destruct (findRow p rows) as [[n x]|].
      * split; [discriminate|]. intros Hall.
        assert (E : Some (n, x) = None); [|discriminate].
        apply IH. intros r Hr. apply Hall. right. exact Hr.
      * split; [|reflexivity]. intros _ r Hr. apply elem_of_cons in Hr as [->|Hr].
        -- exact E0.
        -- apply (proj1 IH eq_refl r Hr).
Qed.

Lemma scanRows_cons (hl fi : nat) (c k f : jsstring) (i : nat) (raw : jsstring)
    (rest : list jsstring) (st : ScanState) :
  scanRows hl fi c k f i (raw :: rest) st =
  if isBlank raw then scanRows hl fi c k f (S i) rest st
  else
    match rowFields hl raw !! 0%nat, rowFields hl raw !! 1%nat with
    | Some f0, Some f1 =>
        if bool_decide (trim f0 = c) && bool_decide (trim f1 = k) then
          if negb (sc_updated st) && fieldEmpty (rowFields hl raw !! fi) then
            Ok {| sc_lines :=
                    <[i := stringifyCsvLine (arraySet fi f (rowFields hl raw))]> (sc_lines st);
                  sc_updated := true; sc_updatedIndex := Some i |}
          else scanRows hl fi c k f (S i) rest (noteFirstMatch i st)
        else scanRows hl fi c k f (S i) rest st
    | _, _ => Throw typeErrorTrim
    end.
Proof. reflexivity. Qed.

Lemma scanRows_spec (hl fi : nat) (c k f : jsstring) :
  (2 <= hl)%nat -> (fi < hl)%nat ->
  forall rest i st, sc_updated st = false ->
  scanRows hl fi c k f i rest st = Ok (scanOutcome hl fi c k f i rest st).
Proof.
  intros Hhl Hfi. induction rest as [|raw rest IH]; intros i st Hst.
  - unfold scanOutcome. simpl. destruct st as [ls u ui]. simpl in *. subst u.
    destruct ui; reflexivity.
  - rewrite scanRows_cons. unfold scanOutcome. simpl findRow.
    unfold rowMatches at 1 3.
    destruct (isBlank raw) eqn:Eb; simpl negb; cbn [andb].
    { rewrite IH by exact Hst. unfold scanOutcome.
      destruct (findRow _ rest) as [[n x]|].
      - replace (S i + n)%nat with (i + S n)%nat by lia. reflexivity.
      - destruct (sc_updatedIndex st); [reflexivity|].
        destruct (findRow (rowMatches hl c k) rest) as [[n x]|]; [|reflexivity].
        replace (S i + n)%nat with (i + S n)%nat by lia. reflexivity. }
    destruct (rowFields_lookup hl 0 raw ltac:(lia)) as [f0 E0].
    destruct (rowFields_lookup hl 1 raw ltac:(lia)) as [f1 E1].
    rewrite E0, E1.
    destruct (bool_decide (trim f0 = c) && bool_decide (trim f1 = k)) eqn:Em; cbn [andb].
    + rewrite Hst. cbn [negb andb]. unfold rowLacksFilename at 1.
      destruct (fieldEmpty (rowFields hl raw !! fi)) eqn:Ee.
      * rewrite Nat.add_0_r. unfold withFilename.
        rewrite arraySet_lt by (pose proof (length_rowFields hl raw); lia). reflexivity.
      * rewrite IH by (unfold noteFirstMatch; destruct (sc_updatedIndex st); simpl; assumption).
        unfold scanOutcome.
        destruct (findRow _ rest) as [[n x]|].
        -- replace (S i + n)%nat with (i + S n)%nat by lia.
           unfold noteFirstMatch. destruct (sc_updatedIndex st); reflexivity.
        -- unfold noteFirstMatch. rewrite Nat.add_0_r.
           destruct (sc_updatedIndex st) eqn:Eu;
             cbn [sc_lines sc_updated sc_updatedIndex]; rewrite ?Eu; reflexivity.
    + rewrite IH by exact Hst. unfold scanOutcome.
      destruct (findRow _ rest) as [[n x]|].
      * replace (S i + n)%nat with (i + S n)%nat by lia. reflexivity.
      * destruct (sc_updatedIndex st); [reflexivity|].
        destruct (findRow (rowMatches hl c k) rest) as [[n x]|]; [|reflexivity].
        replace (S i + n)%nat with (i + S n)%nat by lia. reflexivity.
Qed.

(** ** The header *)

Lemma indexOf_Some (x : jsstring) (l : list jsstring) (k : nat) :
  indexOf x l = Some k ->
  l !! k = Some x /\ (forall j y, (j < k)%nat -> l !! j = Some y -> y <> x).
Proof.
  revert k. induction l as [|y l IH]; intros k; simpl; [discriminate|].
  destruct (bool_decide_reflect (y = x)) as [->|Hne].
  - intros [= <-]. split; [reflexivity|]. intros j z Hj. lia.
  - destruct (indexOf x l) as [n|]; [|discriminate]. intros [= <-].
    destruct (IH n eq_refl) as [Hl Hmin]. split; [exact Hl|].
    intros [|j] z Hj; simpl; [congruence|]. apply Hmin. lia.
Qed.

Lemma indexOf_None (x : jsstring) (l : list jsstring) :
  indexOf x l = None -> x ∉ l.
Proof.
  induction l as [|y l IH]; simpl; [intros _; apply not_elem_of_nil|].
  destruct (bool_decide_reflect (y = x)) as [->|Hne]; [discriminate|].
  destruct (indexOf x l); [discriminate|]. intros _.
  rewrite not_elem_of_cons. split; [congruence | apply IH; reflexivity].
Qed.

Lemma indexOf_app_None (x : jsstring) (l : list jsstring) :
  indexOf x l = None -> indexOf x (l ++ [x]) = Some (length l).
Proof.
  induction l as [|y l IH]; simpl.
  - intros _. rewrite bool_decide_eq_true_2 by reflexivity. reflexivity.
  - destruct (bool_decide (y = x)); [discriminate|].
    destruct (indexOf x l); [discriminate|]. intros _. rewrite IH by reflexivity.
    reflexivity.
Qed.

Lemma filename_not_elem (x : N) : isAscii x = false \/ isWhiteSpace x = true \/ x = comma ->
  x ∉ js "filename".
Proof.
  intros Hx Hin. vm_compute in Hin.
  repeat (apply elem_of_cons in Hin as [->|Hin];
          [destruct Hx as [Hx|[Hx|Hx]]; vm_compute in Hx; discriminate|]).
  inversion Hin.
Qed.

Section Header.
Context `{Platform}.

Lemma length_normalizeHeader (header : list jsstring) :
  length (normalizeHeader header) = length header.
Proof. apply length_map. Qed.

Lemma headerWithFilename_lt (line0 : jsstring) (header : list jsstring) (fi : nat) :
  headerWithFilename line0 = (header, fi) -> (fi < length header)%nat.
Proof.
  unfold headerWithFilename.
  destruct (indexOf _ _) as [k|] eqn:E; intros [= <- <-].
  - apply indexOf_Some in E as [E _]. apply lookup_lt_Some in E.
    rewrite length_normalizeHeader in E. exact E.
  - rewrite length_app. simpl. lia.
Qed.

Lemma cityCountryFirst_header (line0 : jsstring) (header : list jsstring) (fi : nat) :
  cityCountryFirst line0 -> headerWithFilename line0 = (header, fi) ->
  (2 <= fi)%nat /\ (3 <= length header)%nat.
Proof.
  intros Hcc Hh. pose proof (headerWithFilename_lt _ _ _ Hh) as Hlt.
  cut (2 <= fi)%nat; [lia|].
  unfold cityCountryFirst in Hcc. unfold headerWithFilename in Hh.
  assert (Hlen : (2 <= length (parseCsvLine line0))%nat).
  { rewrite <- length_normalizeHeader.
    apply (f_equal length) in Hcc. rewrite length_take in Hcc.
    cbn [length] in Hcc. lia. }
  destruct (indexOf _ _) as [k|] eqn:E; injection Hh as <- <-; [|exact Hlen].
  apply indexOf_Some in E as [E _].
  destruct (Nat.lt_ge_cases k 2) as [Hk|Hk]; [exfalso | exact Hk].
  rewrite <- (lookup_take_lt _ 2 k) in E by exact Hk. rewrite Hcc in E.
  destruct k as [|[|k]]; [discriminate E | discriminate E | lia].
Qed.




Lemma normalize_filename : toLowerCase (trim (js "filename")) = js "filename".
Proof.
  replace (trim (js "filename")) with (js "filename") by (vm_compute; reflexivity).
  rewrite toLowerCase_ascii by reflexivity. vm_compute. reflexivity.
Qed.

Lemma header_no_comma (line0 : jsstring) (header : list jsstring) (fi : nat) :
  headerWithFilename line0 = (header, fi) -> Forall (fun f => comma ∉ f) header.
Proof.
  unfold headerWithFilename. destruct (indexOf _ _); intros [= <- <-].
  - apply splitOn_no_sep.
  - apply Forall_app. split; [apply splitOn_no_sep|].
    repeat constructor. apply filename_not_elem. auto.
Qed.

Lemma header_not_elem (x : N) (line0 : jsstring) (header : list jsstring) (fi : nat) :
  headerWithFilename line0 = (header, fi) ->
  x = LF \/ x = CR -> x ∉ line0 -> x ∉ stringifyCsvLine header.
Proof.
  intros Hh Hx Hline.
  assert (Hne : x <> comma) by (destruct Hx as [->| ->]; discriminate).
  apply joinWith_not_elem; [exact Hne|].
  unfold headerWithFilename in Hh. destruct (indexOf _ _); injection Hh as <- <-.
  - apply splitOn_not_elem, Hline.
  - apply Forall_app. split; [apply splitOn_not_elem, Hline|].
    repeat constructor. apply filename_not_elem. destruct Hx as [->| ->]; auto.
Qed.

Lemma headerWithFilename_again (line0 : jsstring) (header : list jsstring) (fi : nat) :
  headerWithFilename line0 = (header, fi) ->
  headerWithFilename (stringifyCsvLine header) = (header, fi).
Proof.
  intros Hh. pose proof (header_no_comma _ _ _ Hh) as Hnc.
  unfold headerWithFilename in *.
  destruct (indexOf _ (normalizeHeader (parseCsvLine line0))) as [k|] eqn:E;
    injection Hh as <- <-.
  - unfold stringifyCsvLine, parseCsvLine. rewrite join_splitOn.
    fold (parseCsvLine line0). rewrite E. reflexivity.
  - assert (Hp : parseCsvLine (stringifyCsvLine (parseCsvLine line0 ++ [js "filename"]))
                 = parseCsvLine line0 ++ [js "filename"]).
    { unfold parseCsvLine at 1. unfold stringifyCsvLine. apply splitOn_join; [|exact Hnc].
      destruct (parseCsvLine line0); discriminate. }
    rewrite Hp. unfold normalizeHeader at 1. rewrite map_app. cbn [map].
    rewrite normalize_filename. fold (normalizeHeader (parseCsvLine line0)).
    rewrite (indexOf_app_None _ _ E), length_normalizeHeader. reflexivity.
Qed.

(** ** The update against the decision table *)

Lemma updateLines_policy (c k f line0 : jsstring) (rows header : list jsstring) (fi : nat) :
  headerWithFilename line0 = (header, fi) -> (2 <= length header)%nat ->
  updateLines c k f (line0 :: rows) =
  Ok (stringifyCsvLine header :: applyPolicy (length header) fi c k f rows).
Proof.
  intros Hh Hlen. pose proof (headerWithFilename_lt _ _ _ Hh) as Hfi.
  unfold updateLines. rewrite Hh. change (drop 1 (line0 :: rows)) with rows.
  rewrite scanRows_spec by (try assumption; reflexivity).
  unfold bindR, scanOutcome, applyPolicy, rowStatus.
  cbn [sc_lines sc_updated sc_updatedIndex].
  destruct (findRow (fun r => _ && _) rows) as [[n raw]|] eqn:E1.
  - cbn [sc_lines sc_updated sc_updatedIndex]. reflexivity.
  - cbn [sc_lines sc_updated sc_updatedIndex].
    destruct (findRow (rowMatches _ c k) rows) as [[n raw]|] eqn:E2.
    + apply findRow_Some in E2 as (Hl & _ & _).
      change ((line0 :: rows) !! (1 + n)%nat) with (rows !! n). rewrite Hl.
      fold (rowFields (length header) raw).
      rewrite arraySet_lt by (pose proof (length_rowFields (length header) raw); lia).
      reflexivity.
    + unfold newRowFields. rewrite arraySet_lt by (rewrite length_padTo; simpl; lia).
      reflexivity.
Qed.

End Header.

(** ** The record store: the three-way policy *)

Section Policy.
Context `{Platform}.


End Policy.



(** ** The record store: a key that no row has *)

Section AbsentKey.
Context `{Platform}.


End AbsentKey.



(** ** The record store: a header without filename column *)




Section AddColumn.
Context `{Platform}.


End AddColumn.



(** ** The record store: the update applied twice *)

(** A row whose fields hold the key and the filename matches the key and is
    left as it is when the filename is written again. *)
Lemma written_row (hl fi : nat) (c k f : jsstring) (fields : list jsstring) (a b : jsstring) :
  (2 <= fi)%nat -> (fi < hl)%nat -> (hl <= length fields)%nat ->
  Forall (fun x => comma ∉ x) fields ->
  fields !! 0%nat = Some a -> fields !! 1%nat = Some b -> fields !! fi = Some f ->
  trim a = c -> trim b = k ->
  rowMatches hl c k (stringifyCsvLine fields) = true
  /\ rowFields hl (stringifyCsvLine fields) !! fi = Some f
  /\ withFilename hl fi f (stringifyCsvLine fields) = stringifyCsvLine fields.
Proof.
  intros H2 Hlt Hlen Hall E0 E1 Ef Ha Hb.
  assert (Hrf : rowFields hl (stringifyCsvLine fields) = fields)
    by (apply rowFields_stringify; [lia | exact Hlen | exact Hall]).
  split; [|split].
  - apply rowMatches_true. split; [apply stringify_two_fields_not_blank; lia|].
    rewrite Hrf. eauto 10.
  - rewrite Hrf. exact Ef.
  - unfold withFilename. rewrite Hrf. rewrite list_insert_id by exact Ef. reflexivity.
Qed.

(** A table in which one row has the key, with the filename already in it,
    is left as it is. *)
Lemma applyPolicy_fixed (hl fi : nat) (c k f : jsstring) (R : list jsstring) (i : nat)
    (w : jsstring) :
  R !! i = Some w -> rowMatches hl c k w = true -> withFilename hl fi f w = w ->
  (forall j r, R !! j = Some r -> rowMatches hl c k r = true -> j = i) ->
  applyPolicy hl fi c k f R = R.
Proof.
  intros Hl Hm Hw Huniq. unfold applyPolicy, rowStatus.
  assert (Hsame : forall n x, R !! n = Some x -> rowMatches hl c k x = true ->
            <[n := withFilename hl fi f x]> R = R).
  { intros n x Hn Hx. pose proof (Huniq n x Hn Hx) as ->.
    assert (x = w) as -> by congruence. rewrite Hw. apply list_insert_id, Hl. }
  destruct (findRow (fun r => _ && _) R) as [[n x]|] eqn:E1.
  { apply findRow_Some in E1 as (Hn & [Hx _]%andb_prop & _). apply Hsame; assumption. }
  destruct (findRow (rowMatches hl c k) R) as [[n x]|] eqn:E2.
  { apply findRow_Some in E2 as (Hn & Hx & _). apply Hsame; assumption. }
  pose proof (proj1 (findRow_None _ _) E2 w (list_elem_of_lookup_2 _ _ _ Hl)) as Hno.
  congruence.
Qed.

Section Twice.
Context `{Platform}.

(** One update of a table in which at most one row has the key: what is
    written is a table that a second update leaves as it is. *)
Lemma updateLines_settled (c k f line0 : jsstring) (rows header : list jsstring) (fi : nat) :
  cityCountryFirst line0 -> headerWithFilename line0 = (header, fi) ->
  validTriple c k f -> keyUnique (length header) c k rows ->
  exists rows1 i w,
    updateLines c k f (line0 :: rows) = Ok (stringifyCsvLine header :: rows1)
    /\ applyPolicy (length header) fi c k f rows1 = rows1
    /\ rows1 !! i = Some w
    /\ rowMatches (length header) c k w = true
    /\ rowFields (length header) w !! fi = Some f
    /\ (forall j r, rows1 !! j = Some r -> rowMatches (length header) c k r = true -> j = i)
    /\ (forall x, x = LF \/ x = CR -> Forall (fun l => x ∉ l) rows ->
                  Forall (fun l => x ∉ l) rows1).
Proof.
  intros Hcc Hh (Hc & Hk & Hf & Htc & Htk) Huniq.
  destruct (cityCountryFirst_header _ _ _ Hcc Hh) as [Hfi Hlen].
  pose proof (headerWithFilename_lt _ _ _ Hh) as Hlt.
  pose proof (updateLines_policy c k f line0 rows header fi Hh ltac:(lia)) as Hpol.
  set (hl := length header) in *.
  assert (Hfound : forall i raw, rows !! i = Some raw -> rowMatches hl c k raw = true ->
            applyPolicy hl fi c k f rows = <[i := withFilename hl fi f raw]> rows ->
            exists rows1 i w,
              updateLines c k f (line0 :: rows) = Ok (stringifyCsvLine header :: rows1)
              /\ applyPolicy hl fi c k f rows1 = rows1
              /\ rows1 !! i = Some w
              /\ rowMatches hl c k w = true
              /\ rowFields hl w !! fi = Some f
              /\ (forall j r, rows1 !! j = Some r -> rowMatches hl c k r = true -> j = i)
              /\ (forall x, x = LF \/ x = CR -> Forall (fun l => x ∉ l) rows ->
                            Forall (fun l => x ∉ l) rows1)).
  { intros i raw Hl Hm Happ. rewrite Happ in Hpol.
    apply rowMatches_true in Hm as Hm'. destruct Hm' as (_ & f0 & f1 & E0 & E1 & H0 & H1).
    pose proof (length_rowFields hl raw) as Hrf.
    destruct (written_row hl fi c k f (<[fi := f]> (rowFields hl raw)) f0 f1)
      as (Wm & Wf & Ww); try assumption.
    - rewrite length_insert. exact Hrf.
    - apply Forall_insert; [apply rowFields_no_comma | apply Hf].
    - rewrite list_lookup_insert_ne by lia. exact E0.
    - rewrite list_lookup_insert_ne by lia. exact E1.
    - apply list_lookup_insert_eq. lia.
    - fold (withFilename hl fi f raw) in Wm, Wf, Ww.
      assert (Hi : (<[i := withFilename hl fi f raw]> rows) !! i
                   = Some (withFilename hl fi f raw)).
      { apply list_lookup_insert_eq. apply lookup_lt_Some in Hl. exact Hl. }
      assert (Hu : forall j r, (<[i := withFilename hl fi f raw]> rows) !! j = Some r ->
                 rowMatches hl c k r = true -> j = i).
      { intros j r Hj Hr. destruct (decide (j = i)) as [->|Hne]; [reflexivity|].
        rewrite list_lookup_insert_ne in Hj by congruence.
        apply (Huniq j i r raw); assumption. }
      exists (<[i := withFilename hl fi f raw]> rows), i, (withFilename hl fi f raw).
      split; [exact Hpol|]. split; [apply (applyPolicy_fixed _ _ _ _ _ _ i _ Hi Wm Ww Hu)|].
      split; [exact Hi|]. split; [exact Wm|]. split; [exact Wf|]. split; [exact Hu|].
      intros x Hx Hrows. apply Forall_insert; [exact Hrows|].
      apply withFilename_not_elem.
      + destruct Hx as [->| ->]; discriminate.
      + apply (Forall_lookup_1 _ _ _ _ Hrows Hl).
      + destruct Hf as (_ & HfL & HfC). destruct Hx as [->| ->]; assumption. }
  unfold applyPolicy, rowStatus in Hpol, Hfound.
  destruct (findRow (fun r => _ && _) rows) as [[i raw]|] eqn:E1.
  { apply findRow_Some in E1 as (Hl & [Hm _]%andb_prop & _).
    apply (Hfound i raw Hl Hm). reflexivity. }
  destruct (findRow (rowMatches hl c k) rows) as [[i raw]|] eqn:E2.
  { apply findRow_Some in E2 as (Hl & Hm & _). apply (Hfound i raw Hl Hm). reflexivity. }
  clear Hfound.
  destruct (newRowFields_spec hl fi c k f Hfi Hlt) as (Nlen & N0 & N1 & Nf & _).
  destruct (written_row hl fi c k f (newRowFields hl fi c k f) c k)
    as (Wm & Wf & Ww); try assumption.
  - lia.
  - unfold newRowFields. apply Forall_insert; [|apply Hf].
    apply Forall_app. split.
    + repeat constructor; [apply Hc | apply Hk | apply not_elem_of_nil].
    + apply Forall_replicate, not_elem_of_nil.
  - set (nr := stringifyCsvLine (newRowFields hl fi c k f)) in *.
    assert (Hi : (rows ++ [nr]) !! length rows = Some nr).
    { rewrite lookup_app_r by lia. rewrite Nat.sub_diag. reflexivity. }
    assert (Hu : forall j r, (rows ++ [nr]) !! j = Some r ->
               rowMatches hl c k r = true -> j = length rows).
    { intros j r Hj Hr. destruct (Nat.lt_ge_cases j (length rows)) as [Hjl|Hjl].
      - rewrite lookup_app_l in Hj by exact Hjl.
        pose proof (proj1 (findRow_None _ _) E2 r (list_elem_of_lookup_2 _ _ _ Hj)).
        congruence.
      - apply lookup_lt_Some in Hj. rewrite length_app in Hj. simpl in Hj. lia. }
    exists (rows ++ [nr]), (length rows), nr.
    split; [exact Hpol|].
    split; [apply (applyPolicy_fixed _ _ _ _ _ _ (length rows) _ Hi Wm Ww Hu)|].
    split; [exact Hi|]. split; [exact Wm|]. split; [exact Wf|]. split; [exact Hu|].
    intros x Hx Hrows. apply Forall_app. split; [exact Hrows|].
    repeat constructor. apply joinWith_not_elem.
    + destruct Hx as [->| ->]; discriminate.
    + unfold newRowFields.
      destruct Hc as (_ & HcL & HcC), Hk as (_ & HkL & HkC), Hf as (_ & HfL & HfC).
      apply Forall_insert; [|destruct Hx as [->| ->]; assumption].
      apply Forall_app. split.
      * repeat constructor; [destruct Hx as [->| ->]; assumption
                            | destruct Hx as [->| ->]; assumption | apply not_elem_of_nil].
      * apply Forall_replicate, not_elem_of_nil.
Qed.

(** C3 (amended). For a table whose header names city and country as its
    first two columns, whose lines hold no carriage return and in which at
    most one row has the key, and for a city, country and filename without
    comma or line break, city and country trimmed: the update succeeds, and
    applied to the file it has written it writes the same file again.  That
    file has one row with the key, and its filename field is the filename. *)
Theorem update_twice_same (city country filename original line0 : jsstring)
    (rows header : list jsstring) (fi : nat) :
  splitLines original = line0 :: rows ->
  cityCountryFirst line0 ->
  headerWithFilename line0 = (header, fi) ->
  validTriple city country filename ->
  keyUnique (length header) city country rows ->
  Forall (fun l => CR ∉ l) (line0 :: rows) ->
  exists once rows1 i w,
    updatedCsv city country filename original = Ok once
    /\ updatedCsv city country filename once = Ok once
    /\ splitLines once = stringifyCsvLine header :: rows1
    /\ rows1 !! i = Some w
    /\ rowMatches (length header) city country w = true
    /\ rowFields (length header) w !! fi = Some filename
    /\ (forall j r, rows1 !! j = Some r ->
                    rowMatches (length header) city country r = true -> j = i).
Proof.
  intros Hsplit Hcc Hh Hvalid Huniq Hcr.
  destruct (cityCountryFirst_header _ _ _ Hcc Hh) as [Hfi Hlen].
  destruct (updateLines_settled city country filename line0 rows header fi
              Hcc Hh Hvalid Huniq)
    as (rows1 & i & w & Hup & Hfix & Hi & Hm & Hf & Hu & Hfree).
  pose proof (splitLines_no_LF original) as Hlf. rewrite Hsplit in Hlf.
  inversion Hlf as [|? ? Hlf0 Hlfr]; subst.
  inversion Hcr as [|? ? Hcr0 Hcrr]; subst.
  assert (Hagain : splitLines (joinWith [LF] (stringifyCsvLine header :: rows1))
                   = stringifyCsvLine header :: rows1).
  { apply splitLines_join; [discriminate|]. constructor.
    - split; [apply (header_not_elem LF _ _ _ Hh) | apply (header_not_elem CR _ _ _ Hh)];
        auto.
    - pose proof (Hfree LF (or_introl eq_refl) Hlfr) as H1.
      pose proof (Hfree CR (or_intror eq_refl) Hcrr) as H2.
      clear -H1 H2. induction rows1 as [|r rows1 IH]; [constructor|].
      inversion H1; inversion H2; subst. constructor; auto. }
  exists (joinWith [LF] (stringifyCsvLine header :: rows1)), rows1, i, w.
  split; [|split; [|split; [exact Hagain | auto]]].
  - unfold updatedCsv. rewrite Hsplit, Hup. reflexivity.
  - unfold updatedCsv. rewrite Hagain.
    rewrite (updateLines_policy _ _ _ _ _ header fi (headerWithFilename_again _ _ _ Hh))
      by lia.
    rewrite Hfix. reflexivity.
Qed.

End Twice.

(** C3, as stated, fails here.  The key is in two rows, both without
    filename: the first update fills the first of them, the second update the
    other one. *)
Lemma update_twice_duplicate_key :
  @updatedCsv latin1Platform (js "Rome") (js "Italy") (js "x.jpg")
    (joinWith [LF] (tbl ["city,country,filename"; "Rome,Italy,"; "Rome,Italy,"]))
  = Ok (joinWith [LF] (tbl ["city,country,filename"; "Rome,Italy,x.jpg"; "Rome,Italy,"]))
  /\ @updatedCsv latin1Platform (js "Rome") (js "Italy") (js "x.jpg")
       (joinWith [LF] (tbl ["city,country,filename"; "Rome,Italy,x.jpg"; "Rome,Italy,"]))
     = Ok (joinWith [LF]
             (tbl ["city,country,filename"; "Rome,Italy,x.jpg"; "Rome,Italy,x.jpg"])).
Proof. vm_compute. auto. Qed.

(** A carriage return at the end of the last line stays in that line when
    the file is read, and the update writes it back before the new row; read
    again, it belongs to the line break.  The file written by a second update
    is without it. *)
Example update_twice_stray_return :
  @updatedCsv latin1Platform (js "Rome") (js "Italy") (js "x.jpg")
    (js "city,country,filename" ++ [LF] ++ js "Paris,France,p.jpg" ++ [CR])
  = Ok (js "city,country,filename" ++ [LF] ++ js "Paris,France,p.jpg" ++ [CR; LF]
          ++ js "Rome,Italy,x.jpg")
  /\ @updatedCsv latin1Platform (js "Rome") (js "Italy") (js "x.jpg")
       (js "city,country,filename" ++ [LF] ++ js "Paris,France,p.jpg" ++ [CR; LF]
          ++ js "Rome,Italy,x.jpg")
     = Ok (js "city,country,filename" ++ [LF] ++ js "Paris,France,p.jpg" ++ [LF]
             ++ js "Rome,Italy,x.jpg").
Proof. vm_compute. auto. Qed.

(** With the filename column first, the row appended by the first update
    does not have the key in its first two fields, and the second update
    appends it again. *)
Example update_twice_filename_first :
  @updatedCsv latin1Platform (js "Rome") (js "Italy") (js "x.jpg")
    (joinWith [LF] (tbl ["filename,city,country"]))
  = Ok (joinWith [LF] (tbl ["filename,city,country"; "x.jpg,Italy,"]))
  /\ @updatedCsv latin1Platform (js "Rome") (js "Italy") (js "x.jpg")
       (joinWith [LF] (tbl ["filename,city,country"; "x.jpg,Italy,"]))
     = Ok (joinWith [LF] (tbl ["filename,city,country"; "x.jpg,Italy,"; "x.jpg,Italy,"])).
Proof. vm_compute. auto. Qed.

(** A table with one row for Rome, Italy. *)
Lemma update_twice_same_witness :
  exists once,
    @updatedCsv latin1Platform (js "Rome") (js "Italy") (js "x.jpg")
      (joinWith [LF] (tbl ["city,country,type,filename"; "Paris,France,city,p.jpg";
                           "Rome,Italy,city,"])) = Ok once
    /\ @updatedCsv latin1Platform (js "Rome") (js "Italy") (js "x.jpg") once = Ok once.
Proof.
  destruct (@update_twice_same latin1Platform (js "Rome") (js "Italy") (js "x.jpg")
              (joinWith [LF] (tbl ["city,country,type,filename"; "Paris,France,city,p.jpg";
                                   "Rome,Italy,city,"]))
              (js "city,country,type,filename")
              (tbl ["Paris,France,city,p.jpg"; "Rome,Italy,city,"])
              (tbl ["city"; "country"; "type"; "filename"]) 3%nat)
    as (once & _ & _ & _ & H1 & H2 & _).
  - vm_compute. reflexivity.
  - vm_compute. reflexivity.
  - vm_compute. reflexivity.
  - unfold validTriple, plainText.
    repeat split; try (vm_compute; reflexivity);
      refine (bool_decide_unpack _ _); vm_compute; exact I.
  - intros [|[|i]] [|[|j]] ri rj Hi Hj Hmi Hmj; try reflexivity;
      simpl in Hi, Hj; try discriminate;
      injection Hi as <-; injection Hj as <-; vm_compute in Hmi, Hmj; discriminate.
  - repeat constructor; refine (bool_decide_unpack _ _); vm_compute; exact I.
  - exists once. split; [exact H1 | exact H2].
Defined.

(** ** The result collector *)

Lemma collectNovel_cons (h : PixabayHit) (hits coll : list PixabayHit) (seen : gset jsstring) :
  collectNovel (h :: hits) coll seen =
  if negb (bool_decide (id h ∈ seen))
     && negb (existsb (fun c => bool_decide (id c = id h)) coll)
  then
    if (6 <=? length (coll ++ [h]))%nat then (coll ++ [h], seen ∪ {[ id h ]})
    else collectNovel hits (coll ++ [h]) (seen ∪ {[ id h ]})
  else collectNovel hits coll seen.
Proof. reflexivity. Qed.

Lemma existsb_id_false (x : jsstring) (coll : list PixabayHit) :
  existsb (fun c => bool_decide (id c = x)) coll = false -> x ∉ map id coll.
Proof.
  induction coll as [|c coll IH]; simpl; [intros _; apply not_elem_of_nil|].
  intros [Hc Hrest]%orb_false_elim. apply bool_decide_eq_false in Hc.
  rewrite not_elem_of_cons. split; [congruence | apply IH, Hrest].
Qed.

(** What the inner loop keeps: the batch stays within six, without the ids
    of [seen0] and without a repeated id, and [seen] only grows. *)
Lemma collectNovel_inv (seen0 : gset jsstring) (hits : list PixabayHit) :
  forall coll seen coll' seen',
    collectNovel hits coll seen = (coll', seen') ->
    (length coll < 6)%nat -> seen0 ⊆ seen ->
    (forall h, h ∈ coll -> id h ∉ seen0) -> NoDup (map id coll) ->
    (length coll' <= 6)%nat /\ seen0 ⊆ seen'
    /\ (forall h, h ∈ coll' -> id h ∉ seen0) /\ NoDup (map id coll').
Proof.
  induction hits as [|h hits IH]; intros coll seen coll' seen' E Hlen Hsub Hnew Hnd.
  - injection E as <- <-. repeat split; [lia | assumption..].
  - rewrite collectNovel_cons in E.
    destruct (bool_decide_reflect (id h ∈ seen)) as [Hin|Hnin]; cbn [negb andb] in E.
    { apply (IH _ _ _ _ E); assumption. }
    destruct (existsb _ coll) eqn:Eex; cbn [negb] in E.
    { apply (IH _ _ _ _ E); assumption. }
    assert (Hsub' : seen0 ⊆ seen ∪ {[ id h ]})
      by (etrans; [exact Hsub | apply union_subseteq_l]).
    assert (Hnew' : forall x, x ∈ coll ++ [h] -> id x ∉ seen0).
    { intros x [Hx|Hx%list_elem_of_singleton]%elem_of_app; [apply Hnew, Hx|].
      subst x. intros Hx. apply Hnin, Hsub, Hx. }
    assert (Hnd' : NoDup (map id (coll ++ [h]))).
    { rewrite map_app. apply NoDup_app. split; [exact Hnd|]. split.
      - intros x Hx [->|Hx']%elem_of_cons; [|inversion Hx'].
        apply (existsb_id_false _ _ Eex), Hx.
      - simpl. apply NoDup_singleton. }
    assert (Hlen' : length (coll ++ [h]) = S (length coll))
      by (rewrite length_app; simpl; lia).
    destruct (Nat.leb_spec 6 (length (coll ++ [h]))) as [Hfull|Hless].
    + injection E as <- <-. repeat split; [lia | assumption..].
    + apply (IH _ _ _ _ E); assumption.
Qed.

Lemma collectNovel_all_seen (hits : list PixabayHit) (coll : list PixabayHit)
    (seen : gset jsstring) :
  (forall h, h ∈ hits -> id h ∈ seen) -> collectNovel hits coll seen = (coll, seen).
Proof.
  induction hits as [|h hits IH]; intros Hall; [reflexivity|].
  rewrite collectNovel_cons.
  rewrite (bool_decide_eq_true_2 (id h ∈ seen)) by (apply Hall; left).
  cbn [negb andb]. apply IH. intros x Hx. apply Hall. right. exact Hx.
Qed.

Lemma gatherLoop_S (fuel : nat) (search : nat -> PageFetch) (g : Gather) :
  gatherLoop (S fuel) search g =
  if (length (collected g) <? 6)%nat && (attempts g <? 5)%nat then
    match pageHits (search (page g)) with
    | None => Some (Throw (js "Search failed"), page g :: requested g)
    | Some hits =>
        let '(collected', seen') := collectNovel hits (collected g) (currentSeen g) in
        let g' := {| collected := collected'; page := S (page g);
                     attempts := S (attempts g); currentSeen := seen';
                     requested := page g :: requested g |} in
        if (length hits =? 0)%nat then Some (Ok g', page g :: requested g)
        else gatherLoop fuel search g'
    end
  else Some (Ok g, requested g).
Proof. reflexivity. Qed.

(** The loop ends within the rounds that its counter leaves. *)
Lemma gatherLoop_terminates (search : nat -> PageFetch) (fuel : nat) :
  forall g, (5 - attempts g < fuel)%nat -> exists out, gatherLoop fuel search g = Some out.
Proof.
  induction fuel as [|fuel IH]; intros g Hfuel; [lia|].
  rewrite gatherLoop_S.
  destruct (Nat.ltb_spec (length (collected g)) 6); cbn [andb]; [|eauto].
  destruct (Nat.ltb_spec (attempts g) 5); [|eauto].
  destruct (pageHits (search (page g))) as [hits|]; [|eauto].
  destruct (collectNovel hits (collected g) (currentSeen g)) as [coll' seen'].
  destruct (length hits =? 0)%nat; [eauto|].
  apply IH. simpl. lia.
Qed.

Lemma gatherLoop_more_fuel (search : nat -> PageFetch) (fuel : nat) :
  forall g out fuel', gatherLoop fuel search g = Some out -> (fuel <= fuel')%nat ->
                      gatherLoop fuel' search g = Some out.
Proof.
  induction fuel as [|fuel IH]; intros g out fuel' E Hle; [discriminate|].
  destruct fuel' as [|fuel']; [lia|].
  rewrite gatherLoop_S in *.
  destruct ((length (collected g) <? 6)%nat && (attempts g <? 5)%nat); [|exact E].
  destruct (pageHits (search (page g))) as [hits|]; [|exact E].
  destruct (collectNovel hits (collected g) (currentSeen g)) as [coll' seen'].
  destruct (length hits =? 0)%nat; [exact E|].
  apply (IH _ _ _ E). lia.
Qed.

(** The pages requested are consecutive, at most as many as the counter
    leaves, and each of them but the last came with raw results. *)
Lemma gatherLoop_trace (search : nat -> PageFetch) (fuel : nat) :
  forall g r reqs,
    gatherLoop fuel search g = Some (r, reqs) -> (attempts g <= 5)%nat ->
    exists n,
      reqs = reverse (seq (page g) n) ++ requested g
      /\ (n + attempts g <= 5)%nat
      /\ (forall k, (S k < n)%nat ->
            exists hits, pageHits (search (page g + k)%nat) = Some hits /\ hits <> []).
Proof.
  induction fuel as [|fuel IH]; intros g r reqs E Hat; [discriminate|].
  rewrite gatherLoop_S in E.
  assert (Hone : exists n, page g :: requested g = reverse (seq (page g) n) ++ requested g
            /\ (attempts g < 5 -> n + attempts g <= 5)%nat
            /\ (forall k, (S k < n)%nat ->
                  exists hits, pageHits (search (page g + k)%nat) = Some hits /\ hits <> [])).
  { exists 1%nat. split; [reflexivity|]. split; [lia|]. intros k Hk. lia. }
  destruct (Nat.ltb_spec (length (collected g)) 6); cbn [andb] in E.
  2:{ injection E as <- <-. exists 0%nat. split; [reflexivity|]. split; [lia|].
      intros k Hk. lia. }
  destruct (Nat.ltb_spec (attempts g) 5).
  2:{ injection E as <- <-. exists 0%nat. split; [reflexivity|]. split; [lia|].
      intros k Hk. lia. }
  destruct (pageHits (search (page g))) as [hits|] eqn:Ehits.
  2:{ injection E as <- <-. destruct Hone as (n & ? & ? & ?). exists n. auto. }
  destruct (collectNovel hits (collected g) (currentSeen g)) as [coll' seen'].
  destruct (Nat.eqb_spec (length hits) 0) as [Hz|Hnz].
  { injection E as <- <-. destruct Hone as (n & ? & ? & ?). exists n. auto. }
  apply IH in E; [|simpl; lia]. destruct E as (n & Hreqs & Hn & Hpages). simpl in *.
  exists (S n). split; [|split].
  - rewrite Hreqs. simpl seq. rewrite reverse_cons, <- app_assoc. reflexivity.
  - lia.
  - intros [|k] Hk.
    + rewrite Nat.add_0_r. exists hits. split; [exact Ehits|].
      intros ->. simpl in Hnz. lia.
    + replace (page g + S k)%nat with (S (page g) + k)%nat by lia. apply Hpages. lia.
Qed.

(** A loop that ends without exception has had an answer to every request. *)
Lemma gatherLoop_ok_pages (search : nat -> PageFetch) (fuel : nat) :
  forall g g' reqs,
    gatherLoop fuel search g = Some (Ok g', reqs) ->
    forall p, p ∈ reqs -> p ∈ requested g \/ pageHits (search p) <> None.
Proof.
  induction fuel as [|fuel IH]; intros g g' reqs E p Hp; [discriminate|].
  rewrite gatherLoop_S in E.
  destruct ((length (collected g) <? 6)%nat && (attempts g <? 5)%nat).
  2:{ injection E as <- <-. left. exact Hp. }
  destruct (pageHits (search (page g))) as [hits|] eqn:Ehits; [|discriminate].
  destruct (collectNovel hits (collected g) (currentSeen g)) as [coll' seen'].
  assert (Hhere : forall q, q ∈ page g :: requested g ->
            q ∈ requested g \/ pageHits (search q) <> None).
  { intros q [->|Hq]%elem_of_cons; [right; congruence | left; exact Hq]. }
  destruct (length hits =? 0)%nat.
  { injection E as <- <-. apply Hhere, Hp. }
  destruct (IH _ _ _ E p Hp) as [Hq|Hq]; [apply Hhere, Hq | right; exact Hq].
Qed.

(** The batch of a loop that ends without exception. *)
Lemma gatherLoop_batch (seen0 : gset jsstring) (search : nat -> PageFetch) (fuel : nat) :
  forall g g' reqs,
    gatherLoop fuel search g = Some (Ok g', reqs) ->
    (length (collected g) <= 6)%nat -> seen0 ⊆ currentSeen g ->
    (forall h, h ∈ collected g -> id h ∉ seen0) -> NoDup (map id (collected g)) ->
    (length (collected g') <= 6)%nat /\ seen0 ⊆ currentSeen g'
    /\ (forall h, h ∈ collected g' -> id h ∉ seen0) /\ NoDup (map id (collected g')).
Proof.
  induction fuel as [|fuel IH]; intros g g' reqs E Hlen Hsub Hnew Hnd; [discriminate|].
  rewrite gatherLoop_S in E.
  destruct (Nat.ltb_spec (length (collected g)) 6); cbn [andb] in E.
  2:{ injection E as <- _. auto. }
  destruct (attempts g <? 5)%nat.
  2:{ injection E as <- _. auto. }
  destruct (pageHits (search (page g))) as [hits|]; [|discriminate].
  destruct (collectNovel hits (collected g) (currentSeen g)) as [coll' seen'] eqn:Ec.
  destruct (collectNovel_inv seen0 hits _ _ _ _ Ec) as (Hl & Hs & Hn & Hd); try assumption.
  destruct (length hits =? 0)%nat.
  { injection E as <- _. simpl. auto. }
  apply (IH _ _ _ E); simpl; assumption.
Qed.

Lemma gather_runs (search : nat -> PageFetch) (s : Picker) :
  exists r n,
    gather 6 search s = Some (r, reverse (seq (pageNum s) n))
    /\ (n <= 5)%nat
    /\ (forall k, (S k < n)%nat ->
          exists hits, pageHits (search (pageNum s + k)%nat) = Some hits /\ hits <> []).
Proof.
  destruct (gatherLoop_terminates search 6
              {| collected := []; page := pageNum s; attempts := 0;
                 currentSeen := seenIds s; requested := [] |} ltac:(simpl; lia))
    as [[r reqs] E].
  destruct (gatherLoop_trace _ _ _ _ _ E ltac:(simpl; lia)) as (n & Hreqs & Hn & Hpages).
  simpl in Hreqs, Hn, Hpages. rewrite app_nil_r in Hreqs. subst reqs.
  exists r, n. split; [exact E|]. split; [lia | exact Hpages].
Qed.

(** C5. From any page and any set of seen ids the loop of the collector ends
    after at most five requests, whatever the pages hold (more rounds of the
    model do not change its result); the pages are requested in order, and
    each request but the last was answered with raw results, so that the loop
    does not go on after a page without any.  When page 1 answers with 18
    results that were all seen and page 2 with none, the loop ends after the
    request of page 2 with an empty batch. *)
Theorem gather_at_most_five_requests (search : nat -> PageFetch) (s : Picker) :
  exists r n,
    gather 6 search s = Some (r, reverse (seq (pageNum s) n))
    /\ (n <= 5)%nat
    /\ (forall fuel, (6 <= fuel)%nat -> gather fuel search s = gather 6 search s)
    /\ (forall k, (S k < n)%nat ->
          exists hits, pageHits (search (pageNum s + k)%nat) = Some hits /\ hits <> [])
    /\ (forall hits,
          pageNum s = 1%nat -> search 1%nat = Json (Some hits) -> length hits = 18%nat ->
          (forall h, h ∈ hits -> id h ∈ seenIds s) -> search 2%nat = Json (Some []) ->
          n = 2%nat /\ exists g, r = Ok g /\ collected g = []).
Proof.
  destruct (gather_runs search s) as (r & n & E & Hn & Hpages).
  exists r, n. split; [exact E|]. split; [exact Hn|]. split; [|split; [exact Hpages|]].
  - intros fuel Hfuel. rewrite E. apply (gatherLoop_more_fuel _ 6); [exact E | exact Hfuel].
  - intros hits Hp H1 Hlen Hseen H2.
    unfold gather in E. rewrite Hp in E.
    rewrite gatherLoop_S in E. cbn [collected attempts page currentSeen requested] in E.
    change ((length (@nil PixabayHit) <? 6)%nat && (0 <? 5)%nat) with true in E.
    cbn match in E. rewrite H1 in E. cbn [pageHits] in E.
    rewrite (collectNovel_all_seen _ _ _ Hseen) in E. rewrite Hlen in E.
    change (18 =? 0)%nat with false in E. cbn match in E.
    rewrite gatherLoop_S in E. cbn [collected attempts page currentSeen requested] in E.
    change ((length (@nil PixabayHit) <? 6)%nat && (1 <? 5)%nat) with true in E.
    cbn match in E. rewrite H2 in E. cbn [pageHits collectNovel] in E.
    change (length (@nil PixabayHit) =? 0)%nat with true in E. cbn match in E.
    injection E as <- Hreqs. split; [|eauto].
    apply (f_equal length) in Hreqs. rewrite length_reverse, length_seq in Hreqs.
    simpl in Hreqs. lia.
Qed.

(** The scenario of the specification for the attempt budget. *)
Example gather_stops_at_empty_page :
  gather 6 (fun p => match p with 1%nat => Json (Some page18) | _ => Json (Some []) end)
    (pickerAt 1 ["1"; "2"; "3"; "4"; "5"; "6"; "7"; "8"; "9"; "10"; "11"; "12"; "13"; "14";
                 "15"; "16"; "17"; "18"])
  = Some (Ok {| collected := []; page := 3; attempts := 2;
                currentSeen := list_to_set (map id page18); requested := [2; 1]%nat |},
          [2; 1]%nat).
Proof. vm_compute. reflexivity. Qed.

(** Every page holds only results seen before: five requests, then the end. *)
Example gather_gives_up_after_five :
  pagesRequested (fun _ => Json (Some [hit "1"; hit "2"])) (pickerAt 1 ["1"; "2"])
  = [5; 4; 3; 2; 1]%nat.
Proof. vm_compute. reflexivity. Qed.

(** C2. The batch that a gather delivers holds no result whose id was in the
    set of seen ids passed to it, no two results with the same id, and at
    most six results, whatever the pages of the provider hold. *)
Theorem gathered_batch_novel_unique_bounded (query : jsstring) (search : nat -> PageFetch)
    (s : Picker) :
  isEmpty query = false ->
  (forall h, h ∈ images (loadUnique query search false s) -> id h ∉ seenIds s)
  /\ NoDup (map id (images (loadUnique query search false s)))
  /\ (length (images (loadUnique query search false s)) <= 6)%nat
  /\ (forall g reqs, gather 6 search s = Some (Ok g, reqs) ->
        images (loadUnique query search false s) = collected g).
Proof.
  intros Hq. unfold loadUnique. rewrite Hq.
  destruct (gather_runs search s) as (r & n & E & _). rewrite E.
  destruct r as [g|msg].
  - unfold gather in E.
    destruct (gatherLoop_batch (seenIds s) _ _ _ _ _ E) as (Hl & _ & Hn & Hd); simpl.
    + lia.
    + reflexivity.
    + intros h Hh. inversion Hh.
    + constructor.
    + repeat split; try assumption. intros g0 reqs [= <- _]. reflexivity.
  - simpl. repeat split; [intros h Hh; inversion Hh | constructor | lia |].
    intros g0 reqs [=].
Qed.

(** Eighteen results on every page, two of them seen before: the batch is the
    first six of the others. *)
Example gather_fills_batch :
  map id (images (loadUnique (js "Rome Italy") (fun _ => Json (Some page18)) false
                    (pickerAt 1 ["2"; "5"])))
  = map js ["1"; "3"; "4"; "6"; "7"; "8"]%string.
Proof. vm_compute. reflexivity. Qed.

(** The same gather, through the theorem. *)
Lemma gathered_batch_witness :
  (length (images (loadUnique (js "Rome Italy") (fun _ => Json (Some page18)) false
                     (pickerAt 1 ["2"; "5"]))) <= 6)%nat.
Proof.
  exact (proj1 (proj2 (proj2
    (gathered_batch_novel_unique_bounded (js "Rome Italy") (fun _ => Json (Some page18))
       (pickerAt 1 ["2"; "5"]) eq_refl)))).
Defined.

(** C7. When a request of the gather fails (no connection, a response that
    is not ok, a body that is not JSON), the gather is given up: the caller
    receives the empty batch, what was collected is dropped and the set of
    seen ids stays as it was.  The component is left idle, so that a refresh
    of the operator starts the next gather, from the next page. *)
Theorem failed_fetch_aborts_gather (query : jsstring) (search : nat -> PageFetch)
    (s : Picker) (p : nat) :
  isEmpty query = false ->
  p ∈ pagesRequested search s -> pageHits (search p) = None ->
  images (loadUnique query search false s) = []
  /\ seenIds (loadUnique query search false s) = seenIds s
  /\ loading (loadUnique query search false s) = false
  /\ refreshing (loadUnique query search false s) = false
  /\ (isPending s = false ->
      handleRefresh (loadUnique query search false s)
      = {| images := []; loading := false; refreshing := true; pageNum := S (pageNum s);
           seenIds := seenIds s; isPending := false |}
      /\ forall search',
           gather 6 search' (handleRefresh (loadUnique query search false s))
           = gatherLoop 6 search'
               {| collected := []; page := S (pageNum s); attempts := 0;
                  currentSeen := seenIds s; requested := [] |}).
Proof.
  intros Hq Hp Hfail. unfold pagesRequested in Hp. unfold loadUnique. rewrite Hq.
  destruct (gather 6 search s) as [[r reqs]|] eqn:E; [|inversion Hp].
  destruct r as [g|msg].
  { unfold gather in E. destruct (gatherLoop_ok_pages _ _ _ _ _ E p Hp) as [Hin|Hok].
    - inversion Hin.
    - congruence. }
  cbn [setGathered setLoading images seenIds loading refreshing pageNum isPending].
  do 4 (split; [reflexivity|]). intros Hpend. clear E Hp.
  destruct s as [im lo re pn se pe]. simpl in Hpend. subst pe.
  split; reflexivity.
Qed.

(** Page 1 answers with two results, page 2 fails: nothing is delivered and
    no id is marked as seen. *)
Lemma failed_fetch_witness :
  images (loadUnique (js "Rome Italy") secondPageFails false (pickerAt 1 [])) = []
  /\ seenIds (loadUnique (js "Rome Italy") secondPageFails false (pickerAt 1 [])) = ∅.
Proof.
  destruct (failed_fetch_aborts_gather (js "Rome Italy") secondPageFails (pickerAt 1 [])
              2%nat eq_refl) as (Himg & Hseen & _).
  - vm_compute. left.
  - reflexivity.
  - split; [exact Himg | exact Hseen].
Defined.

(** ** The slug *)

Lemma hyphenate_elem (c : N) (s : jsstring) (inRun : bool) :
  c ∈ hyphenate inRun s -> c = hyphen \/ (c ∈ s /\ isSeparator c = false).
Proof.
  revert inRun. induction s as [|d s IH]; intros inRun; simpl; [intros Hc; inversion Hc|].
  destruct (isSeparator d) eqn:Ed.
  - destruct inRun.
    + intros Hc. destruct (IH _ Hc) as [->|[Hin Hs]]; [auto|]. right. split; [right|]; auto.
    + intros [->|Hc]%elem_of_cons; [auto|].
      destruct (IH _ Hc) as [->|[Hin Hs]]; [auto|]. right. split; [right|]; auto.
  - intros [->|Hc]%elem_of_cons; [right; split; [left | exact Ed]|].
    destruct (IH _ Hc) as [->|[Hin Hs]]; [auto|]. right. split; [right|]; auto.
Qed.

Lemma slugKeeps_not_separator (c : N) :
  slugKeeps c = true -> isSeparator c = false -> slugUnit c = true.
Proof.
  unfold slugKeeps, isSeparator, slugUnit, isWord.
  intros Hk [Hw Hu]%orb_false_elim. rewrite Hw, Hu in Hk.
  rewrite !orb_false_r in Hk. rewrite orb_false_r in Hk || idtac.
  destruct (isUpper c), (isLower c), (isDigit c), (c =? hyphen); simpl in *; congruence.
Qed.

Lemma slugUnit_not_space (c : N) :
  slugUnit c = true -> isWhiteSpace c = false /\ c <> underscore.
Proof.
  unfold slugUnit, isUpper, isLower, isDigit, isWhiteSpace, hyphen, underscore.
  intros Hc.
  assert (Hr : (65 <= c <= 90) \/ (97 <= c <= 122) \/ (48 <= c <= 57) \/ c = 45).
  { repeat (apply orb_prop in Hc as [Hc|Hc]).
    - apply andb_prop in Hc as [?%N.leb_le ?%N.leb_le]. lia.
    - apply andb_prop in Hc as [?%N.leb_le ?%N.leb_le]. lia.
    - apply andb_prop in Hc as [?%N.leb_le ?%N.leb_le]. lia.
    - apply N.eqb_eq in Hc. lia. }
  split; [|lia].
  repeat (apply orb_false_intro); try (apply N.eqb_neq; lia);
    apply andb_false_iff; rewrite !N.leb_gt; lia.
Qed.

Lemma hyphenate_run (run rest : jsstring) :
  run <> [] -> forallb isSeparator run = true ->
  (forall c rest', rest = c :: rest' -> isSeparator c = false) ->
  hyphenate false (run ++ rest) = hyphen :: hyphenate false rest.
Proof.
  intros Hne Hrun Hrest.
  assert (Htrue : forall r, forallb isSeparator r = true ->
            hyphenate true (r ++ rest) = hyphenate false rest).
  { induction r as [|c r IH]; simpl.
    - intros _. destruct rest as [|c rest']; [reflexivity|]. simpl.
      rewrite (Hrest c rest' eq_refl). reflexivity.
    - intros [Hc Hr]%andb_prop. rewrite Hc. apply IH, Hr. }
  destruct run as [|c run]; [congruence|]. simpl in *.
  apply andb_prop in Hrun as [Hc Hr]. rewrite Hc. f_equal. apply Htrue, Hr.
Qed.

Section Slug.
Context `{Platform}.

(** Every unit of a slug is a hyphen, or a letter or digit that the
    lower-cased, decomposed input holds. *)
Lemma toSlug_elem (s : jsstring) (c : N) :
  c ∈ toSlug s ->
  c = hyphen \/ (slugUnit c = true /\ c ∈ normalizeNFKD (toLowerCase s)).
Proof.
  unfold toSlug. intros Hc.
  apply hyphenate_elem in Hc as [->|[Hin Hsep]]; [left; reflexivity|].
  apply trim_elem in Hin. apply list_elem_of_In, filter_In in Hin as [Hin Hk].
  right. split; [apply slugKeeps_not_separator; assumption|].
  apply list_elem_of_In, Hin.
Qed.

Lemma toSlug_units (s : jsstring) : Forall (fun c => slugUnit c = true) (toSlug s).
Proof.
  apply Forall_forall. intros c Hc.
  destruct (toSlug_elem s c Hc) as [->|[Hu _]]; [reflexivity | exact Hu].
Qed.

End Slug.

(** ** The slug against the words of the specification *)

Lemma slugKept_slugKeeps (c : N) : slugKept c = slugKeeps c.
Proof. reflexivity. Qed.

Lemma collapsed_isSeparator (c : N) : collapsed c = isSeparator c.
Proof. reflexivity. Qed.

Lemma piecesBetweenRuns_cons (inRun : bool) (s : jsstring) :
  exists p ps, piecesBetweenRuns inRun s = p :: ps.
Proof.
  revert inRun. induction s as [|c s IH]; intros inRun; simpl; [eauto|].
  destruct (collapsed c).
  - destruct inRun; [apply IH | eauto].
  - destruct (piecesBetweenRuns false s); eauto.
Qed.

(** Replacing each run by one hyphen is joining the pieces by hyphens. *)
Lemma hyphenate_pieces (s : jsstring) :
  forall inRun, hyphenate inRun s = joinWith [hyphen] (piecesBetweenRuns inRun s).
Proof.
  induction s as [|c s IH]; intros inRun; simpl; [reflexivity|].
  rewrite <- collapsed_isSeparator. destruct (collapsed c).
  - destruct inRun; [apply IH|].
    destruct (piecesBetweenRuns_cons true s) as (p & ps & E).
    rewrite (IH true), E. reflexivity.
  - rewrite (IH false).
    destruct (piecesBetweenRuns_cons false s) as (p & ps & ->).
    destruct ps; reflexivity.
Qed.

Lemma filter_slugKeeps (t : jsstring) : List.filter slugKeeps t = List.filter slugKept t.
Proof. reflexivity. Qed.

Lemma filter_keeps_all (p : N -> bool) (s : jsstring) :
  Forall (fun c => p c = true) s -> List.filter p s = s.
Proof.
  induction 1 as [|c s Hc _ IH]; simpl; [reflexivity|]. rewrite Hc, IH. reflexivity.
Qed.

Lemma slugUnit_kept (c : N) : slugUnit c = true -> slugKeeps c = true.
Proof.
  unfold slugUnit, slugKeeps, isWord.
  destruct (isUpper c), (isLower c), (isDigit c), (c =? hyphen) eqn:E; simpl;
    rewrite ?orb_true_r; intros Hc; first [discriminate Hc | reflexivity].
Qed.

Lemma isSeparator_kept (c : N) : isSeparator c = true -> slugKeeps c = true.
Proof.
  unfold isSeparator, slugKeeps, isWord.
  destruct (isWhiteSpace c) eqn:Ew, (c =? underscore) eqn:Eu; simpl;
    rewrite ?orb_true_r; intros Hc; first [discriminate Hc | reflexivity].
Qed.

Lemma slugUnit_not_separator (c : N) : slugUnit c = true -> isSeparator c = false.
Proof.
  intros Hc. destruct (slugUnit_not_space c Hc) as [Hw Hu].
  unfold isSeparator. rewrite Hw. apply N.eqb_neq, Hu.
Qed.

(** A word, of letters, digits and hyphens, is copied. *)
Lemma hyphenate_word (w rest : jsstring) :
  Forall (fun c => slugUnit c = true) w -> w <> [] ->
  forall inRun, hyphenate inRun (w ++ rest) = w ++ hyphenate false rest.
Proof.
  induction 1 as [|c w Hc Hw IH]; intros Hne inRun; [congruence|].
  cbn [app hyphenate]. rewrite (slugUnit_not_separator c Hc). f_equal.
  destruct w as [|d w]; [reflexivity|]. apply IH. discriminate.
Qed.

Lemma hyphenate_whole_word (w : jsstring) :
  Forall (fun c => slugUnit c = true) w -> hyphenate false w = w.
Proof.
  intros Hw. destruct w as [|c w]; [reflexivity|].
  rewrite <- (app_nil_r (c :: w)) at 1.
  rewrite hyphenate_word by (assumption || discriminate). apply app_nil_r.
Qed.

(** A string that begins and ends with a letter, a digit or a hyphen is
    trimmed already. *)
Lemma trim_between_words (w1 mid w2 : jsstring) :
  Forall (fun c => slugUnit c = true) w1 -> w1 <> [] ->
  Forall (fun c => slugUnit c = true) w2 -> w2 <> [] ->
  trim (w1 ++ mid ++ w2) = w1 ++ mid ++ w2.
Proof.
  intros H1 N1 H2 N2.
  destruct w1 as [|c w1]; [congruence|].
  destruct (exists_last N2) as (w2' & d & ->).
  inversion H1 as [|? ? Hc _]; subst.
  apply Forall_app in H2 as [_ Hd]. inversion Hd as [|? ? Hd' _]; subst.
  replace ((c :: w1) ++ mid ++ w2' ++ [d]) with (c :: (w1 ++ mid ++ w2') ++ [d])
    by (rewrite <- !app_assoc; reflexivity).
  apply trim_fixed; [apply (slugUnit_not_space c Hc) | apply (slugUnit_not_space d Hd')].
Qed.

Lemma trim_word (w : jsstring) : Forall (fun c => slugUnit c = true) w -> trim w = w.
Proof.
  intros Hw. destruct (ends_cases w) as [-> | [[c ->] | (c & t & d & ->)]].
  - reflexivity.
  - inversion Hw; subst. apply trim_one, (slugUnit_not_space c). assumption.
  - inversion Hw as [|? ? Hc Hrest]; subst. apply Forall_app in Hrest as [_ Hd].
    inversion Hd; subst.
    apply trim_fixed; [apply (slugUnit_not_space c Hc) | apply (slugUnit_not_space d)];
      assumption.
Qed.

Lemma combiningMark_dropped (c : N) : combiningMark c = true -> slugKept c = false.
Proof.
  unfold combiningMark, slugKept, wordCharacter, isWhiteSpace.
  intros [H1%N.leb_le H2%N.leb_le]%andb_prop.
  repeat (apply orb_false_intro); try (apply N.eqb_neq; lia);
    apply andb_false_iff; rewrite !N.leb_gt; lia.
Qed.

Section SlugSpec.
Context `{Platform}.

Lemma toSlug_refines (s : jsstring) :
  toSlug s = slugOfNormalized (normalizeNFKD (toLowerCase s)).
Proof. unfold toSlug, slugOfNormalized. rewrite filter_slugKeeps. apply hyphenate_pieces. Qed.

Lemma toSlug_keeps (s : jsstring) :
  Forall (fun c => slugUnit c = true) (normalizeNFKD (toLowerCase s)) ->
  toSlug s = normalizeNFKD (toLowerCase s).
Proof.
  intros Ht. unfold toSlug.
  rewrite filter_keeps_all by (eapply Forall_impl; [exact Ht | apply slugUnit_kept]).
  rewrite trim_word by exact Ht. apply hyphenate_whole_word, Ht.
Qed.

Lemma toSlug_removes (s a b : jsstring) (c : N) :
  normalizeNFKD (toLowerCase s) = a ++ [c] ++ b -> slugKept c = false ->
  toSlug s = slugOfNormalized (a ++ b).
Proof.
  intros Ht Hc. rewrite toSlug_refines, Ht. unfold slugOfNormalized.
  rewrite !List.filter_app. cbn [List.filter]. rewrite Hc. reflexivity.
Qed.

Lemma toSlug_collapses (s w1 run w2 : jsstring) :
  normalizeNFKD (toLowerCase s) = w1 ++ run ++ w2 ->
  Forall (fun c => slugUnit c = true) w1 -> w1 <> [] ->
  Forall (fun c => collapsed c = true) run -> run <> [] ->
  Forall (fun c => slugUnit c = true) w2 -> w2 <> [] ->
  toSlug s = w1 ++ [hyphen] ++ w2.
Proof.
  intros Ht H1 N1 Hr Nr H2 N2. unfold toSlug. rewrite Ht.
  rewrite filter_keeps_all.
  2:{ apply Forall_app. split; [eapply Forall_impl; [exact H1 | apply slugUnit_kept]|].
      apply Forall_app. split; [eapply Forall_impl; [exact Hr | apply isSeparator_kept]|].
      eapply Forall_impl; [exact H2 | apply slugUnit_kept]. }
  rewrite trim_between_words by assumption.
  rewrite hyphenate_word by assumption.
  rewrite hyphenate_run.
  - rewrite hyphenate_whole_word by exact H2. reflexivity.
  - exact Nr.
  - apply forallb_forall. rewrite Forall_forall in Hr. intros c Hc.
    apply Hr, list_elem_of_In, Hc.
  - intros c rest' ->. inversion H2; subst. apply slugUnit_not_separator. assumption.
Qed.

End SlugSpec.

Lemma sanitizeId_filter (imageIdRaw : jsstring) :
  sanitizeId imageIdRaw = List.filter sanitizedIdUnit imageIdRaw.
Proof. reflexivity. Qed.

(** ** The form action *)

Lemma bindIO_Ok {A B} (m : IO A) (k : A -> IO B) (w w' : World) (b : B) :
  bindIO m k w = (Ok b, w') -> exists a w1, m w = (Ok a, w1) /\ k a w1 = (Ok b, w').
Proof.
  unfold bindIO. destruct (m w) as [[a|e] w1]; [eauto | discriminate].
Qed.

Lemma mkdir_Ok (path : jsstring) (w w' : World) (u : unit) :
  mkdir path w = (Ok u, w') -> w' = logEvent (EvMkdir path) w.
Proof. unfold mkdir. destruct (writable w path); congruence. Qed.

Lemma fetch_Ok (url : jsstring) (w w' : World) (res : Response) :
  fetch url w = (Ok res, w') -> w' = logEvent (EvFetch url) w.
Proof. unfold fetch. destruct (network w url); congruence. Qed.

Lemma readFile_Ok (path text : jsstring) (w w' : World) :
  readFile path w = (Ok text, w') -> w' = logEvent (EvReadFile path) w.
Proof. unfold readFile. destruct (files w !! path); congruence. Qed.

Lemma writeFile_Ok (path data : jsstring) (w w' : World) (u : unit) :
  writeFile path data w = (Ok u, w') -> trace w' = EvWriteFile path :: trace w.
Proof.
  unfold writeFile. destruct (writable w path); [|discriminate].
  intros [= _ <-]. reflexivity.
Qed.

Section Action.
Context `{Platform}.

Lemma downloadImageToPublic_Ok (imageUrl baseName name : jsstring) (w w' : World) :
  downloadImageToPublic imageUrl baseName w = (Ok name, w') ->
  name = baseName ++ [dot] ++ getFileExtensionFromUrl imageUrl
  /\ trace w' = EvWriteFile (downloadsDir ++ [slash] ++ name) :: EvFetch imageUrl
                  :: EvMkdir downloadsDir :: trace w.
Proof.
  unfold downloadImageToPublic, ensureDir. intros E.
  apply bindIO_Ok in E as (u & w1 & Hmk & E). apply mkdir_Ok in Hmk as ->.
  apply bindIO_Ok in E as (res & w2 & Hfe & E). apply fetch_Ok in Hfe as ->.
  destruct (negb (res_ok res)); [discriminate E|].
  apply bindIO_Ok in E as (u' & w3 & Hwr & E). apply writeFile_Ok in Hwr.
  unfold ret in E. injection E as <- <-. split; [reflexivity | exact Hwr].
Qed.

Lemma updateCsvWithFilename_trace (c k f : jsstring) (w w' : World) (r : Result unit) :
  updateCsvWithFilename c k f w = (r, w') -> exists evs, trace w' = evs ++ trace w.
Proof.
  unfold updateCsvWithFilename, bindIO, readFile, liftR, writeFile, logEvent.
  destruct (files w !! csvPath) as [text|].
  - destruct (updatedCsv c k f text) as [updated|e].
    + cbn [writable trace files network].
      destruct (writable w csvPath); intros [= _ <-];
        exists [EvWriteFile csvPath; EvReadFile csvPath]; reflexivity.
    + intros [= _ <-]. exists [EvReadFile csvPath]. reflexivity.
  - intros [= _ <-]. exists [EvReadFile csvPath]. reflexivity.
Qed.

(** C8. A request to persist in which city, country, image id or image URL
    is empty once trimmed is answered with an error and leaves the world as
    it was: no request is made, no file is read or written, the CSV file is
    untouched. *)
Theorem missing_fields_rejected (prevState : ActionState) (formData : FormData) (w : World) :
  formField (js "city") formData = [] \/ formField (js "country") formData = []
  \/ formField (js "imageId") formData = [] \/ formField (js "imageUrl") formData = [] ->
  downloadImageAndUpdateCsv prevState formData w
  = (Ok {| status := error; message := Some (js "Missing required fields");
           filename := None |}, w).
Proof.
  intros Hmissing. unfold downloadImageAndUpdateCsv, tryCatch.
  assert (E : isEmpty (formField (js "city") formData)
              || isEmpty (formField (js "country") formData)
              || isEmpty (formField (js "imageUrl") formData)
              || isEmpty (formField (js "imageId") formData) = true).
  { unfold isEmpty. destruct Hmissing as [-> | [-> | [-> | ->]]];
      rewrite ?orb_true_r; reflexivity. }
  rewrite E. reflexivity.
Qed.

(** C9. The slug is a function of its input, and a slug of a city, a hyphen
    and a slug of a country hold letters, digits and hyphens only: no white
    space, no underscore, no other punctuation.  Slugging is what the
    specification says: the input is lower-cased and decomposed (NFKD); every
    unit that is no word character, white space or hyphen is removed, the
    combining marks that the decomposition splits off accented letters among
    them; the rest is trimmed and its pieces between runs of white space and
    underscores are joined by single hyphens.  So a decomposed input of
    letters, digits and hyphens is its own slug, a unit outside the three
    classes leaves no trace, and two words with a run of white space and
    underscores between them give the words with one hyphen between them;
    the letters and digits of a slug are units of the lower-cased,
    decomposed input.  On the reference platform the slugs of São  Paulo!
    (with two spaces) and of Brazil give sao-paulo-brazil.  The sanitized id
    is the id without the units outside [A-Za-z0-9_-], the others kept in
    order.  A pick that succeeds names its file
    slug(city)-slug(country)-id.ext with the sanitized id, which is not
    empty, and writes it below public/downloads. *)
Theorem slug_and_filename_shape :
  (forall a b : jsstring, a = b -> toSlug a = toSlug b)
  /\ (forall city country,
        Forall (fun c => slugUnit c = true /\ isWhiteSpace c = false /\ c <> underscore)
          (toSlug city ++ [hyphen] ++ toSlug country))
  /\ (forall s, toSlug s = slugOfNormalized (normalizeNFKD (toLowerCase s)))
  /\ (forall s,
        Forall (fun c => slugUnit c = true) (normalizeNFKD (toLowerCase s)) ->
        toSlug s = normalizeNFKD (toLowerCase s))
  /\ (forall s a b c,
        normalizeNFKD (toLowerCase s) = a ++ [c] ++ b -> slugKept c = false ->
        toSlug s = slugOfNormalized (a ++ b))
  /\ (forall c, combiningMark c = true -> slugKept c = false)
  /\ (forall s w1 run w2,
        normalizeNFKD (toLowerCase s) = w1 ++ run ++ w2 ->
        Forall (fun c => slugUnit c = true) w1 -> w1 <> [] ->
        Forall (fun c => collapsed c = true) run -> run <> [] ->
        Forall (fun c => slugUnit c = true) w2 -> w2 <> [] ->
        toSlug s = w1 ++ [hyphen] ++ w2)
  /\ (forall s c,
        c ∈ toSlug s ->
        c = hyphen \/ (slugUnit c = true /\ c ∈ normalizeNFKD (toLowerCase s)))
  /\ (forall run rest,
        run <> [] -> forallb isSeparator run = true ->
        (forall c rest', rest = c :: rest' -> isSeparator c = false) ->
        hyphenate false (run ++ rest) = hyphen :: hyphenate false rest)
  /\ @toSlug latin1Platform (js "S" ++ [0xE3] ++ js "o  Paulo!") ++ [hyphen]
       ++ @toSlug latin1Platform (js "Brazil")
     = js "sao-paulo-brazil"
  /\ (forall imageIdRaw,
        sanitizeId imageIdRaw = List.filter sanitizedIdUnit imageIdRaw
        /\ Forall (fun c => sanitizedIdUnit c = true) (sanitizeId imageIdRaw)
        /\ (Forall (fun c => sanitizedIdUnit c = true) imageIdRaw ->
            sanitizeId imageIdRaw = imageIdRaw))
  /\ (forall prevState formData w st w',
        downloadImageAndUpdateCsv prevState formData w = (Ok st, w') ->
        status st = success ->
        let name :=
          (toSlug (formField (js "city") formData) ++ [hyphen]
             ++ toSlug (formField (js "country") formData) ++ [hyphen]
             ++ List.filter sanitizedIdUnit (formField (js "imageId") formData))
          ++ [dot] ++ getFileExtensionFromUrl (formField (js "imageUrl") formData) in
        filename st = Some name
        /\ List.filter sanitizedIdUnit (formField (js "imageId") formData) <> []
        /\ EvWriteFile (downloadsDir ++ [slash] ++ name) ∈ trace w').
Proof.
  split; [intros a b ->; reflexivity|].
  split.
  { intros city country.
    assert (Hall : Forall (fun c => slugUnit c = true)
                     (toSlug city ++ [hyphen] ++ toSlug country)).
    { apply Forall_app. split; [apply toSlug_units|].
      apply Forall_app. split; [repeat constructor | apply toSlug_units]. }
    eapply Forall_impl; [exact Hall|]. intros c Hc.
    split; [exact Hc | apply slugUnit_not_space, Hc]. }
  split; [exact toSlug_refines|].
  split; [exact toSlug_keeps|].
  split; [intros s a b c; apply toSlug_removes|].
  split; [exact combiningMark_dropped|].
  split; [exact toSlug_collapses|].
  split; [exact toSlug_elem|].
  split; [exact hyphenate_run|].
  split; [vm_compute; reflexivity|].
  split.
  { intros imageIdRaw. rewrite sanitizeId_filter. split; [reflexivity|]. split.
    - apply Forall_forall. intros c Hc. apply list_elem_of_In, filter_In in Hc. tauto.
    - apply filter_keeps_all. }
  intros prevState formData w st w' E Hs name.
  unfold downloadImageAndUpdateCsv, tryCatch in E.
  destruct (isEmpty _ || isEmpty _ || isEmpty _ || isEmpty _).
  { injection E as <- _. discriminate Hs. }
  destruct (isEmpty (sanitizeId _)) eqn:Eid.
  { injection E as <- _. discriminate Hs. }
  destruct (bindIO _ _ w) as [[a|e] w1] eqn:Em; [|injection E as <- _; discriminate Hs].
  injection E as <- <-.
  apply bindIO_Ok in Em as (name' & w2 & Hdl & Em).
  apply bindIO_Ok in Em as (u & w3 & Hup & Em).
  unfold ret in Em. injection Em as <- <-.
  destruct (downloadImageToPublic_Ok _ _ _ _ _ Hdl) as [-> Htr].
  split; [reflexivity|]. split.
  - unfold isEmpty in Eid. apply bool_decide_eq_false in Eid. exact Eid.
  - destruct (updateCsvWithFilename_trace _ _ _ _ _ _ Hup) as [evs ->].
    apply elem_of_app. right. rewrite Htr. left.
Qed.

End Action.

(** A country of blanks only. *)
Lemma missing_fields_witness :
  @downloadImageAndUpdateCsv latin1Platform
    {| status := idle; message := None; filename := None |}
    (formOf (js "Rome") (js "   ") (js "9") (js "https://example.com/rome.jpg"))
    (worldWith (js "city,country,filename") (js "image"))
  = (Ok {| status := error; message := Some (js "Missing required fields");
           filename := None |},
     worldWith (js "city,country,filename") (js "image")).
Proof.
  apply (@missing_fields_rejected latin1Platform). right. left.
  vm_compute. reflexivity.
Defined.

(** São Paulo, Brazil. *)
Example slug_sao_paulo :
  @toSlug latin1Platform (js "S" ++ [0xE3] ++ js "o Paulo") ++ [hyphen]
    ++ @toSlug latin1Platform (js "Brazil")
  = js "sao-paulo-brazil".
Proof. vm_compute. reflexivity. Qed.

(** A pick that succeeds: the file is written under its name and the row of
    the CSV file receives the name. *)
Example pick_succeeds :
  let w := worldWith (joinWith [LF] (tbl ["city,country,type,filename"; "Rome,Italy,city,"]))
             (js "image") in
  let out := @downloadImageAndUpdateCsv latin1Platform
               {| status := idle; message := None; filename := None |}
               (formOf (js "Rome") (js "Italy") (js "9") (js "https://example.com/a/rome.JPG?w=1"))
               w in
  fst out = Ok {| status := success; message := Some (js "Downloaded and CSV updated");
                  filename := Some (js "rome-italy-9.jpg") |}
  /\ files (snd out) !! js "public/downloads/rome-italy-9.jpg" = Some (js "image")
  /\ files (snd out) !! csvPath
     = Some (joinWith [LF] (tbl ["city,country,type,filename";
                                 "Rome,Italy,city,rome-italy-9.jpg"])).
Proof. vm_compute. auto. Qed.

(** ** The file extension *)

(** The extension is jpg when the URL is refused by the parser, and when the
    last segment of its path has no dot. *)
Lemma extension_defaults `{Platform} (url : jsstring) :
  (URL_pathname url = None -> getFileExtensionFromUrl url = js "jpg")
  /\ (forall pathname,
        URL_pathname url = Some pathname ->
        dot ∉ List.hd [] (splitOn question (List.last (splitOn slash pathname) [])) ->
        getFileExtensionFromUrl url = js "jpg").
Proof.
  unfold getFileExtensionFromUrl. split.
  - intros ->. reflexivity.
  - intros pathname -> Hdot. rewrite (splitOn_nosep _ _ Hdot). reflexivity.
Qed.

(** C10. A URL whose last path segment ends with a dot: the extension is the
    empty string, not the default, and the file is written under a name that
    ends with the dot. *)
Lemma extension_empty_after_trailing_dot :
  @getFileExtensionFromUrl latin1Platform (js "https://example.com/photo.") = []
  /\ fst (@downloadImageToPublic latin1Platform (js "https://example.com/photo.")
            (js "rome-italy-9") (worldWith (js "city,country,filename") (js "image")))
     = Ok (js "rome-italy-9.")
  /\ files (snd (@downloadImageToPublic latin1Platform (js "https://example.com/photo.")
                   (js "rome-italy-9") (worldWith (js "city,country,filename") (js "image"))))
       !! js "public/downloads/rome-italy-9."
     = Some (js "image").
Proof. vm_compute. auto. Qed.

(** * Further properties *)

(** ** actions.ts: lines and fields *)

(** X1. A line and its fields round-trip: splitting any line into fields and
    joining them again gives the line back, and joining fields and splitting
    the result gives the fields back exactly when there is at least one
    field and no field holds a comma (the format has no quoting). *)
Theorem csv_line_round_trip (line : jsstring) (fields : list jsstring) :
  stringifyCsvLine (parseCsvLine line) = line
  /\ (parseCsvLine (stringifyCsvLine fields) = fields
      <-> fields <> [] /\ Forall (fun f => comma ∉ f) fields).
Proof.
  unfold parseCsvLine, stringifyCsvLine. split; [apply join_splitOn|]. split.
  - intros E. split.
    + intros ->. discriminate E.
    + rewrite <- E. apply splitOn_no_sep.
  - intros [Hne Hall]. apply splitOn_join; assumption.
Qed.

Section Frame.
Context `{Platform}.

(** X2. The update changes one row at most.  Under any header of two columns
    or more it succeeds; the first line written is the header joined again
    (the first line as it was when no column was added), and either the
    table keeps its length and every row but one keeps its text, or it is
    one row longer and every row keeps its text. *)
Theorem update_rewrites_one_row (city country filename line0 : jsstring)
    (rows header : list jsstring) (fi : nat) :
  headerWithFilename line0 = (header, fi) -> (2 <= length header)%nat ->
  exists lines',
    updateLines city country filename (line0 :: rows) = Ok lines'
    /\ lines' !! 0%nat = Some (stringifyCsvLine header)
    /\ (header = parseCsvLine line0 -> lines' !! 0%nat = Some line0)
    /\ ((length lines' = length (line0 :: rows)
         /\ exists i, (i < length rows)%nat
                      /\ forall j, j <> i -> lines' !! S j = rows !! j)
        \/ (length lines' = S (length (line0 :: rows))
            /\ forall j, (j < length rows)%nat -> lines' !! S j = rows !! j)).
Proof.
  intros Hh Hlen.
  rewrite (updateLines_policy city country filename line0 rows header fi Hh Hlen).
  eexists. split; [reflexivity|]. split; [reflexivity|].
  split; [intros ->; simpl; f_equal; unfold stringifyCsvLine, parseCsvLine; apply join_splitOn|].
  unfold applyPolicy.
  assert (Hfound : forall i raw,
            rowStatus (length header) fi city country rows = FoundEmpty i raw
            \/ rowStatus (length header) fi city country rows = FoundFilled i raw ->
            rows !! i = Some raw).
  { unfold rowStatus. intros i raw.
    destruct (findRow (fun r => _ && _) rows) as [[n x]|] eqn:E1.
    - intros [[= <- <-]|[=]]. apply findRow_Some in E1. tauto.
    - destruct (findRow (rowMatches _ city country) rows) as [[n x]|] eqn:E2.
      + intros [[=]|[= <- <-]]. apply findRow_Some in E2. tauto.
      + intros [[=]|[=]]. }
  destruct (rowStatus (length header) fi city country rows) as [|i raw|i raw] eqn:Es.
  - right. split; [simpl; rewrite length_app; simpl; lia|].
    intros j Hj. simpl. apply lookup_app_l, Hj.
  - left. pose proof (Hfound i raw (or_introl eq_refl)) as Hl.
    split; [simpl; rewrite length_insert; reflexivity|].
    exists i. split; [apply (lookup_lt_Some _ _ _ Hl)|].
    intros j Hj. simpl. apply list_lookup_insert_ne. congruence.
  - left. pose proof (Hfound i raw (or_intror eq_refl)) as Hl.
    split; [simpl; rewrite length_insert; reflexivity|].
    exists i. split; [apply (lookup_lt_Some _ _ _ Hl)|].
    intros j Hj. simpl. apply list_lookup_insert_ne. congruence.
Qed.

End Frame.

Lemma update_rewrites_one_row_witness :
  exists lines',
    @updateLines latin1Platform (js "Rome") (js "Italy") (js "x.jpg")
      (tbl ["City , Country,Filename"; "Paris,France,p.jpg"; "Rome,Italy,"]) = Ok lines'
    /\ lines' !! 0%nat = Some (js "City , Country,Filename").
Proof.
  destruct (@update_rewrites_one_row latin1Platform (js "Rome") (js "Italy") (js "x.jpg")
              (js "City , Country,Filename") (tbl ["Paris,France,p.jpg"; "Rome,Italy,"])
              (tbl ["City "; " Country"; "Filename"]) 2%nat)
    as (lines' & Hup & _ & H0 & _).
  - vm_compute. reflexivity.
  - simpl. lia.
  - exists lines'. split; [exact Hup|]. apply H0. vm_compute. reflexivity.
Defined.

(** ** actions.ts: the update that throws, and line ends *)

Lemma scanRows_blank (hl fi : nat) (c k f : jsstring) (blanks rest : list jsstring) :
  forall i st,
    Forall (fun r => isBlank r = true) blanks ->
    scanRows hl fi c k f i (blanks ++ rest) st
    = scanRows hl fi c k f (i + length blanks)%nat rest st.
Proof.
  induction blanks as [|b blanks IH]; intros i st Hall.
  - simpl. rewrite Nat.add_0_r. reflexivity.
  - inversion Hall as [|? ? Hb Hrest]; subst.
    change ((b :: blanks) ++ rest) with (b :: (blanks ++ rest)).
    rewrite scanRows_cons, Hb, IH by exact Hrest. f_equal. simpl. lia.
Qed.

Section Throws.
Context `{Platform}.

(** X3. A header that is the single column filename: the first row that is
    not blank and has no comma is padded to one field only, reading its
    second field gives undefined and the update throws a TypeError, after
    the read and before any write. *)
Theorem update_throws_under_lone_filename_header (city country filename original h raw : jsstring)
    (blanks rest : list jsstring) (w : World) :
  files w !! csvPath = Some original ->
  splitLines original = h :: blanks ++ raw :: rest ->
  comma ∉ h -> toLowerCase (trim h) = js "filename" ->
  Forall (fun r => isBlank r = true) blanks ->
  isBlank raw = false -> comma ∉ raw ->
  updateCsvWithFilename city country filename w
  = (Throw typeErrorTrim, logEvent (EvReadFile csvPath) w).
Proof.
  intros Hfile Hsplit Hh Hname Hblanks Hraw Hcomma.
  unfold updateCsvWithFilename, bindIO, readFile. rewrite Hfile.
  unfold liftR, updatedCsv. rewrite Hsplit.
  assert (Hhead : headerWithFilename h = ([h], 0%nat)).
  { unfold headerWithFilename.
    unfold parseCsvLine. rewrite (splitOn_nosep _ _ Hh). unfold normalizeHeader.
    cbn [map]. rewrite Hname. reflexivity. }
  unfold updateLines. rewrite Hhead.
  change (drop 1 (h :: blanks ++ raw :: rest)) with (blanks ++ raw :: rest).
  rewrite scanRows_blank by exact Hblanks.
  rewrite scanRows_cons, Hraw. unfold rowFields, parseCsvLine.
  rewrite (splitOn_nosep _ _ Hcomma). reflexivity.
Qed.

(** X4. Line ends are normalised: from a file whose lines hold no carriage
    return once split (CRLF line ends are consumed by the split), and a key
    and filename without one, the file written holds no carriage return. *)
Theorem update_writes_no_carriage_return (city country filename original line0 : jsstring)
    (rows header : list jsstring) (fi : nat) :
  splitLines original = line0 :: rows ->
  headerWithFilename line0 = (header, fi) -> (2 <= length header)%nat ->
  Forall (fun l => CR ∉ l) (line0 :: rows) ->
  CR ∉ city -> CR ∉ country -> CR ∉ filename ->
  exists updated,
    updatedCsv city country filename original = Ok updated /\ CR ∉ updated.
Proof.
  intros Hsplit Hh Hlen Hcr Hc Hk Hf.
  inversion Hcr as [|? ? Hcr0 Hcrr]; subst.
  unfold updatedCsv. rewrite Hsplit.
  rewrite (updateLines_policy city country filename line0 rows header fi Hh Hlen).
  eexists. split; [reflexivity|].
  apply joinWith_not_elem; [discriminate|]. constructor.
  - apply (header_not_elem CR _ _ _ Hh); auto.
  - unfold applyPolicy.
    assert (Hfound : forall i raw, raw ∈ rows ->
              Forall (fun l => CR ∉ l)
                (<[i := withFilename (length header) fi filename raw]> rows)).
    { intros i raw Hin. apply Forall_insert; [exact Hcrr|].
      apply withFilename_not_elem; [discriminate | | exact Hf].
      rewrite Forall_forall in Hcrr. apply Hcrr, Hin. }
    unfold rowStatus.
    destruct (findRow (fun r => _ && _) rows) as [[n x]|] eqn:E1.
    { apply findRow_Some in E1 as (Hl & _). apply Hfound.
      apply (list_elem_of_lookup_2 _ _ _ Hl). }
    destruct (findRow (rowMatches _ city country) rows) as [[n x]|] eqn:E2.
    { apply findRow_Some in E2 as (Hl & _). apply Hfound.
      apply (list_elem_of_lookup_2 _ _ _ Hl). }
    apply Forall_app. split; [exact Hcrr|]. repeat constructor.
    apply joinWith_not_elem; [discriminate|]. unfold newRowFields.
    apply Forall_insert; [|exact Hf]. apply Forall_app. split.
    + repeat constructor; [exact Hc | exact Hk | apply not_elem_of_nil].
    + apply Forall_replicate, not_elem_of_nil.
Qed.

End Throws.

Lemma update_throws_witness :
  @updateCsvWithFilename latin1Platform (js "Rome") (js "Italy") (js "x.jpg")
    (worldWith (joinWith [LF] (tbl ["Filename"; ""; "done"; "Rome,Italy"])) [])
  = (Throw typeErrorTrim,
     logEvent (EvReadFile csvPath)
       (worldWith (joinWith [LF] (tbl ["Filename"; ""; "done"; "Rome,Italy"])) [])).
Proof.
  apply (@update_throws_under_lone_filename_header latin1Platform _ _ _
           (joinWith [LF] (tbl ["Filename"; ""; "done"; "Rome,Italy"]))
           (js "Filename") (js "done") [[]] (tbl ["Rome,Italy"])).
  - vm_compute. reflexivity.
  - vm_compute. reflexivity.
  - refine (bool_decide_unpack _ _). vm_compute. exact I.
  - vm_compute. reflexivity.
  - repeat constructor.
  - vm_compute. reflexivity.
  - refine (bool_decide_unpack _ _). vm_compute. exact I.
Defined.

Lemma update_writes_no_carriage_return_witness :
  exists updated,
    @updatedCsv latin1Platform (js "Rome") (js "Italy") (js "x.jpg")
      (js "city,country,filename" ++ [CR; LF] ++ js "Rome,Italy," ++ [CR; LF]) = Ok updated
    /\ CR ∉ updated.
Proof.
  apply (@update_writes_no_carriage_return latin1Platform _ _ _ _
           (js "city,country,filename") (tbl ["Rome,Italy,"; ""])
           (tbl ["city"; "country"; "filename"]) 2%nat).
  - vm_compute. reflexivity.
  - vm_compute. reflexivity.
  - simpl. lia.
  - repeat constructor; refine (bool_decide_unpack _ _); vm_compute; exact I.
  - refine (bool_decide_unpack _ _). vm_compute. exact I.
  - refine (bool_decide_unpack _ _). vm_compute. exact I.
  - refine (bool_decide_unpack _ _). vm_compute. exact I.
Defined.

(** ** actions.ts: the runs of the form action *)

Lemma bindIO_run {A B} (m : IO A) (k : A -> IO B) (w w1 : World) (a : A) :
  m w = (Ok a, w1) -> bindIO m k w = k a w1.
Proof. intros E. unfold bindIO. rewrite E. reflexivity. Qed.

Lemma bindIO_throw {A B} (m : IO A) (k : A -> IO B) (w w1 : World) (e : jsstring) :
  m w = (Throw e, w1) -> bindIO m k w = (Throw e, w1).
Proof. intros E. unfold bindIO. rewrite E. reflexivity. Qed.

Lemma isEmpty_false (s : jsstring) : s <> [] -> isEmpty s = false.
Proof. intros Hs. unfold isEmpty. apply bool_decide_eq_false_2, Hs. Qed.

Section Runs.
Context `{Platform}.

Lemma form_guard_passes (formData : FormData) :
  formComplete formData ->
  isEmpty (formField (js "city") formData) || isEmpty (formField (js "country") formData)
  || isEmpty (formField (js "imageUrl") formData)
  || isEmpty (formField (js "imageId") formData) = false.
Proof.
  intros (Hc & Hk & Hu & Hi). rewrite !isEmpty_false by assumption. reflexivity.
Qed.

(** The download up to the answer of the server. *)
Lemma download_fetches (imageUrl baseName : jsstring) (w : World) (res : Response) :
  writable w downloadsDir = true -> network w imageUrl = Some res ->
  downloadImageToPublic imageUrl baseName w
  = (if negb (res_ok res) then throw (downloadFailure res)
     else
       bindIO (writeFile (downloadsDir ++ [slash] ++ baseName ++ [dot]
                            ++ getFileExtensionFromUrl imageUrl) (res_body res))
         (fun _ => ret (baseName ++ [dot] ++ getFileExtensionFromUrl imageUrl)))
      (logEvent (EvFetch imageUrl) (logEvent (EvMkdir downloadsDir) w)).
Proof.
  intros Hdir Hnet. unfold downloadImageToPublic, ensureDir.
  rewrite (bindIO_run _ _ w (logEvent (EvMkdir downloadsDir) w) tt)
    by (unfold mkdir; rewrite Hdir; reflexivity).
  rewrite (bindIO_run _ _ _ (logEvent (EvFetch imageUrl) (logEvent (EvMkdir downloadsDir) w))
             res)
    by (unfold fetch; cbn [logEvent network]; rewrite Hnet; reflexivity).
  reflexivity.
Qed.

(** X5. An image id with no letter, digit, underscore or hyphen in it is
    refused with "Invalid image id" before any effect: nothing is fetched and
    no file is read or written. *)
Theorem invalid_image_id_rejected (prevState : ActionState) (formData : FormData) (w : World) :
  formComplete formData ->
  sanitizeId (formField (js "imageId") formData) = [] ->
  downloadImageAndUpdateCsv prevState formData w
  = (Ok {| status := error; message := Some (js "Invalid image id"); filename := None |}, w).
Proof.
  intros Hform Hid. unfold downloadImageAndUpdateCsv, tryCatch.
  rewrite (form_guard_passes _ Hform), Hid. reflexivity.
Qed.

(** X6. When the server of the image answers with a status that is not ok,
    the action reports "Failed to download image: <status> <statusText>",
    and no file is written or read: the downloads directory has been made
    and the URL fetched, and the files are as before. *)
Theorem failed_download_leaves_files (prevState : ActionState) (formData : FormData)
    (w : World) (res : Response) :
  formComplete formData ->
  sanitizeId (formField (js "imageId") formData) <> [] ->
  writable w downloadsDir = true ->
  network w (formField (js "imageUrl") formData) = Some res ->
  res_ok res = false ->
  downloadImageAndUpdateCsv prevState formData w
  = (Ok {| status := error; message := Some (downloadFailure res); filename := None |},
     {| files := files w; network := network w; writable := writable w;
        trace := EvFetch (formField (js "imageUrl") formData)
                   :: EvMkdir downloadsDir :: trace w |}).
Proof.
  intros Hform Hid Hdir Hnet Hok. unfold downloadImageAndUpdateCsv, tryCatch.
  rewrite (form_guard_passes _ Hform), (isEmpty_false _ Hid).
  rewrite (bindIO_throw _ _ w
             (logEvent (EvFetch (formField (js "imageUrl") formData))
                (logEvent (EvMkdir downloadsDir) w)) (downloadFailure res)).
  - reflexivity.
  - rewrite (download_fetches _ _ _ _ Hdir Hnet), Hok. reflexivity.
Qed.

(** X7. A complete pick in a world that answers and can be written: the
    action reports success with the file name slug(city)-slug(country)-id.ext,
    the body of the response is stored under public/downloads with that name,
    the CSV file holds the update for (city, country, file name), and the
    effects are, in order: mkdir, fetch, write of the image, read and write
    of the CSV file. *)
Theorem pick_downloads_and_records (prevState : ActionState) (formData : FormData)
    (w : World) (res : Response) (original updated : jsstring) :
  formComplete formData ->
  sanitizeId (formField (js "imageId") formData) <> [] ->
  (forall path, writable w path = true) ->
  network w (formField (js "imageUrl") formData) = Some res ->
  res_ok res = true ->
  files w !! csvPath = Some original ->
  updatedCsv (formField (js "city") formData) (formField (js "country") formData)
    (pickedFilename formData) original = Ok updated ->
  exists w',
    downloadImageAndUpdateCsv prevState formData w
    = (Ok {| status := success; message := Some (js "Downloaded and CSV updated");
             filename := Some (pickedFilename formData) |}, w')
    /\ files w' = <[csvPath := updated]>
                    (<[downloadsDir ++ [slash] ++ pickedFilename formData := res_body res]>
                       (files w))
    /\ trace w' = [EvWriteFile csvPath; EvReadFile csvPath;
                   EvWriteFile (downloadsDir ++ [slash] ++ pickedFilename formData);
                   EvFetch (formField (js "imageUrl") formData); EvMkdir downloadsDir]
                  ++ trace w.
Proof.
  intros Hform Hid Hwr Hnet Hok Hfile Hup.
  unfold downloadImageAndUpdateCsv, tryCatch.
  rewrite (form_guard_passes _ Hform), (isEmpty_false _ Hid).
  fold (pickedFilename formData).
  set (name := pickedFilename formData) in *.
  set (w2 := logEvent (EvFetch (formField (js "imageUrl") formData))
               (logEvent (EvMkdir downloadsDir) w)).
  set (w3 := {| files := <[downloadsDir ++ [slash] ++ name := res_body res]> (files w2);
                network := network w2; writable := writable w2;
                trace := EvWriteFile (downloadsDir ++ [slash] ++ name) :: trace w2 |}).
  assert (Hdl : downloadImageToPublic (formField (js "imageUrl") formData)
                  (toSlug (formField (js "city") formData) ++ [hyphen]
                     ++ toSlug (formField (js "country") formData) ++ [hyphen]
                     ++ sanitizeId (formField (js "imageId") formData)) w
                = (Ok name, w3)).
  { rewrite (download_fetches _ _ _ _ (Hwr _) Hnet), Hok. cbn [negb].
    fold w2. unfold bindIO, writeFile.
    replace (writable w2) with (writable w) by reflexivity. rewrite Hwr. reflexivity. }
  rewrite (bindIO_run _ _ _ _ _ Hdl).
  assert (Hcsv : updateCsvWithFilename (formField (js "city") formData)
                   (formField (js "country") formData) name w3
                 = (Ok tt,
                    {| files := <[csvPath := updated]> (files w3); network := network w3;
                       writable := writable w3;
                       trace := EvWriteFile csvPath :: EvReadFile csvPath :: trace w3 |})).
  { unfold updateCsvWithFilename, bindIO, readFile.
    assert (Hread : files w3 !! csvPath = Some original).
    { unfold w3, w2. cbn [files logEvent]. rewrite lookup_insert_ne; [exact Hfile|].
      vm_compute. discriminate. }
    rewrite Hread. unfold liftR. rewrite Hup. unfold writeFile.
    replace (writable (logEvent (EvReadFile csvPath) w3)) with (writable w) by reflexivity.
    rewrite Hwr. reflexivity. }
  rewrite (bindIO_run _ _ _ _ _ Hcsv). unfold ret.
  eexists. split; [reflexivity|]. split; reflexivity.
Qed.

End Runs.

Section Runs2.
Context `{Platform}.

(** X8. The download is not undone when the update fails.  If the CSV file
    is missing or the update throws, the action reports an error, and the
    image written just before stays under public/downloads; no other file
    has changed. *)
Theorem failed_update_keeps_download (prevState : ActionState) (formData : FormData)
    (w : World) (res : Response) :
  formComplete formData ->
  sanitizeId (formField (js "imageId") formData) <> [] ->
  (forall path, writable w path = true) ->
  network w (formField (js "imageUrl") formData) = Some res ->
  res_ok res = true ->
  (files w !! csvPath = None
   \/ exists original e,
        files w !! csvPath = Some original
        /\ updatedCsv (formField (js "city") formData) (formField (js "country") formData)
             (pickedFilename formData) original = Throw e) ->
  exists e w',
    downloadImageAndUpdateCsv prevState formData w
    = (Ok {| status := error; message := Some e; filename := None |}, w')
    /\ files w' = <[downloadsDir ++ [slash] ++ pickedFilename formData := res_body res]>
                    (files w).
Proof.
  intros Hform Hid Hwr Hnet Hok Hcsv.
  unfold downloadImageAndUpdateCsv, tryCatch.
  rewrite (form_guard_passes _ Hform), (isEmpty_false _ Hid).
  fold (pickedFilename formData).
  set (name := pickedFilename formData) in *.
  set (w2 := logEvent (EvFetch (formField (js "imageUrl") formData))
               (logEvent (EvMkdir downloadsDir) w)).
  set (w3 := {| files := <[downloadsDir ++ [slash] ++ name := res_body res]> (files w2);
                network := network w2; writable := writable w2;
                trace := EvWriteFile (downloadsDir ++ [slash] ++ name) :: trace w2 |}).
  assert (Hdl : downloadImageToPublic (formField (js "imageUrl") formData)
                  (toSlug (formField (js "city") formData) ++ [hyphen]
                     ++ toSlug (formField (js "country") formData) ++ [hyphen]
                     ++ sanitizeId (formField (js "imageId") formData)) w
                = (Ok name, w3)).
  { rewrite (download_fetches _ _ _ _ (Hwr _) Hnet), Hok. cbn [negb].
    fold w2. unfold bindIO, writeFile.
    replace (writable w2) with (writable w) by reflexivity. rewrite Hwr. reflexivity. }
  rewrite (bindIO_run _ _ _ _ _ Hdl).
  assert (Hread : files w3 !! csvPath = files w !! csvPath).
  { unfold w3, w2. cbn [files logEvent]. apply lookup_insert_ne.
    vm_compute. discriminate. }
  assert (Hthrow : exists e,
            updateCsvWithFilename (formField (js "city") formData)
              (formField (js "country") formData) name w3
            = (Throw e, logEvent (EvReadFile csvPath) w3)).
  { unfold updateCsvWithFilename, bindIO, readFile. rewrite Hread.
    destruct Hcsv as [->|(original & e & -> & Hup)]; [eauto|].
    unfold liftR. rewrite Hup. eauto. }
  destruct Hthrow as [e Hthrow]. rewrite (bindIO_throw _ _ _ _ _ Hthrow).
  exists e. eexists. split; reflexivity.
Qed.

(** X9. The action never rejects.  Whatever the form and the world, it
    returns a state: success with the name of the file written, or error
    with a message and no file name. *)
Theorem action_reports_every_failure (prevState : ActionState) (formData : FormData)
    (w : World) :
  exists st w',
    downloadImageAndUpdateCsv prevState formData w = (Ok st, w')
    /\ ((status st = success /\ filename st = Some (pickedFilename formData))
        \/ (status st = error /\ filename st = None /\ message st <> None)).
Proof.
  unfold downloadImageAndUpdateCsv, tryCatch.
  destruct (isEmpty _ || isEmpty _ || isEmpty _ || isEmpty _).
  { eexists _, _. split; [reflexivity|]. right. repeat split. discriminate. }
  destruct (isEmpty (sanitizeId _)).
  { eexists _, _. split; [reflexivity|]. right. repeat split. discriminate. }
  destruct (bindIO _ _ w) as [[a|e] w1] eqn:E.
  - apply bindIO_Ok in E as (name & w2 & Hdl & E).
    apply bindIO_Ok in E as (u & w3 & Hup & E).
    unfold ret in E. injection E as <- <-.
    destruct (downloadImageToPublic_Ok _ _ _ _ _ Hdl) as [-> _].
    eexists _, _. split; [reflexivity|]. left. split; reflexivity.
  - eexists _, _. split; [reflexivity|]. right. repeat split. discriminate.
Qed.

End Runs2.

Ltac closed := vm_compute; first [reflexivity | discriminate | exact I].

Ltac form_complete := unfold formComplete; repeat split; closed.

Lemma invalid_image_id_witness :
  @downloadImageAndUpdateCsv latin1Platform
    {| status := idle; message := None; filename := None |}
    (romeForm "#!/") (worldAnswering imageResponse None)
  = (Ok {| status := error; message := Some (js "Invalid image id"); filename := None |},
     worldAnswering imageResponse None).
Proof.
  apply (@invalid_image_id_rejected latin1Platform); [form_complete | closed].
Defined.

Lemma failed_download_witness :
  fst (@downloadImageAndUpdateCsv latin1Platform
         {| status := idle; message := None; filename := None |}
         (romeForm "9") (worldAnswering notFound None))
  = Ok {| status := error; message := Some (js "Failed to download image: 404 Not Found");
          filename := None |}.
Proof.
  refine (eq_trans (f_equal fst
    (@failed_download_leaves_files latin1Platform _ (romeForm "9")
       (worldAnswering notFound None) notFound _ _ _ _ _)) _).
  - form_complete.
  - closed.
  - reflexivity.
  - reflexivity.
  - reflexivity.
  - closed.
Defined.

Lemma pick_downloads_witness :
  exists w',
    @downloadImageAndUpdateCsv latin1Platform
      {| status := idle; message := None; filename := None |}
      (romeForm "9")
      (worldAnswering imageResponse
         (Some (joinWith [LF] (tbl ["city,country,type,filename"; "Rome,Italy,city,"]))))
    = (Ok {| status := success; message := Some (js "Downloaded and CSV updated");
             filename := Some (js "rome-italy-9.jpg") |}, w').
Proof.
  destruct (@pick_downloads_and_records latin1Platform
              {| status := idle; message := None; filename := None |} (romeForm "9")
              (worldAnswering imageResponse
                 (Some (joinWith [LF] (tbl ["city,country,type,filename"; "Rome,Italy,city,"]))))
              imageResponse
              (joinWith [LF] (tbl ["city,country,type,filename"; "Rome,Italy,city,"]))
              (joinWith [LF] (tbl ["city,country,type,filename";
                                   "Rome,Italy,city,rome-italy-9.jpg"])))
    as (w' & Hrun & _).
  - form_complete.
  - closed.
  - reflexivity.
  - reflexivity.
  - reflexivity.
  - closed.
  - closed.
  - exists w'. rewrite Hrun. reflexivity.
Defined.

Lemma failed_update_witness :
  exists e w',
    @downloadImageAndUpdateCsv latin1Platform
      {| status := idle; message := None; filename := None |}
      (romeForm "9") (worldAnswering imageResponse None)
    = (Ok {| status := error; message := Some e; filename := None |}, w')
    /\ files w' !! js "public/downloads/rome-italy-9.jpg" = Some (js "image").
Proof.
  destruct (@failed_update_keeps_download latin1Platform
              {| status := idle; message := None; filename := None |} (romeForm "9")
              (worldAnswering imageResponse None) imageResponse)
    as (e & w' & Hrun & Hfiles).
  - form_complete.
  - closed.
  - reflexivity.
  - reflexivity.
  - reflexivity.
  - left. closed.
  - exists e, w'. split; [exact Hrun|]. rewrite Hfiles. closed.
Defined.

(** ** actions.ts: ids, extensions and names *)

Lemma string_of_uint_digits (u : Decimal.uint) :
  Forall (fun c => isDigit c = true) (js (NilEmpty.string_of_uint u)).
Proof.
  induction u; simpl; [constructor | constructor; [reflexivity | exact IHu]..].
Qed.

Lemma string_of_uint_nonempty (u : Decimal.uint) :
  u <> Decimal.Nil -> js (NilEmpty.string_of_uint u) <> [].
Proof. destruct u; [congruence | discriminate..]. Qed.

(** X10. The id of a Pixabay or Pexels result, a number that the search
    route passes on as [String(id)], goes through the sanitizer of the action
    unchanged and is never refused as invalid. *)
Theorem numeric_id_passes_sanitizer (n : N) :
  n < 10 ^ 21 ->
  sanitizeId (numericId n) = numericId n /\ numericId n <> [].
Proof.
  intros _. unfold numericId, decimal. split.
  - apply filter_keeps_all. eapply Forall_impl; [apply string_of_uint_digits|].
    intros c Hc. simpl in Hc. unfold isWord. rewrite Hc, !orb_true_r. reflexivity.
  - apply string_of_uint_nonempty. destruct n as [|p]; [discriminate|].
    apply Unsigned.to_uint_nonnil.
Qed.

Lemma numeric_id_witness :
  sanitizeId (numericId 52178983) = js "52178983" /\ numericId 52178983 <> [].
Proof. apply (numeric_id_passes_sanitizer 52178983). reflexivity. Defined.

Lemma splitOn_piece_elem (sep c : N) (s p : jsstring) :
  p ∈ splitOn sep s -> c ∈ p -> c ∈ s.
Proof.
  revert p. induction s as [|d s IH]; intros p; simpl.
  - intros ->%list_elem_of_singleton Hc. inversion Hc.
  - destruct (d =? sep).
    + intros [->|Hp]%elem_of_cons Hc; [inversion Hc | right; apply (IH p Hp Hc)].
    + destruct (splitOn sep s) as [|q qs].
      * intros ->%list_elem_of_singleton Hc. apply list_elem_of_singleton in Hc as ->. left.
      * intros [->|Hp]%elem_of_cons Hc.
        -- apply elem_of_cons in Hc as [->|Hc]; [left | right; apply (IH q); [left | exact Hc]].
        -- right. apply (IH p); [right; exact Hp | exact Hc].
Qed.

Lemma last_elem (l : list jsstring) (d : jsstring) : l <> [] -> List.last l d ∈ l.
Proof.
  induction l as [|a l IH]; [congruence|]. intros _.
  destruct l as [|b l]; [left|]. right. apply IH. discriminate.
Qed.

Lemma hd_splitOn_elem (sep : N) (s : jsstring) : List.hd [] (splitOn sep s) ∈ splitOn sep s.
Proof. destruct (splitOn_cons sep s) as (p & ps & ->). left. Qed.

(** The part of the path that the extension is taken from. *)
Lemma extension_source (pathname : jsstring) (c : N) :
  c ∈ List.last (splitOn dot (List.hd [] (splitOn question
                   (List.last (splitOn slash pathname) [])))) [] ->
  c ∈ pathname /\ c <> dot /\ c <> question /\ c <> slash.
Proof.
  set (lastSegment := List.last (splitOn slash pathname) []).
  set (clean := List.hd [] (splitOn question lastSegment)).
  intros Hc.
  assert (Hseg : lastSegment ∈ splitOn slash pathname).
  { apply last_elem. destruct (splitOn_cons slash pathname) as (p & ps & ->). discriminate. }
  assert (Hclean : clean ∈ splitOn question lastSegment) by apply hd_splitOn_elem.
  assert (Hpart : List.last (splitOn dot clean) [] ∈ splitOn dot clean).
  { apply last_elem. destruct (splitOn_cons dot clean) as (p & ps & ->). discriminate. }
  pose proof (splitOn_piece_elem _ _ _ _ Hpart Hc) as Hc1.
  pose proof (splitOn_piece_elem _ _ _ _ Hclean Hc1) as Hc2.
  pose proof (splitOn_piece_elem _ _ _ _ Hseg Hc2) as Hc3.
  split; [exact Hc3|].
  pose proof (splitOn_no_sep dot clean) as Hd.
  pose proof (splitOn_no_sep question lastSegment) as Hq.
  pose proof (splitOn_no_sep slash pathname) as Hs.
  rewrite Forall_forall in Hd, Hq, Hs.
  repeat split; intros ->.
  - apply (Hd _ Hpart Hc).
  - apply (Hq _ Hclean Hc1).
  - apply (Hs _ Hseg Hc2).
Qed.

Lemma isIdUnit_not_slash (c : N) : isIdUnit c = true -> c <> slash.
Proof. intros Hc ->. vm_compute in Hc. discriminate. Qed.

Lemma slugUnit_isIdUnit (c : N) : slugUnit c = true -> isIdUnit c = true.
Proof.
  unfold slugUnit, isIdUnit, isWord.
  destruct (isUpper c), (isLower c), (isDigit c), (c =? hyphen), (c =? underscore);
    simpl; congruence.
Qed.

Lemma lowerAscii_unit (c : N) :
  c <> dot -> c <> question -> c <> slash ->
  lowerAscii c <> dot /\ lowerAscii c <> question /\ lowerAscii c <> slash
  /\ isUpper (lowerAscii c) = false.
Proof.
  intros Hd Hq Hs. unfold lowerAscii, isUpper.
  destruct (N.leb_spec 65 c), (N.leb_spec c 90); simpl.
  - unfold dot, question, slash. repeat split; try lia.
    apply andb_false_iff. right. apply N.leb_gt. lia.
  - repeat split; try assumption. apply andb_false_iff. right. apply N.leb_gt. lia.
  - repeat split; try assumption. apply andb_false_iff. left. apply N.leb_gt. lia.
  - repeat split; try assumption. apply andb_false_iff. left. apply N.leb_gt. lia.
Qed.

Section Names.
Context `{Platform}.

Lemma extension_units (url : jsstring) :
  (forall pathname, URL_pathname url = Some pathname -> forallb isAscii pathname = true) ->
  Forall (fun c => c <> dot /\ c <> question /\ c <> slash /\ isUpper c = false)
    (getFileExtensionFromUrl url).
Proof.
  intros Hascii. unfold getFileExtensionFromUrl.
  assert (Hjpg : Forall (fun c => c <> dot /\ c <> question /\ c <> slash
                                  /\ isUpper c = false) (js "jpg")).
  { repeat constructor; discriminate. }
  destruct (URL_pathname url) as [pathname|] eqn:Ep; [|exact Hjpg].
  destruct (1 <? length _)%nat; [|exact Hjpg].
  specialize (Hascii pathname eq_refl). rewrite forallb_forall in Hascii.
  set (part := List.last _ []).
  assert (Hpart : forall c, c ∈ part ->
            isAscii c = true /\ c <> dot /\ c <> question /\ c <> slash).
  { intros c Hc. apply extension_source in Hc as (Hin & Hrest).
    split; [apply Hascii, list_elem_of_In, Hin | exact Hrest]. }
  rewrite toLowerCase_ascii.
  - apply Forall_forall. intros c (d & -> & Hd)%list_elem_of_fmap.
    destruct (Hpart d Hd) as (_ & H1 & H2 & H3). apply lowerAscii_unit; assumption.
  - apply forallb_forall. intros c Hc. apply Hpart, list_elem_of_In, Hc.
Qed.

(** X11. The file of a pick cannot leave public/downloads.  When the path of
    the image URL is ASCII, the extension holds no dot, no slash, no question
    mark and no capital letter, so the file name holds no slash; it is the
    base name, of letters, digits, underscores and hyphens only, then a dot,
    then the extension. *)
Theorem picked_file_stays_in_downloads (formData : FormData) :
  (forall pathname,
      URL_pathname (formField (js "imageUrl") formData) = Some pathname ->
      forallb isAscii pathname = true) ->
  (slash ∉ pickedFilename formData)
  /\ Forall (fun c => c <> dot /\ c <> question /\ c <> slash /\ isUpper c = false)
       (getFileExtensionFromUrl (formField (js "imageUrl") formData))
  /\ exists base ext,
       pickedFilename formData = base ++ [dot] ++ ext
       /\ Forall (fun c => isIdUnit c = true) base /\ dot ∉ ext.
Proof.
  intros Hascii. pose proof (extension_units _ Hascii) as Hext.
  rewrite Forall_forall in Hext.
  assert (Hbase : Forall (fun c => isIdUnit c = true)
            (toSlug (formField (js "city") formData) ++ [hyphen]
               ++ toSlug (formField (js "country") formData) ++ [hyphen]
               ++ sanitizeId (formField (js "imageId") formData))).
  { repeat (apply Forall_app; split); try (repeat constructor; fail).
    - eapply Forall_impl; [apply toSlug_units | apply slugUnit_isIdUnit].
    - eapply Forall_impl; [apply toSlug_units | apply slugUnit_isIdUnit].
    - apply Forall_forall. intros c Hc. unfold sanitizeId in Hc.
      apply list_elem_of_In, filter_In in Hc as [_ Hc]. exact Hc. }
  split.
  - unfold pickedFilename.
    apply not_elem_of_app; split; [|apply not_elem_of_app; split].
    + intros Hin. rewrite Forall_forall in Hbase. apply (isIdUnit_not_slash _ (Hbase _ Hin)).
      reflexivity.
    + intros Hin%list_elem_of_singleton. discriminate.
    + intros Hin. destruct (Hext _ Hin) as (_ & _ & Hs & _). apply Hs. reflexivity.
  - split; [apply Forall_forall; exact Hext|].
    eexists _, _. split; [reflexivity|]. split; [exact Hbase|].
    intros Hin. destruct (Hext _ Hin) as (Hd & _). apply Hd. reflexivity.
Qed.

End Names.

Lemma picked_file_witness :
  slash ∉ @pickedFilename latin1Platform
            (formOf (js "Rome/Roma") (js "Italy") (js "../9") (js "https://example.com/a/rome.JPG")).
Proof.
  apply (@picked_file_stays_in_downloads latin1Platform
           (formOf (js "Rome/Roma") (js "Italy") (js "../9") (js "https://example.com/a/rome.JPG"))).
  intros pathname E. vm_compute in E. injection E as <-. reflexivity.
Defined.

(** ** page.tsx: what is loaded *)

Lemma keyField_trimmed (idx : option nat) (fields : list jsstring) :
  trim (Page.keyField idx fields) = Page.keyField idx fields.
Proof.
  unfold Page.keyField. destruct idx as [k|]; [|reflexivity].
  destruct (fields !! k) as [f|]; [|reflexivity].
  destruct (isEmpty f); [reflexivity | apply trim_idem].
Qed.

Lemma keyField_elem (idx : option nat) (fields : list jsstring) (c : N) :
  c ∈ Page.keyField idx fields -> exists f, f ∈ fields /\ c ∈ f.
Proof.
  unfold Page.keyField. destruct idx as [k|]; [|intros Hc; inversion Hc].
  destruct (fields !! k) as [f|] eqn:E; [|intros Hc; inversion Hc].
  destruct (isEmpty f); [intros Hc; inversion Hc|].
  intros Hc. exists f. split; [apply (list_elem_of_lookup_2 _ _ _ E) | apply trim_elem, Hc].
Qed.

Lemma optionalField_trimmed (idx : option nat) (fields : list jsstring) (v : jsstring) :
  Page.optionalField idx fields = Some v -> trim v = v.
Proof.
  unfold Page.optionalField. destruct idx; [|discriminate]. intros [= <-]. apply trim_idem.
Qed.

Lemma locationOf_Some (ci ki ti fi : option nat) (line : jsstring) (l : Page.LocationRow) :
  Page.locationOf ci ki ti fi line = Some l <->
  isBlank line = false
  /\ Page.keyField ci (splitOn comma line) <> []
  /\ Page.keyField ki (splitOn comma line) <> []
  /\ l = {| Page.city := Page.keyField ci (splitOn comma line);
            Page.country := Page.keyField ki (splitOn comma line);
            Page.type := Page.optionalField ti (splitOn comma line);
            Page.filename := Page.optionalField fi (splitOn comma line) |}.
Proof.
  unfold Page.locationOf, isEmpty. destruct (isBlank line); [split; [discriminate | intros [? _]; discriminate]|].
  cbn zeta.
  destruct (bool_decide_reflect (Page.keyField ci (splitOn comma line) = [])) as [E1|E1];
    [split; [discriminate | intros (_ & ? & _); contradiction]|].
  destruct (bool_decide_reflect (Page.keyField ki (splitOn comma line) = [])) as [E2|E2];
    [split; [discriminate | intros (_ & _ & ? & _); contradiction]|].
  simpl. split.
  - intros [= <-]. auto.
  - intros (_ & _ & _ & ->). reflexivity.
Qed.

Lemma length_omap_le {A B} (f : A -> option B) (l : list A) :
  (length (omap f l) <= length l)%nat.
Proof. induction l as [|x l IH]; cbn; [lia|]. destruct (f x); cbn; lia. Qed.

Section Loaded.
Context `{Platform}.

Lemma elem_of_loadRows (line0 r : jsstring) (rest : list jsstring) (l : Page.LocationRow) :
  l ∈ Page.loadRows (line0 :: r :: rest) <->
  exists row, row ∈ r :: rest
    /\ Page.locationOf (indexOf (js "city") (normalizeHeader (parseCsvLine line0)))
         (indexOf (js "country") (normalizeHeader (parseCsvLine line0)))
         (indexOf (js "type") (normalizeHeader (parseCsvLine line0)))
         (indexOf (js "filename") (normalizeHeader (parseCsvLine line0))) row = Some l.
Proof. unfold Page.loadRows. apply list_elem_of_omap. Qed.

Lemma loadRows_keys (lines : list jsstring) (l : Page.LocationRow) :
  l ∈ Page.loadRows lines ->
  Page.city l <> [] /\ Page.country l <> []
  /\ trim (Page.city l) = Page.city l /\ trim (Page.country l) = Page.country l
  /\ (comma ∉ Page.city l) /\ (comma ∉ Page.country l)
  /\ (forall v, Page.type l = Some v -> trim v = v)
  /\ (forall v, Page.filename l = Some v -> trim v = v).
Proof.
  destruct lines as [|line0 [|r rest]]; [intros Hl; inversion Hl..|].
  intros (row & _ & Hl)%elem_of_loadRows.
  apply locationOf_Some in Hl as (_ & Hc & Hk & ->).
  cbn [Page.city Page.country Page.type Page.filename].
  assert (Hcomma : forall idx, comma ∉ Page.keyField idx (splitOn comma row)).
  { intros idx (f & Hf & Hin)%keyField_elem.
    pose proof (splitOn_no_sep comma row) as Hall. rewrite Forall_forall in Hall.
    exact (Hall f Hf Hin). }
  repeat split; try assumption; try apply keyField_trimmed; try apply Hcomma;
    intros v; apply optionalField_trimmed.
Qed.

(** X12. Every location that the page loads has a city and a country that
    are non-empty, trimmed and free of commas, and optional fields that are
    trimmed; there is at most one location for each line after the header. *)
Theorem loaded_locations_have_keys (lines : list jsstring) :
  Forall (fun l =>
            Page.city l <> [] /\ Page.country l <> []
            /\ trim (Page.city l) = Page.city l /\ trim (Page.country l) = Page.country l
            /\ (comma ∉ Page.city l) /\ (comma ∉ Page.country l)
            /\ (forall v, Page.type l = Some v -> trim v = v)
            /\ (forall v, Page.filename l = Some v -> trim v = v))
    (Page.loadRows lines)
  /\ (length (Page.loadRows lines) <= length lines - 1)%nat.
Proof.
  split.
  - apply Forall_forall. intros l Hl. apply (loadRows_keys _ _ Hl).
  - destruct lines as [|line0 [|r rest]]; [simpl; lia..|].
    unfold Page.loadRows. etrans; [apply length_omap_le|]. simpl. lia.
Qed.

Lemma indexOf_not_elem (x : jsstring) (l : list jsstring) : x ∉ l -> indexOf x l = None.
Proof.
  intros Hx. destruct (indexOf x l) as [k|] eqn:E; [|reflexivity].
  apply indexOf_Some in E as [E _]. destruct Hx. apply (list_elem_of_lookup_2 _ _ _ E).
Qed.

(** X13. A header without a column named city, or without a column named
    country, loads no location at all, whatever the rows hold. *)
Theorem no_key_column_no_locations (line0 : jsstring) (rows : list jsstring) :
  js "city" ∉ normalizeHeader (parseCsvLine line0)
  \/ js "country" ∉ normalizeHeader (parseCsvLine line0) ->
  Page.loadRows (line0 :: rows) = [].
Proof.
  intros Hmiss. destruct rows as [|r rest]; [reflexivity|].
  destruct (Page.loadRows (line0 :: r :: rest)) as [|l ls] eqn:E; [reflexivity|].
  assert (Hl : l ∈ Page.loadRows (line0 :: r :: rest)) by (rewrite E; left).
  apply elem_of_loadRows in Hl as (row & _ & Hl).
  apply locationOf_Some in Hl as (_ & Hc & Hk & _).
  destruct Hmiss as [Hm|Hm]; rewrite (indexOf_not_elem _ _ Hm) in *; contradiction.
Qed.

End Loaded.

Lemma no_key_column_witness :
  @Page.loadRows latin1Platform (tbl ["town,country,filename"; "Rome,Italy,"; "Paris,France,"]) = [].
Proof.
  apply (@no_key_column_no_locations latin1Platform). left.
  refine (bool_decide_unpack _ _). vm_compute. exact I.
Defined.

(** ** page.tsx after actions.ts: the update seen by the next load *)

Lemma keyField_rowFields (hl k : nat) (raw f : jsstring) :
  rowFields hl raw !! k = Some f -> Page.keyField (Some k) (splitOn comma raw) = trim f.
Proof.
  unfold rowFields, padTo, parseCsvLine, Page.keyField. intros E.
  destruct (splitOn comma raw !! k) as [g|] eqn:Eg.
  - rewrite (lookup_app_l_Some _ _ _ _ Eg) in E. injection E as ->.
    unfold isEmpty. destruct (bool_decide_reflect (f = [])) as [->|_]; reflexivity.
  - apply lookup_ge_None in Eg. rewrite lookup_app_r in E by exact Eg.
    apply lookup_replicate in E as [-> _]. reflexivity.
Qed.

Lemma optionalField_rowFields (hl k : nat) (raw f : jsstring) :
  rowFields hl raw !! k = Some f ->
  Page.optionalField (Some k) (splitOn comma raw) = Some (trim f).
Proof.
  unfold rowFields, padTo, parseCsvLine, Page.optionalField. intros E.
  destruct (splitOn comma raw !! k) as [g|] eqn:Eg.
  - rewrite (lookup_app_l_Some _ _ _ _ Eg) in E. injection E as ->. reflexivity.
  - apply lookup_ge_None in Eg. rewrite lookup_app_r in E by exact Eg.
    apply lookup_replicate in E as [-> _]. reflexivity.
Qed.

Section Reload.
Context `{Platform}.

Lemma parse_written_header (line0 : jsstring) (header : list jsstring) (fi : nat) :
  headerWithFilename line0 = (header, fi) ->
  parseCsvLine (stringifyCsvLine header) = header.
Proof.
  intros Hh. unfold parseCsvLine, stringifyCsvLine.
  apply splitOn_join; [|apply (header_no_comma _ _ _ Hh)].
  pose proof (headerWithFilename_lt _ _ _ Hh) as Hlt. intros ->. simpl in Hlt. lia.
Qed.

Lemma header_key_columns (line0 : jsstring) (header : list jsstring) (fi : nat) :
  cityCountryFirst line0 -> headerWithFilename line0 = (header, fi) ->
  indexOf (js "city") (normalizeHeader header) = Some 0%nat
  /\ indexOf (js "country") (normalizeHeader header) = Some 1%nat
  /\ indexOf (js "filename") (normalizeHeader header) = Some fi.
Proof.
  intros Hcc Hh.
  assert (Htake : take 2 (normalizeHeader header) = [js "city"; js "country"]).
  { unfold cityCountryFirst in Hcc. unfold headerWithFilename in Hh.
    destruct (indexOf _ _); injection Hh as <- <-; [exact Hcc|].
    unfold normalizeHeader in *. rewrite map_app, take_app_le; [exact Hcc|].
    apply (f_equal length) in Hcc. rewrite length_take in Hcc. cbn [length] in Hcc. lia. }
  assert (Hfn : indexOf (js "filename") (normalizeHeader header) = Some fi).
  { pose proof (headerWithFilename_again _ _ _ Hh) as Ha.
    unfold headerWithFilename in Ha. rewrite (parse_written_header _ _ _ Hh) in Ha.
    destruct (indexOf _ _) as [k|].
    - congruence.
    - injection Ha as Ha1 _. apply (f_equal length) in Ha1.
      rewrite length_app in Ha1. simpl in Ha1. lia. }
  split; [|split; [|exact Hfn]].
  - destruct (normalizeHeader header) as [|a [|b l]]; try discriminate.
    injection Htake as -> ->. reflexivity.
  - destruct (normalizeHeader header) as [|a [|b l]]; try discriminate.
    injection Htake as -> ->. reflexivity.
Qed.

(** X14. A location whose file name has been recorded is not offered again.
    After a successful update for (city, country, filename) of a file whose
    header begins with city and country, in which the key is unique, the next
    load finds the location with that file name, and the list of incomplete
    locations that the page hands to the picker holds no location with that
    key. *)
Theorem updated_location_leaves_picker (city country filename original line0 : jsstring)
    (rows header : list jsstring) (fi : nat) (w : World) :
  files w !! csvPath = Some original -> writable w csvPath = true ->
  splitLines original = line0 :: rows ->
  cityCountryFirst line0 ->
  headerWithFilename line0 = (header, fi) ->
  validTriple city country filename ->
  keyUnique (length header) city country rows ->
  Forall (fun l => CR ∉ l) (line0 :: rows) ->
  city <> [] -> country <> [] -> trim filename <> [] ->
  exists w1 locations incomplete,
    updateCsvWithFilename city country filename w = (Ok tt, w1)
    /\ fst (Page.loadLocations w1) = Ok locations
    /\ fst (Page.Home w1) = Ok incomplete
    /\ (exists l, l ∈ locations /\ Page.city l = city /\ Page.country l = country
                  /\ Page.filename l = Some (trim filename))
    /\ (forall l, l ∈ incomplete -> ~ (Page.city l = city /\ Page.country l = country)).
Proof.
  intros Hfile Hwr Hsplit Hcc Hh Hvalid Huniq Hcr Hcity Hcountry Hfn.
  destruct (updateLines_settled _ _ _ _ _ _ _ Hcc Hh Hvalid Huniq)
    as (rows1 & i & w0 & Hupd & _ & Hi & Hmatch & Hfield & Hone & Hfree).
  destruct (cityCountryFirst_header _ _ _ Hcc Hh) as [Hfi Hhl].
  pose proof (headerWithFilename_lt _ _ _ Hh) as Hlt.
  destruct (header_key_columns _ _ _ Hcc Hh) as (Hci & Hki & Hfni).
  set (updated := joinWith [LF] (stringifyCsvLine header :: rows1)).
  assert (Hlf : Forall (fun l => LF ∉ l) (line0 :: rows)).
  { rewrite <- Hsplit. apply splitLines_no_LF. }
  assert (Hlines : splitLines updated = stringifyCsvLine header :: rows1).
  { apply splitLines_join; [discriminate|].
    inversion Hlf as [|? ? Hlf0 Hlfr]; inversion Hcr as [|? ? Hcr0 Hcrr]; subst.
    constructor.
    - split; eapply header_not_elem; eauto.
    - pose proof (Hfree LF (or_introl eq_refl) Hlfr) as H1.
      pose proof (Hfree CR (or_intror eq_refl) Hcrr) as H2.
      rewrite Forall_forall in H1, H2. apply Forall_forall. intros l Hl. split; auto. }
  set (w1 := {| files := <[csvPath := updated]> (files w); network := network w;
                writable := writable w;
                trace := EvWriteFile csvPath :: EvReadFile csvPath :: trace w |}).
  assert (Hrun : updateCsvWithFilename city country filename w = (Ok tt, w1)).
  { unfold updateCsvWithFilename, bindIO, readFile, liftR, updatedCsv, writeFile.
    rewrite Hfile, Hsplit, Hupd. cbn [bindR logEvent writable files network trace].
    rewrite Hwr. reflexivity. }
  assert (Hload : Page.loadLocations w1
                  = (Ok (Page.loadRows (stringifyCsvLine header :: rows1)),
                     logEvent (EvReadFile csvPath) w1)).
  { unfold Page.loadLocations, bindIO, readFile, ret.
    replace (files w1 !! csvPath) with (Some updated)
      by (symmetry; apply lookup_insert_eq).
    rewrite Hlines. reflexivity. }
  destruct rows1 as [|r rest] eqn:Erows; [rewrite lookup_nil in Hi; discriminate|].
  rewrite <- Erows in *.
  assert (Hloc : forall row l,
             Page.locationOf (Some 0%nat) (Some 1%nat)
               (indexOf (js "type") (normalizeHeader header)) (Some fi) row = Some l ->
             isBlank row = false
             /\ exists f0 f1 f,
                 rowFields (length header) row !! 0%nat = Some f0
                 /\ rowFields (length header) row !! 1%nat = Some f1
                 /\ rowFields (length header) row !! fi = Some f
                 /\ Page.city l = trim f0 /\ Page.country l = trim f1
                 /\ Page.filename l = Some (trim f)).
  { intros row l (Hb & _ & _ & ->)%locationOf_Some. split; [exact Hb|].
    destruct (rowFields_lookup (length header) 0 row ltac:(lia)) as [f0 E0].
    destruct (rowFields_lookup (length header) 1 row ltac:(lia)) as [f1 E1].
    destruct (rowFields_lookup (length header) fi row Hlt) as [f E].
    exists f0, f1, f. do 3 (split; [assumption|]).
    cbn [Page.city Page.country Page.filename].
    rewrite (keyField_rowFields _ _ _ _ E0), (keyField_rowFields _ _ _ _ E1),
      (optionalField_rowFields _ _ _ _ E). auto. }
  assert (Hrows : forall l, l ∈ Page.loadRows (stringifyCsvLine header :: rows1) <->
             exists row, row ∈ rows1
               /\ Page.locationOf (Some 0%nat) (Some 1%nat)
                    (indexOf (js "type") (normalizeHeader header)) (Some fi) row = Some l).
  { intros l. rewrite Erows, elem_of_loadRows, (parse_written_header _ _ _ Hh),
      Hci, Hki, Hfni. reflexivity. }
  exists w1, (Page.loadRows (stringifyCsvLine header :: rows1)),
    (List.filter Page.noFilename (Page.loadRows (stringifyCsvLine header :: rows1))).
  split; [exact Hrun|]. split; [rewrite Hload; reflexivity|].
  split; [unfold Page.Home, bindIO; rewrite Hload; reflexivity|].
  apply rowMatches_true in Hmatch as Hm. destruct Hm as (Hb & f0 & f1 & E0 & E1 & T0 & T1).
  split.
  - eexists. split.
    + apply Hrows. exists w0. split; [apply (list_elem_of_lookup_2 _ _ _ Hi)|].
      apply locationOf_Some. split; [exact Hb|].
      rewrite (keyField_rowFields _ _ _ _ E0), (keyField_rowFields _ _ _ _ E1), T0, T1.
      split; [exact Hcity|]. split; [exact Hcountry|]. reflexivity.
    + cbn [Page.city Page.country Page.filename].
      rewrite (optionalField_rowFields _ _ _ _ Hfield). auto.
  - intros l Hl [Hc Hk]. apply list_elem_of_In, filter_In in Hl as [Hl Hno].
    apply list_elem_of_In, Hrows in Hl as (row & Hrow & Hl).
    destruct (Hloc _ _ Hl) as (Hbr & g0 & g1 & g & G0 & G1 & G & Lc & Lk & Lf).
    assert (Hrm : rowMatches (length header) city country row = true).
    { apply rowMatches_true. split; [exact Hbr|]. exists g0, g1. repeat split; congruence. }
    apply list_elem_of_lookup_1 in Hrow as [j Hj].
    pose proof (Hone _ _ Hj Hrm) as ->.
    assert (row = w0) by congruence. subst row.
    assert (g = filename) by congruence. subst g.
    unfold Page.noFilename in Hno. rewrite Lf in Hno.
    unfold isEmpty in Hno. apply bool_decide_eq_true in Hno. contradiction.
Qed.

End Reload.

Lemma updated_location_witness :
  exists w1 incomplete,
    @updateCsvWithFilename latin1Platform (js "Rome") (js "Italy") (js "rome-italy-9.jpg")
      (worldWith (joinWith [LF] (tbl ["city,country,type,filename"; "Paris,France,city,";
                                      "Rome,Italy,city,"])) [])
    = (Ok tt, w1)
    /\ fst (@Page.Home latin1Platform w1) = Ok incomplete
    /\ forall l, l ∈ incomplete -> ~ (Page.city l = js "Rome" /\ Page.country l = js "Italy").
Proof.
  destruct (@updated_location_leaves_picker latin1Platform
              (js "Rome") (js "Italy") (js "rome-italy-9.jpg")
              (joinWith [LF] (tbl ["city,country,type,filename"; "Paris,France,city,";
                                   "Rome,Italy,city,"]))
              (js "city,country,type,filename")
              (tbl ["Paris,France,city,"; "Rome,Italy,city,"])
              (tbl ["city"; "country"; "type"; "filename"]) 3%nat
              (worldWith (joinWith [LF] (tbl ["city,country,type,filename";
                                              "Paris,France,city,"; "Rome,Italy,city,"])) []))
    as (w1 & locations & incomplete & Hrun & _ & Hhome & _ & Hgone).
  - vm_compute. reflexivity.
  - reflexivity.
  - vm_compute. reflexivity.
  - vm_compute. reflexivity.
  - vm_compute. reflexivity.
  - unfold validTriple, plainText.
    repeat split; try (vm_compute; reflexivity);
      refine (bool_decide_unpack _ _); vm_compute; exact I.
  - intros [|[|i]] [|[|j]] ri rj Hi Hj Hmi Hmj; try reflexivity;
      simpl in Hi, Hj; try discriminate;
      injection Hi as <-; injection Hj as <-; vm_compute in Hmi, Hmj; discriminate.
  - repeat constructor; refine (bool_decide_unpack _ _); vm_compute; exact I.
  - discriminate.
  - discriminate.
  - vm_compute. discriminate.
  - exists w1, incomplete. auto.
Defined.

(** ** components/ImagePicker.tsx: the location shown *)

Section Query.
Context `{Platform}.

(** X15. For every location that the page loads, the search query of the
    picker is the city, a space and the country, with nothing trimmed away,
    and it is not empty: the gather starts. *)
Theorem loaded_location_query (lines : list jsstring) :
  Forall (fun l => query (Some l) = Page.city l ++ js " " ++ Page.country l
                   /\ isEmpty (query (Some l)) = false)
    (Page.loadRows lines).
Proof.
  apply Forall_forall. intros l Hl.
  destruct (loadRows_keys _ _ Hl) as (Hc & Hk & Tc & Tk & _).
  destruct (trimmed_ends _ Tc Hc) as (c & t & Ec & Wc & _).
  destruct (trimmed_ends _ Tk Hk) as (_ & _ & _ & _ & t' & d & Ek & Wd).
  assert (E : query (Some l) = Page.city l ++ js " " ++ Page.country l).
  { unfold query. rewrite Ec, Ek.
    change ((c :: t) ++ js " " ++ t' ++ [d]) with (c :: t ++ js " " ++ t' ++ [d]).
    replace (t ++ js " " ++ t' ++ [d]) with ((t ++ js " " ++ t') ++ [d])
      by (rewrite <- !app_assoc; reflexivity).
    apply trim_fixed; assumption. }
  split; [exact E|]. rewrite E, Ec. reflexivity.
Qed.

End Query.

Lemma letters_elem (ch : jsstring) :
  ch ∈ letters <-> exists u, ch = [u] /\ isUpper u = true.
Proof.
  unfold letters. rewrite list_elem_of_fmap. split.
  - intros (i & -> & Hi). apply elem_of_seq in Hi. eexists. split; [reflexivity|].
    unfold isUpper. apply andb_true_iff. split; apply N.leb_le; lia.
  - intros (u & -> & Hu). unfold isUpper in Hu.
    apply andb_true_iff in Hu as [H1%N.leb_le H2%N.leb_le].
    exists (N.to_nat (u - 65)). split; [f_equal; lia | apply elem_of_seq; lia].
Qed.

Lemma upperAscii_upper (u : N) : isUpper u = true -> upperAscii u = u.
Proof.
  unfold isUpper, upperAscii, isLower. intros [H1%N.leb_le H2%N.leb_le]%andb_true_iff.
  destruct (N.leb_spec 97 u); [lia | reflexivity].
Qed.

Lemma upper_is_ascii (u : N) : isUpper u = true -> isAscii u = true.
Proof.
  unfold isUpper, isAscii. intros [H1%N.leb_le H2%N.leb_le]%andb_true_iff.
  apply N.ltb_lt. lia.
Qed.

Lemma startsWith_unit (u : N) (s : jsstring) :
  startsWith [u] s = true <-> exists t, s = u :: t.
Proof.
  destruct s as [|c t]; simpl.
  - split; [discriminate | intros [? ?]; discriminate].
  - rewrite andb_true_r. split.
    + intros ->%N.eqb_eq. eauto.
    + intros [? [= -> _]]. apply N.eqb_refl.
Qed.

Lemma forallb_trim (p : N -> bool) (s : jsstring) :
  forallb p s = true -> forallb p (trim s) = true.
Proof.
  rewrite !forallb_forall. intros Hs c Hc.
  apply Hs, list_elem_of_In, trim_elem, list_elem_of_In, Hc.
Qed.

Section Letters.
Context `{UpperCase}.

Lemma availableLetters_elem (locations : list Page.LocationRow) (x : jsstring) :
  x ∈ availableLetters locations <->
  exists l, l ∈ locations /\ trim (Page.country l) <> []
            /\ x = toUpperCase (take 1 (trim (Page.country l))).
Proof.
  unfold availableLetters.
  assert (G : forall acc : gset jsstring,
             x ∈ foldl (fun set loc =>
                          let c := trim (Page.country loc) in
                          if isEmpty c then set else set ∪ {[ toUpperCase (take 1 c) ]})
                       acc locations <->
             x ∈ acc \/ exists l, l ∈ locations /\ trim (Page.country l) <> []
                                  /\ x = toUpperCase (take 1 (trim (Page.country l)))).
  { induction locations as [|loc locs IH]; intros acc; cbn [foldl].
    - split; [auto | intros [?|(l & Hl & _)]; [assumption | inversion Hl]].
    - rewrite IH. cbn zeta. unfold isEmpty.
      destruct (bool_decide_reflect (trim (Page.country loc) = [])) as [E|E].
      + split.
        * intros [?|(l & Hl & Hrest)]; [auto|]. right. exists l. split; [right; exact Hl | exact Hrest].
        * intros [?|(l & Hl & Hne & Hx)]; [auto|].
          apply elem_of_cons in Hl as [->|Hl]; [contradiction|]. right. eauto.
      + rewrite elem_of_union, elem_of_singleton. split.
        * intros [[? | ->] | (l & Hl & Hrest)]; [auto | right; exists loc; split; [left | auto] |].
          right. exists l. split; [right; exact Hl | exact Hrest].
        * intros [?|(l & Hl & Hne & Hx)]; [auto|].
          apply elem_of_cons in Hl as [->|Hl]; [auto|]. right. eauto. }
  rewrite G. split; [intros [Hx|?]; [inversion Hx | assumption] | auto].
Qed.

(** X16. The letter buttons and the filter agree on ASCII country names: a
    letter is enabled exactly when filtering by it leaves some location,
    which is exactly when choosing it shows a location; a letter that is
    not enabled would show "No countries match this letter". *)
Theorem enabled_letter_has_locations (locations : list Page.LocationRow) (ch : jsstring) :
  Forall (fun l => forallb isAscii (Page.country l) = true) locations ->
  ch ∈ letters ->
  (ch ∈ availableLetters locations <-> filteredLocations (Some ch) locations <> [])
  /\ (ch ∈ availableLetters locations <->
      exists l, view (Some ch) 0 locations = Picking l)
  /\ (ch ∉ availableLetters locations -> locations <> [] ->
      view (Some ch) 0 locations = NoCountriesMatch).
Proof.
  intros Hascii (u & -> & Hu)%letters_elem.
  assert (Hletter : toUpperCase [u] = [u]).
  { rewrite toUpperCase_ascii by (simpl; rewrite (upper_is_ascii _ Hu); reflexivity).
    simpl. rewrite (upperAscii_upper _ Hu). reflexivity. }
  assert (Hfilter : filteredLocations (Some [u]) locations
                    = List.filter (fun l => startsWith [u] (toUpperCase (trim (Page.country l))))
                        locations).
  { unfold filteredLocations. cbn zeta. rewrite Hletter. reflexivity. }
  assert (Hrow : forall l, l ∈ locations ->
             (trim (Page.country l) <> []
              /\ [u] = toUpperCase (take 1 (trim (Page.country l))))
             <-> startsWith [u] (toUpperCase (trim (Page.country l))) = true).
  { intros l Hl. rewrite Forall_forall in Hascii.
    pose proof (forallb_trim _ _ (Hascii l Hl)) as Ht.
    destruct (trim (Page.country l)) as [|c t] eqn:E.
    - split; [intros [? _]; congruence|].
      rewrite (toUpperCase_ascii []) by reflexivity. discriminate.
    - simpl in Ht. apply andb_true_iff in Ht as [Hc Ht'].
      rewrite (toUpperCase_ascii (c :: t)) by (simpl; rewrite Hc, Ht'; reflexivity).
      change (take 1 (c :: t)) with [c].
      rewrite (toUpperCase_ascii [c]) by (simpl; rewrite Hc; reflexivity).
      simpl. rewrite andb_true_r, N.eqb_eq. split.
      + intros [_ [= ->]]. reflexivity.
      + intros ->. split; [discriminate | reflexivity]. }
  assert (Hiff : [u] ∈ availableLetters locations <->
                 filteredLocations (Some [u]) locations <> []).
  { rewrite availableLetters_elem, Hfilter. split.
    - intros (l & Hl & Hne & Hx) E.
      assert (Hin : In l (List.filter (fun l => startsWith [u] (toUpperCase (trim (Page.country l))))
                            locations)).
      { apply filter_In. split; [apply list_elem_of_In, Hl | apply (Hrow l Hl); auto]. }
      rewrite E in Hin. exact Hin.
    - intros Hne. destruct (List.filter _ locations) as [|l ls] eqn:E; [congruence|].
      assert (Hin : In l (l :: ls)) by (left; reflexivity).
      rewrite <- E in Hin. apply filter_In in Hin as [Hl Hs].
      apply list_elem_of_In in Hl. exists l. split; [exact Hl|]. apply (Hrow l Hl), Hs. }
  split; [exact Hiff|]. unfold view, selectedLocation. split.
  - rewrite Hiff. destruct (filteredLocations (Some [u]) locations) as [|l ls]; simpl.
    + split; [congruence|]. intros [l Hl]. destruct (_ && _); discriminate.
    + split; [eauto | discriminate].
  - rewrite Hiff. intros Hempty Hlocs.
    destruct (filteredLocations (Some [u]) locations) as [|l ls].
    + destruct locations; [congruence | reflexivity].
    + destruct Hempty. discriminate.
Qed.

End Letters.

Lemma enabled_letter_witness :
  js "I" ∈ @availableLetters latin1UpperCase
             [location "Rome" "italy" None; location "Paris" "France" None].
Proof.
  refine (proj2 (proj1 (@enabled_letter_has_locations latin1UpperCase
           [location "Rome" "italy" None; location "Paris" "France" None] (js "I") _ _)) _).
  - repeat constructor.
  - refine (bool_decide_unpack _ _). vm_compute. exact I.
  - vm_compute. discriminate.
Defined.

(** ** From the picker to the update *)

Lemma formGet_here (name : jsstring) (v : FormDataEntryValue) (rest : FormData) :
  formGet name ((name, v) :: rest) = Some v.
Proof. simpl. rewrite bool_decide_eq_true_2 by reflexivity. reflexivity. Qed.

Lemma formGet_next (name k : jsstring) (v : FormDataEntryValue) (rest : FormData) :
  k <> name -> formGet name ((k, v) :: rest) = formGet name rest.
Proof. intros Hne. simpl. rewrite bool_decide_eq_false_2 by exact Hne. reflexivity. Qed.

Lemma handlePick_fields (l : Page.LocationRow) (img : PixabayHit) (formData : FormData) :
  handlePick (Some l) false img = Some formData ->
  formField (js "city") formData = trim (Page.city l)
  /\ formField (js "country") formData = trim (Page.country l)
  /\ formField (js "imageId") formData = trim (id img)
  /\ formField (js "imageUrl") formData
     = trim (if isEmpty (largeImageURL img) then webformatURL img else largeImageURL img).
Proof.
  intros [= <-]. unfold formField.
  rewrite !formGet_here, !formGet_next, !formGet_here by discriminate.
  rewrite !formGet_next, !formGet_here by discriminate.
  rewrite !formGet_next, !formGet_here by discriminate.
  auto.
Qed.

Section PickedRow.
Context `{Platform}.

Lemma key_columns_first (line0 : jsstring) :
  cityCountryFirst line0 ->
  indexOf (js "city") (normalizeHeader (parseCsvLine line0)) = Some 0%nat
  /\ indexOf (js "country") (normalizeHeader (parseCsvLine line0)) = Some 1%nat.
Proof.
  unfold cityCountryFirst. intros Htake.
  destruct (normalizeHeader (parseCsvLine line0)) as [|a [|b l]]; try discriminate.
  injection Htake as -> ->. split; reflexivity.
Qed.

(** X17. Picking an image for a loaded location updates that location's row
    in place.  The form that the picker submits carries the city and country
    as loaded; it is complete exactly when the id and the URL of the image
    are not blank; and under a header that begins with city and country the
    update finds a row with that key and rewrites it: no row is appended. *)
Theorem pick_for_loaded_location_updates_in_place (line0 : jsstring)
    (rows header : list jsstring) (fi : nat) (l : Page.LocationRow) (img : PixabayHit)
    (formData : FormData) :
  cityCountryFirst line0 ->
  headerWithFilename line0 = (header, fi) ->
  l ∈ Page.loadRows (line0 :: rows) ->
  handlePick (Some l) false img = Some formData ->
  formField (js "city") formData = Page.city l
  /\ formField (js "country") formData = Page.country l
  /\ (formComplete formData <->
      formField (js "imageId") formData <> [] /\ formField (js "imageUrl") formData <> [])
  /\ exists i raw,
       rows !! i = Some raw
       /\ rowMatches (length header) (Page.city l) (Page.country l) raw = true
       /\ forall filename,
            updateLines (formField (js "city") formData) (formField (js "country") formData)
              filename (line0 :: rows)
            = Ok (stringifyCsvLine header
                    :: <[i := withFilename (length header) fi filename raw]> rows).
Proof.
  intros Hcc Hh Hl Hpick.
  destruct (loadRows_keys _ _ Hl) as (Hc & Hk & Tc & Tk & _).
  destruct (handlePick_fields _ _ _ Hpick) as (Fc & Fk & _ & _).
  rewrite Tc in Fc. rewrite Tk in Fk.
  split; [exact Fc|]. split; [exact Fk|]. split.
  { unfold formComplete. rewrite Fc, Fk. tauto. }
  destruct (cityCountryFirst_header _ _ _ Hcc Hh) as [Hfi Hhl].
  destruct (key_columns_first _ Hcc) as [Hci Hki].
  destruct rows as [|r rest]; [inversion Hl|].
  apply elem_of_loadRows in Hl as (row & Hrow & Hloc).
  rewrite Hci, Hki in Hloc. apply locationOf_Some in Hloc as (Hb & _ & _ & ->).
  cbn [Page.city Page.country] in *.
  destruct (rowFields_lookup (length header) 0 row ltac:(lia)) as [f0 E0].
  destruct (rowFields_lookup (length header) 1 row ltac:(lia)) as [f1 E1].
  rewrite (keyField_rowFields _ _ _ _ E0), (keyField_rowFields _ _ _ _ E1) in *.
  assert (Hm : rowMatches (length header) (trim f0) (trim f1) row = true).
  { apply rowMatches_true. split; [exact Hb|]. exists f0, f1. auto. }
  set (rs := r :: rest) in *.
  assert (Hfound : exists i raw,
             rs !! i = Some raw
             /\ rowMatches (length header) (trim f0) (trim f1) raw = true
             /\ forall filename,
                  applyPolicy (length header) fi (trim f0) (trim f1) filename rs
                  = <[i := withFilename (length header) fi filename raw]> rs).
  { unfold applyPolicy, rowStatus.
    destruct (findRow (fun r0 => rowMatches (length header) (trim f0) (trim f1) r0
                                 && rowLacksFilename (length header) fi r0) rs)
      as [[i raw]|] eqn:E.
    - apply findRow_Some in E as (Hi & [Hp _]%andb_true_iff & _).
      exists i, raw. auto.
    - destruct (findRow (rowMatches (length header) (trim f0) (trim f1)) rs)
        as [[i raw]|] eqn:E'.
      + apply findRow_Some in E' as (Hi & Hp & _). exists i, raw. auto.
      + rewrite findRow_None in E'. rewrite (E' _ Hrow) in Hm. discriminate. }
  destruct Hfound as (i & raw & Hi & Hraw & Hpol).
  exists i, raw. split; [exact Hi|]. split; [exact Hraw|].
  intros filename. rewrite Fc, Fk.
  rewrite (updateLines_policy _ _ _ _ _ _ _ Hh ltac:(lia)), Hpol. reflexivity.
Qed.

End PickedRow.

Lemma pick_for_loaded_location_witness :
  exists i raw,
    tbl ["Paris,France,city,p.jpg"; " Rome , Italy ,city,"] !! i = Some raw
    /\ @updateLines latin1Platform (js "Rome") (js "Italy") (js "x.jpg")
         (tbl ["City,Country,type,filename"; "Paris,France,city,p.jpg"; " Rome , Italy ,city,"])
       = Ok (js "City,Country,type,filename"
               :: <[i := withFilename 4 3 (js "x.jpg") raw]>
                    (tbl ["Paris,France,city,p.jpg"; " Rome , Italy ,city,"])).
Proof.
  destruct (@pick_for_loaded_location_updates_in_place latin1Platform
              (js "City,Country,type,filename")
              (tbl ["Paris,France,city,p.jpg"; " Rome , Italy ,city,"])
              (tbl ["City"; "Country"; "type"; "filename"]) 3%nat
              {| Page.city := js "Rome"; Page.country := js "Italy";
                 Page.type := Some (js "city"); Page.filename := Some [] |}
              (hit "9")
              [ (js "city", FormText (js "Rome")); (js "country", FormText (js "Italy"));
                (js "imageId", FormText (js "9")); (js "imageUrl", FormText []) ])
    as (_ & _ & _ & i & raw & Hi & _ & Hup).
  - vm_compute. reflexivity.
  - vm_compute. reflexivity.
  - apply list_elem_of_In. vm_compute. auto.
  - reflexivity.
  - exists i, raw. split; [exact Hi|]. exact (Hup (js "x.jpg")).
Defined.

(** ** components/ImagePicker.tsx: one gather after another *)

Lemma collectNovel_seen (hits : list PixabayHit) :
  forall coll seen coll' seen',
    collectNovel hits coll seen = (coll', seen') ->
    (forall h, h ∈ coll -> id h ∈ seen) ->
    (forall h, h ∈ coll' -> id h ∈ seen') /\ seen ⊆ seen'.
Proof.
  induction hits as [|x hits IH]; intros coll seen coll' seen' E Hin.
  - injection E as <- <-. auto.
  - rewrite collectNovel_cons in E.
    destruct (negb _ && negb _).
    + assert (Hin' : forall h, h ∈ coll ++ [x] -> id h ∈ seen ∪ {[ id x ]}).
      { intros h [Hh|Hh%list_elem_of_singleton]%elem_of_app.
        - apply elem_of_union_l, Hin, Hh.
        - subst h. apply elem_of_union_r, elem_of_singleton. reflexivity. }
      destruct (6 <=? length (coll ++ [x]))%nat.
      * injection E as <- <-. split; [exact Hin' | apply union_subseteq_l].
      * destruct (IH _ _ _ _ E Hin') as [H1 H2]. split; [exact H1|].
        etrans; [apply union_subseteq_l | exact H2].
    + apply (IH _ _ _ _ E Hin).
Qed.

Lemma gatherLoop_seen (search : nat -> PageFetch) (fuel : nat) :
  forall g g' reqs,
    gatherLoop fuel search g = Some (Ok g', reqs) ->
    (forall h, h ∈ collected g -> id h ∈ currentSeen g) ->
    (forall h, h ∈ collected g' -> id h ∈ currentSeen g')
    /\ currentSeen g ⊆ currentSeen g'.
Proof.
  induction fuel as [|fuel IH]; intros g g' reqs E Hin; [discriminate|].
  rewrite gatherLoop_S in E.
  destruct ((length (collected g) <? 6)%nat && (attempts g <? 5)%nat).
  2:{ injection E as <- _. auto. }
  destruct (pageHits (search (page g))) as [hits|]; [|discriminate].
  destruct (collectNovel hits (collected g) (currentSeen g)) as [coll' seen'] eqn:Ec.
  destruct (collectNovel_seen _ _ _ _ _ Ec Hin) as [H1 H2].
  destruct (length hits =? 0)%nat.
  { injection E as <- _. simpl. auto. }
  destruct (IH _ _ _ E H1) as [H3 H4]. split; [exact H3|].
  etrans; [exact H2 | exact H4].
Qed.

(** What a gather that is not aborted leaves: a batch that avoids the ids
    seen before and whose ids are all seen afterwards. *)
Lemma loadUnique_seen (query : jsstring) (search : nat -> PageFetch) (s : Picker) :
  isEmpty query = false ->
  (forall h, h ∈ images (loadUnique query search false s) -> id h ∉ seenIds s)
  /\ (forall h, h ∈ images (loadUnique query search false s) ->
        id h ∈ seenIds (loadUnique query search false s))
  /\ seenIds s ⊆ seenIds (loadUnique query search false s).
Proof.
  intros Hq. unfold loadUnique. rewrite Hq.
  destruct (gather_runs search s) as (r & n & E & _). rewrite E.
  destruct r as [g|msg].
  - unfold gather in E.
    destruct (gatherLoop_batch (seenIds s) _ _ _ _ _ E) as (_ & _ & Hn & _); simpl;
      [lia | reflexivity | intros h Hh; inversion Hh | constructor |].
    destruct (gatherLoop_seen _ _ _ _ _ E) as [Hs Hsub]; [intros h Hh; inversion Hh|].
    auto.
  - simpl. split; [intros h Hh; inversion Hh|]. split; [intros h Hh; inversion Hh|].
    reflexivity.
Qed.

Lemma handleRefresh_seen (s : Picker) : seenIds (handleRefresh s) = seenIds s.
Proof. unfold handleRefresh. destruct (_ || _ || _); reflexivity. Qed.

(** X18. A refresh never shows an image again.  Of two gathers for the same
    query, the second after a refresh, no id of the first batch occurs in
    the second; the ids of a batch are all in the set of seen ids afterwards,
    and that set only grows. *)
Theorem refresh_never_repeats (query : jsstring) (search search' : nat -> PageFetch)
    (s : Picker) :
  isEmpty query = false ->
  let s1 := loadUnique query search false s in
  let s2 := loadUnique query search' false (handleRefresh s1) in
  (forall h h', h ∈ images s1 -> h' ∈ images s2 -> id h <> id h')
  /\ (forall h, h ∈ images s1 -> id h ∈ seenIds s1)
  /\ seenIds s ⊆ seenIds s1 /\ seenIds s1 ⊆ seenIds s2.
Proof.
  intros Hq s1 s2.
  destruct (loadUnique_seen query search s Hq) as (_ & Hin1 & Hsub1).
  destruct (loadUnique_seen query search' (handleRefresh s1) Hq) as (Hnew2 & _ & Hsub2).
  rewrite handleRefresh_seen in Hnew2, Hsub2.
  split; [|auto]. intros h h' Hh Hh' Heq.
  apply (Hnew2 h' Hh'). rewrite <- Heq. apply Hin1, Hh.
Qed.

Lemma refresh_never_repeats_witness :
  Forall (fun h' =>
            Forall (fun h => id h <> id h')
              (images (loadUnique (js "Rome Italy") (fun _ => Json (Some page18)) false
                         (pickerAt 1 []))))
    (images (loadUnique (js "Rome Italy") (fun _ => Json (Some page18)) false
               (handleRefresh (loadUnique (js "Rome Italy") (fun _ => Json (Some page18))
                                 false (pickerAt 1 []))))).
Proof.
  apply Forall_forall. intros h' Hh'. apply Forall_forall. intros h Hh.
  exact (proj1 (refresh_never_repeats (js "Rome Italy") (fun _ => Json (Some page18))
                  (fun _ => Json (Some page18)) (pickerAt 1 []) eq_refl) h h' Hh Hh').
Defined.

(** ** A page with six new results *)

Lemma collectNovel_fills (pre rest : list PixabayHit) :
  forall coll seen,
    pre <> [] -> (length coll + length pre = 6)%nat ->
    NoDup (map id (coll ++ pre)) ->
    (forall h, h ∈ pre -> id h ∉ seen) ->
    exists seen',
      collectNovel (pre ++ rest) coll seen = (coll ++ pre, seen')
      /\ forall x, x ∈ seen' <-> x ∈ seen \/ x ∈ map id pre.
Proof.
  induction pre as [|h pre IH]; intros coll seen Hne Hlen Hnd Hnew; [congruence|].
  cbn [app]. rewrite collectNovel_cons.
  assert (Hh : id h ∉ seen) by (apply Hnew; left).
  assert (Hc : existsb (fun c => bool_decide (id c = id h)) coll = false).
  { apply not_true_is_false. intros (c & Hc & Heq)%existsb_exists.
    apply bool_decide_eq_true in Heq. rewrite map_app in Hnd.
    apply NoDup_app in Hnd as (_ & Hdis & _).
    apply (Hdis (id c)); [apply list_elem_of_fmap; exists c; split; [reflexivity|];
                          apply list_elem_of_In, Hc|].
    rewrite Heq. left. }
  rewrite (bool_decide_eq_false_2 _ Hh), Hc. cbn [negb andb].
  destruct pre as [|h2 pre].
  - assert (E : (6 <=? length (coll ++ [h]))%nat = true).
    { apply Nat.leb_le. rewrite length_app. simpl in *. lia. }
    rewrite E. eexists. split; [reflexivity|]. intros x.
    rewrite elem_of_union, elem_of_singleton. simpl.
    rewrite list_elem_of_singleton. reflexivity.
  - assert (E : (6 <=? length (coll ++ [h]))%nat = false).
    { apply Nat.leb_gt. rewrite length_app. simpl in *. lia. }
    rewrite E.
    destruct (IH (coll ++ [h]) (seen ∪ {[ id h ]})) as (seen' & Hrun & Hseen).
    + discriminate.
    + rewrite length_app. simpl in *. lia.
    + rewrite <- app_assoc. exact Hnd.
    + intros x Hx. rewrite not_elem_of_union, not_elem_of_singleton. split.
      * apply Hnew. right. exact Hx.
      * rewrite map_app in Hnd. apply NoDup_app in Hnd as (_ & _ & Hnd).
        simpl in Hnd. apply NoDup_cons in Hnd as [Hnot _]. intros Heq. apply Hnot.
        rewrite <- Heq. change (id x ∈ map id (h2 :: pre)).
        apply list_elem_of_fmap. exists x. split; [reflexivity | exact Hx].
    + exists seen'. rewrite <- app_assoc in Hrun. split; [exact Hrun|].
      intros x. rewrite Hseen, elem_of_union, elem_of_singleton.
      change (map id (h :: h2 :: pre)) with (id h :: map id (h2 :: pre)).
      rewrite (elem_of_cons _ x (id h)). tauto.
Qed.

(** X19. When the page requested first holds six results or more and its
    first six have distinct ids that were not seen before, the batch is
    those six in the order of the page, this page is the only one requested,
    the seen ids are the old ones and those six, and loading is over. *)
Theorem rich_page_fills_batch (query : jsstring) (search : nat -> PageFetch) (s : Picker)
    (hits : list PixabayHit) :
  isEmpty query = false ->
  pageHits (search (pageNum s)) = Some hits ->
  (6 <= length hits)%nat ->
  NoDup (map id (take 6 hits)) ->
  (forall h, h ∈ take 6 hits -> id h ∉ seenIds s) ->
  images (loadUnique query search false s) = take 6 hits
  /\ pagesRequested search s = [pageNum s]
  /\ (forall x, x ∈ seenIds (loadUnique query search false s)
                <-> x ∈ seenIds s \/ x ∈ map id (take 6 hits))
  /\ loading (loadUnique query search false s) = false.
Proof.
  intros Hq Hpage Hlen Hnd Hnew.
  destruct (collectNovel_fills (take 6 hits) (drop 6 hits) [] (seenIds s))
    as (seen' & Hrun & Hseen); try assumption.
  { destruct hits; [simpl in Hlen; lia | discriminate]. }
  { rewrite length_take. cbn [length]. lia. }
  rewrite take_drop in Hrun. cbn [app] in Hrun.
  assert (Hg : gather 6 search s
               = Some (Ok {| collected := take 6 hits; page := S (pageNum s);
                             attempts := 1; currentSeen := seen';
                             requested := [pageNum s] |}, [pageNum s])).
  { unfold gather. rewrite gatherLoop_S. cbn [collected attempts page currentSeen requested
                                                length Nat.ltb Nat.leb andb].
    rewrite Hpage, Hrun.
    replace (length hits =? 0)%nat with false
      by (symmetry; apply Nat.eqb_neq; lia).
    rewrite gatherLoop_S. cbn [collected attempts].
    replace (length (take 6 hits) <? 6)%nat with false
      by (symmetry; apply Nat.ltb_ge; rewrite length_take; lia).
    reflexivity. }
  unfold loadUnique, pagesRequested. rewrite Hq, Hg. cbn. auto.
Qed.

Lemma rich_page_witness :
  images (loadUnique (js "Rome Italy") (fun _ => Json (Some page18)) false (pickerAt 3 ["7"]))
  = take 6 page18.
Proof.
  apply (rich_page_fills_batch (js "Rome Italy") (fun _ => Json (Some page18))
           (pickerAt 3 ["7"]) page18).
  - reflexivity.
  - reflexivity.
  - simpl. lia.
  - refine (bool_decide_unpack _ _). vm_compute. exact I.
  - intros h Hh. apply list_elem_of_In in Hh. simpl in Hh.
    refine (bool_decide_unpack _ _).
    decompose [or] Hh; subst; try contradiction; vm_compute; exact I.
Defined.
